(** * kitchen_sync: the database-client layer (ks_mysql.cpp, ks_postgresql.cpp)

    A shallow embedding of the two engine clients and of their schema
    listers, and the properties of their specification.

    Conventions of the embedding:
    - [std::string] is [string]; [vector<T>] is [list T] and [push_back]
      appends at the end; [set<string>] is [gset string];
    - a function that can throw is a function into [outcome]; a member
      function that also mutates the client runs in the monad [M] over the
      client state, which keeps the state reached when the exception left;
    - the engine itself (the server and the client library under
      [mysql.h] / [libpq-fe.h]) is data of the connection: a function from
      statement text to the reply the library reports. *)

From Stdlib Require Import ZArith Ascii.
From stdpp Require Import base option list strings gmap sets sorting.

#[local] Set Warnings "-clear-no-such-hyp".

Local Open Scope Z_scope.
Local Open Scope nat_scope.

(** ** C++ control flow: exceptions and state *)

Module Cxx.

(** How a call ends: it returns, it throws [runtime_error(what)], or it
    runs into undefined behaviour inside a library function, which [call]
    names: a null handle where the function reads through the handle, a
    number that [int] cannot hold, bytes written past the end of a
    buffer. *)
Inductive outcome (A : Type) : Type :=
| Returned (a : A)
| Thrown (what : string)
| Undefined (call : string).
Global Arguments Returned {A} a.
Global Arguments Thrown {A} what.
Global Arguments Undefined {A} call.

Global Instance outcome_ret : MRet outcome := λ A a, Returned a.
Global Instance outcome_bind : MBind outcome := λ A B f o,
  match o with
  | Returned a => f a
  | Thrown w => Thrown w
  | Undefined u => Undefined u
  end.

(** A computation over the mutable state [S]. *)
Definition M (S A : Type) : Type := S → outcome A * S.

Definition ret {S A} (a : A) : M S A := λ s, (Returned a, s).

(** Sequencing: what follows a call runs only when the call returned. *)
Definition bind {S A B} (m : M S A) (f : A → M S B) : M S B := λ s,
  match m s with
  | (Returned a, s') => f a s'
  | (Thrown w, s') => (Thrown w, s')
  | (Undefined u, s') => (Undefined u, s')
  end.

(** The state, read. *)
Definition gets {S A} (f : S → A) : M S A := λ s, (Returned (f s), s).

(** [throw runtime_error(what)] *)
Definition throw {S A} (what : string) : M S A := λ s, (Thrown what, s).

(** A callback that does not touch the client. *)
Definition lift {S A} (o : outcome A) : M S A := λ s, (o, s).

Definition modify {S} (f : S → S) : M S unit := λ s, (Returned (), f s).

(** A callback object applied to the rows it is handed, in order, until
    one call does not return. *)
Fixpoint run_rows {R H} (row_handler : R → H → outcome H)
    (rows : list R) (h : H) : outcome H :=
  match rows with
  | [] => Returned h
  | row :: rows' =>
      match row_handler row h with
      | Returned h' => run_rows row_handler rows' h'
      | Thrown w => Thrown w
      | Undefined u => Undefined u
      end
  end.

(** [int] as C++ has it here: 32 bits, two's complement. *)
Definition to_int (z : Z) : Z := ((z + 2 ^ 31) `mod` 2 ^ 32 - 2 ^ 31)%Z.

Definition INT_MAX : Z := (2 ^ 31 - 1)%Z.

Definition newline : string := String "010"%char EmptyString.

End Cxx.
Import Cxx.

Notation "'let*' x ':=' m 'in' k" := (bind m (λ x, k))
  (at level 10, x name, m at level 100, k at level 200,
   format "'[v' 'let*'  x  ':='  m  'in' '/' k ']'").

(** ** schema.h *)

Module Schema.

(** Members keep their names where two structs do not share one:
    [Column::name] is [column_name], [Key::name] is [key_name] and
    [Key::columns] is [key_columns]. *)
Record Column := { column_name : string }.

Definition Columns := list Column.
Definition ColumnIndices := list nat.

(** Modelled from the spec: [struct Key] is declared in a revision of
    schema.h that is not part of the sources; the spec gives it a name, a
    uniqueness flag and the ordered indices of its columns, and both
    listers build it with [Key(key_name, unique)] and then push columns. *)
Record Key := {
  key_name : string;
  unique : bool;
  key_columns : ColumnIndices
}.

Definition Key_new (name : string) (unique : bool) : Key :=
  {| key_name := name; unique := unique; key_columns := [] |}.

Definition Keys := list Key.

(** Modelled from the spec: the schema.h of the sources is an older
    revision than the two clients, with column names as
    [primary_key_columns] and without [keys]; the clients push column
    indices ([size_t]) to both, as the spec has them. *)
Record Table := {
  name : string;
  columns : Columns;
  primary_key_columns : ColumnIndices;
  keys : Keys
}.

Definition Table_new (name : string) : Table :=
  {| name := name; columns := []; primary_key_columns := []; keys := [] |}.

Definition Tables := list Table.

Record Database := { tables : Tables }.

Definition set_columns (f : Columns → Columns) (t : Table) : Table :=
  {| name := name t; columns := f (columns t);
     primary_key_columns := primary_key_columns t; keys := keys t |}.

Definition set_primary_key_columns (f : ColumnIndices → ColumnIndices)
    (t : Table) : Table :=
  {| name := name t; columns := columns t;
     primary_key_columns := f (primary_key_columns t); keys := keys t |}.

Definition set_keys (f : Keys → Keys) (t : Table) : Table :=
  {| name := name t; columns := columns t;
     primary_key_columns := primary_key_columns t; keys := f (keys t) |}.

Definition push_column (i : nat) (k : Key) : Key :=
  {| key_name := key_name k; unique := unique k;
     key_columns := key_columns k ++ [i] |}.

(** [v.back() = f(v.back())] on a vector; nothing to do on an empty one
    (the listers only reach it after a [push_back]). *)
Fixpoint alter_back {A} (f : A → A) (v : list A) : list A :=
  match v with
  | [] => []
  | [x] => [f x]
  | x :: v' => x :: alter_back f v'
  end.

(** Modelled from the spec: [Key::operator<] is declared with [Key];
    keys are ordered by name.  [key_le k1 k2]: [k1] may stand before [k2]. *)
Definition key_le (k1 k2 : Key) : Prop := String.le (key_name k1) (key_name k2).

Global Instance key_le_dec : RelDecision key_le.
Proof. intros k1 k2. unfold key_le. apply _. Defined.

(** Modelled from the spec: the two members of schema.h that the listers
    call and that the sources do not contain.  [index_of_column] looks a
    column name up in the table's column sequence (it may throw);
    [sort] is [std::sort] over [Keys] with [Key::operator<], which the
    spec and the comment at the call say orders keys by name.  [std::sort]
    promises a rearrangement that is in order and nothing about the
    relative place of equal elements, so any function with these two laws
    is taken. *)
Class Decls := {
  index_of_column : Columns → string → outcome nat;
  sort : Keys → Keys;
  sort_Permutation : ∀ ks, sort ks ≡ₚ ks;
  sort_Sorted : ∀ ks, Sorted key_le (sort ks)
}.

(** The surrogate-key loop both table listers end with:
    [for (key = keys.begin(); key != keys.end() && primary_key_columns.empty(); ++key)
       if (key->unique && !unique_but_nullable_keys.count(key->name))
         primary_key_columns = key->columns;] *)
Definition usable (unique_but_nullable_keys : gset string) (key : Key) : bool :=
  unique key && bool_decide (key_name key ∉ unique_but_nullable_keys).

Fixpoint surrogate_key_loop (unique_but_nullable_keys : gset string)
    (keys : Keys) (primary_key_columns : ColumnIndices) : ColumnIndices :=
  match keys with
  | [] => primary_key_columns
  | key :: rest =>
      match primary_key_columns with
      | [] =>
          surrogate_key_loop unique_but_nullable_keys rest
            (if usable unique_but_nullable_keys key
             then key_columns key else primary_key_columns)
      | _ :: _ => primary_key_columns
      end
  end.

(** The members the two key listers have in common: the table they fill
    (a reference in the source) and the names of the unique keys seen with
    a nullable column. *)
Record KeyLister := {
  kl_table : Table;
  unique_but_nullable_keys : gset string
}.

Definition no_key_message (table_name : string) : string :=
  "Couldn't find a primary or non-nullable unique key on table " +:+ table_name.

End Schema.
Import Schema.

(** ** What both client libraries offer for escaping *)

Module Native.

(** The escaping routine of a client library ([mysql_real_escape_string],
    [PQescapeStringConn]): which bytes it produces depends on the
    connection (character set, server settings), so it is taken with the
    bound both libraries document: at most two bytes for each byte of
    input, and a terminating zero byte that is not counted. *)
Class EscapeRoutine := {
  escaped : string → string;
  escaped_length : ∀ from, String.length (escaped from) ≤ 2 * String.length from
}.

Definition NUL : ascii := "000"%char.

(** [std::string::resize(n)]: cut to [n] bytes or fill up with zero bytes. *)
Fixpoint resize (n : nat) (s : string) : string :=
  match n with
  | 0 => EmptyString
  | S n' =>
      match s with
      | EmptyString => String NUL (resize n' EmptyString)
      | String c s' => String c (resize n' s')
      end
  end.

(** Bytes stored from the start of a buffer; what lies behind them stays.
    ([escape_into] stores only bytes that fit.) *)
Fixpoint overwrite (bytes buffer : string) : string :=
  match bytes, buffer with
  | String b bytes', String _ buffer' => String b (overwrite bytes' buffer')
  | _, _ => buffer
  end.

(** The call [routine(to, from, length)] of a routine that makes the bytes
    [routine from] of [from]: the bytes and a zero byte behind them go to
    [to], the number of the bytes is returned.  The routine is not told
    how long [to] is: what does not fit in it is written past its end. *)
Definition escape_into (routine : string → string) (to from : string)
    : outcome (string * nat) :=
  let bytes := routine from +:+ String NUL EmptyString in
  if bool_decide (String.length bytes ≤ String.length to)
  then Returned (overwrite bytes to, String.length (routine from))
  else Undefined "escape_into".

(** [string result; result.resize(value.size()*2 + 1);]: the buffer the
    routine is handed. *)
Definition escape_buffer (value : string) : string :=
  let result := EmptyString in
  resize (String.length value * 2 + 1) result.

(** The body both clients share:
    [result.resize(value.size()*2 + 1);
     result_length = routine(result.data(), value.c_str(), value.size());
     result.resize(result_length);
     return result;] *)
Definition escape_value (routine : string → string) (value : string)
    : outcome string :=
  let result := escape_buffer value in
  '(result, result_length) ← escape_into routine result value;
  mret (resize result_length result).

(** Decimal digits and [atoi], as far as a connection parameter needs it:
    white space, an optional sign, then digits; a value that [int] cannot
    hold is undefined behaviour. *)
Definition is_digit (c : ascii) : bool :=
  (48 <=? nat_of_ascii c) && (nat_of_ascii c <=? 57).

Definition is_space (c : ascii) : bool :=
  (nat_of_ascii c =? 32) || ((9 <=? nat_of_ascii c) && (nat_of_ascii c <=? 13)).

Fixpoint digits_value (acc : Z) (s : string) : Z :=
  match s with
  | String c s' =>
      if is_digit c
      then digits_value (10 * acc + (Z.of_nat (nat_of_ascii c) - 48))%Z s'
      else acc
  | EmptyString => acc
  end.

(** A numeric string: not empty and decimal digits throughout. *)
Fixpoint all_digits (s : string) : bool :=
  match s with
  | String c s' => is_digit c && all_digits s'
  | EmptyString => true
  end.

Definition numeric (s : string) : bool :=
  match s with
  | String _ _ => all_digits s
  | EmptyString => false
  end.

Fixpoint skip_space (s : string) : string :=
  match s with
  | String c s' => if is_space c then skip_space s' else s
  | EmptyString => s
  end.

Definition atoi (s : string) : outcome Z :=
  let v :=
    match skip_space s with
    | String "-"%char s' => (- digits_value 0 s')%Z
    | String "+"%char s' => digits_value 0 s'
    | s' => digits_value 0 s'
    end in
  if bool_decide (- INT_MAX - 1 ≤ v ≤ INT_MAX)%Z then Returned v
  else Undefined "atoi".

End Native.
Import Native.

(** ** ks_mysql.cpp *)

Module MySQL.

Definition MYSQL_5_6_5 : Z := 50605.

(** *** The client library ([mysql.h]) *)

(** A fetched row: each cell is NULL or a byte string. *)
Definition MYSQL_ROW := list (option string).

(** The result set of a statement: its column count, its rows, and the
    error the transfer of the rows ends with, if any. *)
Record ResultSet := {
  rs_fields : nat;
  rs_rows : list MYSQL_ROW;
  rs_error : option string
}.

(** What the server does with a statement: it rejects it with a
    diagnostic, or accepts it; an accepted statement may have a result
    set. *)
Inductive Reply :=
| Rejected (diagnostic : string)
| Accepted (result_set : option ResultSet).

(** The connection.  [unread] are the rows the server has sent and the
    client has not read yet; [pending] describes the result set that
    [mysql_store_result] / [mysql_use_result] can still claim (its column
    count and the error its transfer ends with); [open_results] counts
    the result handles not yet freed. *)
Record MYSQL := {
  server : string → Reply;
  server_version : Z;
  statements : list string;
  last_error : option string;
  pending : option (nat * option string);
  unread : list MYSQL_ROW;
  open_results : nat
}.

(** A result handle: the rows it has still to deliver.  A streaming
    handle ([mysql_use_result]) delivers what is unread on the connection
    and reads one row off the connection with each fetch. *)
Record MYSQL_RES := {
  res_fields : nat;
  res_rows : list MYSQL_ROW;
  res_error : option string;
  res_streaming : bool
}.

Definition sent (sql : string) (my : MYSQL) (error : option string)
    (pending : option (nat * option string)) (rows : list MYSQL_ROW) : MYSQL :=
  {| server := server my; server_version := server_version my;
     statements := statements my ++ [sql];
     last_error := error; pending := pending;
     unread := unread my ++ rows; open_results := open_results my |}.

(** Returns zero when the server accepted the statement. *)
Definition mysql_real_query (my : MYSQL) (sql : string) : Z * MYSQL :=
  match server my sql with
  | Rejected diagnostic => (1%Z, sent sql my (Some diagnostic) None [])
  | Accepted None => (0%Z, sent sql my None None [])
  | Accepted (Some rs) =>
      (0%Z, sent sql my None (Some (rs_fields rs, rs_error rs)) (rs_rows rs))
  end.

Definition claimed (my : MYSQL) (error : option string)
    (unread : list MYSQL_ROW) (opened : nat) : MYSQL :=
  {| server := server my; server_version := server_version my;
     statements := statements my;
     last_error := error; pending := None;
     unread := unread; open_results := opened + open_results my |}.

(** Reads the whole result set into client memory; null when there is
    none or when reading it failed. *)
Definition mysql_store_result (my : MYSQL) : option MYSQL_RES * MYSQL :=
  match pending my with
  | None => (None, my)
  | Some (_, Some e) => (None, claimed my (Some e) [] 0)
  | Some (n, None) =>
      (Some {| res_fields := n; res_rows := unread my; res_error := None;
               res_streaming := false |},
       claimed my (last_error my) [] 1)
  end.

(** Starts a row-by-row retrieval; the rows stay on the connection. *)
Definition mysql_use_result (my : MYSQL) : option MYSQL_RES * MYSQL :=
  match pending my with
  | None => (None, my)
  | Some (n, e) =>
      (Some {| res_fields := n; res_rows := unread my; res_error := e;
               res_streaming := true |},
       claimed my (last_error my) (unread my) 1)
  end.

Definition set_res_rows (rows : list MYSQL_ROW) (res : MYSQL_RES) : MYSQL_RES :=
  {| res_fields := res_fields res; res_rows := rows;
     res_error := res_error res; res_streaming := res_streaming res |}.

Definition set_unread (rows : list MYSQL_ROW) (my : MYSQL) : MYSQL :=
  {| server := server my; server_version := server_version my;
     statements := statements my; last_error := last_error my;
     pending := pending my; unread := rows; open_results := open_results my |}.

Definition set_last_error (e : option string) (my : MYSQL) : MYSQL :=
  {| server := server my; server_version := server_version my;
     statements := statements my; last_error := e;
     pending := pending my; unread := unread my; open_results := open_results my |}.

(** The next row, or null when there is none left or the transfer failed. *)
Definition mysql_fetch_row (res : MYSQL_RES) (my : MYSQL)
    : option MYSQL_ROW * MYSQL_RES * MYSQL :=
  match res_rows res with
  | row :: rest =>
      (Some row, set_res_rows rest res,
       if res_streaming res then set_unread (tail (unread my)) my else my)
  | [] =>
      (None, res,
       match res_error res with
       | Some e => set_last_error (Some e) my
       | None => my
       end)
  end.

Definition mysql_free_result (res : MYSQL_RES) (my : MYSQL) : MYSQL :=
  {| server := server my; server_version := server_version my;
     statements := statements my; last_error := last_error my;
     pending := pending my; unread := unread my;
     open_results := pred (open_results my) |}.

(** Both read a field of the structure they are handed. *)
Definition mysql_num_rows (res : option MYSQL_RES) : outcome nat :=
  match res with
  | Some r => Returned (if res_streaming r then 0 else length (res_rows r))
  | None => Undefined "mysql_num_rows"
  end.

Definition mysql_num_fields (res : option MYSQL_RES) : outcome nat :=
  match res with
  | Some r => Returned (res_fields r)
  | None => Undefined "mysql_num_fields"
  end.

Definition mysql_errno (my : MYSQL) : bool := bool_decide (is_Some (last_error my)).
Definition mysql_error (my : MYSQL) : string := default EmptyString (last_error my).
Definition mysql_get_server_version (my : MYSQL) : Z := server_version my.

(** *** class MySQLRes *)

Record MySQLRes := {
  _res : option MYSQL_RES;
  _n_tuples : Z;
  _n_columns : Z
}.

Definition set_res (r : option MYSQL_RES) (self : MySQLRes) : MySQLRes :=
  {| _res := r; _n_tuples := _n_tuples self; _n_columns := _n_columns self |}.

(** [MySQLRes::MySQLRes(MYSQL &mysql, bool buffer)] *)
Definition MySQLRes_new (my : MYSQL) (buffer : bool) : outcome MySQLRes * MYSQL :=
  let '(res, my) :=
    if buffer then mysql_store_result my else mysql_use_result my in
  (n_tuples ← mysql_num_rows res;
   n_columns ← mysql_num_fields res;
   mret {| _res := res;
           _n_tuples := to_int (Z.of_nat n_tuples);
           _n_columns := to_int (Z.of_nat n_columns) |},
   my).

(** [while (mysql_fetch_row(_res)) ;]  A handle with [n] rows left
    answers null at its [n+1]-th fetch at the latest, so [n+1] rounds are
    all the loop can make; [rounds] is that number. *)
Fixpoint discard_rows (rounds : nat) (res : MYSQL_RES) (my : MYSQL)
    : MYSQL_RES * MYSQL :=
  match rounds with
  | 0 => (res, my)
  | S rounds' =>
      match mysql_fetch_row res my with
      | (Some _, res', my') => discard_rows rounds' res' my'
      | (None, res', my') => (res', my')
      end
  end.

(** [MySQLRes::~MySQLRes()] *)
Definition MySQLRes_delete (self : MySQLRes) (my : MYSQL) : MYSQL :=
  match _res self with
  | Some res =>
      let '(res, my) := discard_rows (S (length (res_rows res))) res my in
      mysql_free_result res my
  | None => my
  end.

(** *** class MySQLRow *)

(** A row keeps a reference to its guard for two things: the column
    count, fixed when the guard is made, and the cell lengths of the
    current row, which the cells carry here. *)
Record MySQLRow := {
  n_columns : Z;
  _row : MYSQL_ROW
}.

Definition MySQLRow_new (res : MySQLRes) (row : MYSQL_ROW) : MySQLRow :=
  {| n_columns := _n_columns res; _row := row |}.

Definition null_at (row : MySQLRow) (column_number : nat) : bool :=
  match _row row !! column_number with
  | Some (Some _) => false
  | _ => true
  end.

Definition result_at (row : MySQLRow) (column_number : nat) : option string :=
  mjoin (_row row !! column_number).

(** [mysql_fetch_lengths] gives 0 for a NULL cell. *)
Definition length_of (row : MySQLRow) (column_number : nat) : nat :=
  from_option String.length 0 (result_at row column_number).

Definition string_at (row : MySQLRow) (column_number : nat) : string :=
  default EmptyString (result_at row column_number).

(** *** class MySQLClient *)

Record MySQLClient := {
  mysql : MYSQL;
  database : Database
}.

Definition set_mysql (my : MYSQL) (c : MySQLClient) : MySQLClient :=
  {| mysql := my; database := database c |}.

Definition push_table (table : Table) (c : MySQLClient) : MySQLClient :=
  {| mysql := mysql c;
     database := {| tables := tables (database c) ++ [table] |} |}.

Definition statement_error (my : MYSQL) (sql : string) : string :=
  mysql_error my +:+ newline +:+ sql.

(** The loop of [query]:
    [while (true) { mysql_row = mysql_fetch_row(res.res());
                    if (!mysql_row) break;
                    MySQLRow row(res, mysql_row); row_handler(row); }]
    with the same bound on its rounds as [discard_rows]. *)
Fixpoint fetch_rows {H} (rounds : nat)
    (row_handler : MySQLRow → H → M MySQLClient H)
    (res : MySQLRes) (h : H) (c : MySQLClient)
    : outcome H * MySQLRes * MySQLClient :=
  match rounds with
  | 0 => (Returned h, res, c)
  | S rounds' =>
      match _res res with
      | None => (Undefined "mysql_fetch_row", res, c)
      | Some r =>
          let '(mysql_row, r, my) := mysql_fetch_row r (mysql c) in
          let res := set_res (Some r) res in
          let c := set_mysql my c in
          match mysql_row with
          | None => (Returned h, res, c)
          | Some mysql_row =>
              match row_handler (MySQLRow_new res mysql_row) h c with
              | (Returned h', c') => fetch_rows rounds' row_handler res h' c'
              | (Thrown w, c') => (Thrown w, res, c')
              | (Undefined u, c') => (Undefined u, res, c')
              end
          end
      end
  end.

Definition rows_left (res : MySQLRes) : nat :=
  from_option (λ r, length (res_rows r)) 0 (_res res).

(** [MySQLClient::query(sql, row_handler, buffer)].  The guard [res] is a
    local: its destructor runs when the function returns and when an
    exception leaves it.  ([backtrace()] only prints.) *)
Definition query {H} (sql : string)
    (row_handler : MySQLRow → H → M MySQLClient H) (buffer : bool) (h : H)
    : M MySQLClient H := λ c,
  let '(rc, my) := mysql_real_query (mysql c) sql in
  if bool_decide (rc ≠ 0%Z)
  then (Thrown (statement_error my sql), set_mysql my c)
  else
    match MySQLRes_new my buffer with
    | (Returned res, my) =>
        let '(o, res, c) :=
          fetch_rows (S (rows_left res)) row_handler res h (set_mysql my c) in
        let o :=
          h' ← o;
          if mysql_errno (mysql c)
          then Thrown (statement_error (mysql c) sql)
          else Returned h' in
        (o, set_mysql (MySQLRes_delete res (mysql c)) c)
    | (Thrown w, my) => (Thrown w, set_mysql my c)
    | (Undefined u, my) => (Undefined u, set_mysql my c)
    end.

(** [MySQLClient::execute(sql)] *)
Definition execute (sql : string) : M MySQLClient unit := λ c,
  let '(rc, my) := mysql_real_query (mysql c) sql in
  if bool_decide (rc ≠ 0%Z)
  then (Thrown (statement_error my sql), set_mysql my c)
  else (Returned (), set_mysql my c).

(** [MySQLClient::start_transaction(readonly, snapshot)] *)
Definition start_transaction (readonly snapshot : bool) : M MySQLClient unit :=
  let* _ := execute (if snapshot
                     then "SET TRANSACTION ISOLATION LEVEL REPEATABLE READ"
                     else "SET TRANSACTION ISOLATION LEVEL READ COMMITTED") in
  let* server_version := gets (λ c, mysql_get_server_version (mysql c)) in
  execute (if readonly && (MYSQL_5_6_5 <=? server_version)%Z
           then "START TRANSACTION READ ONLY"
           else "START TRANSACTION").

Definition commit_transaction : M MySQLClient unit := execute "COMMIT".

Definition disable_referential_integrity : M MySQLClient unit :=
  execute "SET foreign_key_checks = 0".

Definition enable_referential_integrity : M MySQLClient unit :=
  execute "SET foreign_key_checks = 1".

(** [MySQLClient::escape_value(value)], over [mysql_real_escape_string]. *)
Definition escape_value `{EscapeRoutine} (value : string) : outcome string :=
  Native.escape_value escaped value.

(** The head of the constructor: what [mysql_real_connect] is given as
    port and as unix socket.
    [port] starts as 0 and [socket] as null; for a parameter that is
    present and not empty, a first character from '0' to '9' makes
    [port = atoi(database_port)], any other makes
    [socket = database_port]. *)
Definition port_and_socket (database_port : option string)
    : outcome (Z * option string) :=
  match database_port with
  | Some (String c _ as s) =>
      if is_digit c
      then port ← atoi s; mret (port, None)
      else mret (0%Z, Some s)
  | _ => mret (0%Z, None)
  end.

(** *** The schema listers *)

Section listers.
Context `{Decls}.

(** [MySQLColumnLister::operator()] *)
Definition MySQLColumnLister_call (row : MySQLRow) (table : Table) : outcome Table :=
  let column := {| column_name := string_at row 0 |} in
  Returned (set_columns (λ cs, cs ++ [column]) table).

(** [struct MySQLKeyLister] *)
Definition MySQLKeyLister := KeyLister.

Definition MySQLKeyLister_new (table : Table) : MySQLKeyLister :=
  {| kl_table := table; unique_but_nullable_keys := ∅ |}.

(** [MySQLKeyLister::operator()] *)
Definition MySQLKeyLister_call (row : MySQLRow) (self : MySQLKeyLister)
    : outcome MySQLKeyLister :=
  let table := kl_table self in
  let unique := bool_decide (string_at row 1 = "0") in
  let key_name := string_at row 2 in
  let column_name := string_at row 4 in
  column_index ← index_of_column (columns table) column_name;
  if bool_decide (key_name = "PRIMARY") then
    Returned
      {| kl_table := set_primary_key_columns (λ pk, pk ++ [column_index]) table;
         unique_but_nullable_keys := unique_but_nullable_keys self |}
  else
    let table :=
      match last (keys table) with
      | Some back =>
          if bool_decide (Schema.key_name back ≠ key_name)
          then set_keys (λ ks, ks ++ [Key_new key_name unique]) table
          else table
      | None => set_keys (λ ks, ks ++ [Key_new key_name unique]) table
      end in
    let table := set_keys (alter_back (push_column column_index)) table in
    Returned
      {| kl_table := table;
         unique_but_nullable_keys :=
           match primary_key_columns table with
           | [] =>
               let nullable := string_at row 9 in
               if unique && bool_decide (nullable = "YES")
               then {[ key_name ]} ∪ unique_but_nullable_keys self
               else unique_but_nullable_keys self
           | _ :: _ => unique_but_nullable_keys self
           end |}.

(** [MySQLTableLister::operator()] *)
Definition MySQLTableLister_call (row : MySQLRow) : M MySQLClient unit :=
  let table := Table_new (string_at row 0) in
  let* table :=
    query ("SHOW COLUMNS FROM " +:+ name table)
          (λ r t, lift (MySQLColumnLister_call r t)) false table in
  let* key_lister :=
    query ("SHOW KEYS FROM " +:+ name table)
          (λ r k, lift (MySQLKeyLister_call r k)) false
          (MySQLKeyLister_new table) in
  let table := kl_table key_lister in
  let table := set_keys sort table in
  let table :=
    set_primary_key_columns
      (surrogate_key_loop (unique_but_nullable_keys key_lister) (keys table))
      table in
  match primary_key_columns table with
  | [] => throw (no_key_message (name table))
  | _ :: _ => modify (push_table table)
  end.

(** [MySQLClient::populate_database_schema()], up to the call of
    [index_database_tables()], which database_client.h declares. *)
Definition populate_database_schema : M MySQLClient unit :=
  query "SELECT table_name FROM information_schema.tables WHERE table_schema = schema() ORDER BY data_length DESC, table_name ASC"
        (λ row _, MySQLTableLister_call row) true ().

End listers.

End MySQL.

(** ** ks_postgresql.cpp *)

Module PostgreSQL.

(** *** The client library ([libpq-fe.h]) *)

Inductive ExecStatusType :=
| PGRES_EMPTY_QUERY
| PGRES_COMMAND_OK
| PGRES_TUPLES_OK
| PGRES_COPY_OUT
| PGRES_COPY_IN
| PGRES_BAD_RESPONSE
| PGRES_NONFATAL_ERROR
| PGRES_FATAL_ERROR
| PGRES_COPY_BOTH
| PGRES_SINGLE_TUPLE.

Global Instance ExecStatusType_eq_dec : EqDecision ExecStatusType.
Proof. solve_decision. Defined.

(** A result: always wholly in client memory. *)
Record PGresult := {
  resultStatus : ExecStatusType;
  nfields : nat;
  tuples : list (list (option string))
}.

(** What a statement gets: a result (null when the library could not
    make one) and the text the connection then holds as its error
    message. *)
Record Reply := {
  result : option PGresult;
  diagnostic : string
}.

Record PGconn := {
  server : string → Reply;
  statements : list string;
  errorMessage : string;
  open_results : nat
}.

Definition PQexec (conn : PGconn) (sql : string) : option PGresult * PGconn :=
  let reply := server conn sql in
  (result reply,
   {| server := server conn;
      statements := statements conn ++ [sql];
      errorMessage := diagnostic reply;
      open_results :=
        match result reply with Some _ => 1 | None => 0 end
        + open_results conn |}).

(** Called without parameters and for text results, it differs from
    [PQexec] in taking one command only. *)
Definition PQexecParams (conn : PGconn) (sql : string) : option PGresult * PGconn :=
  PQexec conn sql.

(** libpq answers for a null result as for a fatal error without rows. *)
Definition PQresultStatus (res : option PGresult) : ExecStatusType :=
  from_option resultStatus PGRES_FATAL_ERROR res.

Definition PQntuples (res : option PGresult) : nat :=
  from_option (λ r, length (tuples r)) 0 res.

Definition PQnfields (res : option PGresult) : nat :=
  from_option nfields 0 res.

Definition PQgetvalue (res : option PGresult) (row_number column_number : nat)
    : option string :=
  r ← res; tuple ← tuples r !! row_number; mjoin (tuple !! column_number).

Definition PQgetisnull (res : option PGresult) (row_number column_number : nat) : bool :=
  bool_decide (PQgetvalue res row_number column_number = None).

Definition PQgetlength (res : option PGresult) (row_number column_number : nat) : nat :=
  from_option String.length 0 (PQgetvalue res row_number column_number).

Definition PQclear (res : PGresult) (conn : PGconn) : PGconn :=
  {| server := server conn; statements := statements conn;
     errorMessage := errorMessage conn;
     open_results := pred (open_results conn) |}.

Definition PQerrorMessage (conn : PGconn) : string := errorMessage conn.

(** The statuses with which libpq reports that a statement failed. *)
Definition is_error (status : ExecStatusType) : bool :=
  match status with
  | PGRES_BAD_RESPONSE | PGRES_NONFATAL_ERROR | PGRES_FATAL_ERROR => true
  | _ => false
  end.

(** The status the library reports for a statement. *)
Definition status_of (conn : PGconn) (sql : string) : ExecStatusType :=
  PQresultStatus (result (server conn sql)).

(** *** class PostgreSQLRes *)

Record PostgreSQLRes := {
  _res : option PGresult;
  _n_tuples : Z;
  _n_columns : Z
}.

(** [PostgreSQLRes::PostgreSQLRes(PGresult *res)] *)
Definition PostgreSQLRes_new (res : option PGresult) : PostgreSQLRes :=
  {| _res := res;
     _n_tuples := to_int (Z.of_nat (PQntuples res));
     _n_columns := to_int (Z.of_nat (PQnfields res)) |}.

(** [PostgreSQLRes::~PostgreSQLRes()] *)
Definition PostgreSQLRes_delete (self : PostgreSQLRes) (conn : PGconn) : PGconn :=
  match _res self with
  | Some res => PQclear res conn
  | None => conn
  end.

Definition status (self : PostgreSQLRes) : ExecStatusType :=
  PQresultStatus (_res self).

(** *** class PostgreSQLRow *)

Record PostgreSQLRow := {
  row_res : PostgreSQLRes;
  _row_number : nat
}.

Definition n_columns (row : PostgreSQLRow) : Z := _n_columns (row_res row).

Definition null_at (row : PostgreSQLRow) (column_number : nat) : bool :=
  PQgetisnull (_res (row_res row)) (_row_number row) column_number.

Definition result_at (row : PostgreSQLRow) (column_number : nat) : option string :=
  PQgetvalue (_res (row_res row)) (_row_number row) column_number.

Definition length_of (row : PostgreSQLRow) (column_number : nat) : nat :=
  PQgetlength (_res (row_res row)) (_row_number row) column_number.

Definition string_at (row : PostgreSQLRow) (column_number : nat) : string :=
  default EmptyString (result_at row column_number).

(** *** class PostgreSQLClient *)

Record PostgreSQLClient := {
  conn : PGconn;
  database : Database
}.

Definition set_conn (pg : PGconn) (c : PostgreSQLClient) : PostgreSQLClient :=
  {| conn := pg; database := database c |}.

Definition push_table (table : Table) (c : PostgreSQLClient) : PostgreSQLClient :=
  {| conn := conn c;
     database := {| tables := tables (database c) ++ [table] |} |}.

Definition statement_error (pg : PGconn) (sql : string) : string :=
  PQerrorMessage pg +:+ newline +:+ sql.

(** The loop of [query]:
    [for (int row_number = 0; row_number < res.n_tuples(); row_number++)
       { PostgreSQLRow row(res, row_number); row_handler(row); }]
    over the row numbers still to come. *)
Fixpoint each_row {H} (row_handler : PostgreSQLRow → H → M PostgreSQLClient H)
    (res : PostgreSQLRes) (row_numbers : list nat) (h : H)
    : M PostgreSQLClient H := λ c,
  match row_numbers with
  | [] => (Returned h, c)
  | row_number :: rest =>
      match row_handler {| row_res := res; _row_number := row_number |} h c with
      | (Returned h', c') => each_row row_handler res rest h' c'
      | (Thrown w, c') => (Thrown w, c')
      | (Undefined u, c') => (Undefined u, c')
      end
  end.

(** Leaving the scope of the guard [res], on return or by exception. *)
Definition leave {A} (res : PostgreSQLRes) (r : outcome A * PostgreSQLClient)
    : outcome A * PostgreSQLClient :=
  (r.1, set_conn (PostgreSQLRes_delete res (conn r.2)) r.2).

(** [PostgreSQLClient::query(sql, row_handler)] *)
Definition query {H} (sql : string)
    (row_handler : PostgreSQLRow → H → M PostgreSQLClient H) (h : H)
    : M PostgreSQLClient H := λ c,
  let '(r, pg) := PQexecParams (conn c) sql in
  let res := PostgreSQLRes_new r in
  let c := set_conn pg c in
  leave res
    (if bool_decide (status res ≠ PGRES_TUPLES_OK)
     then (Thrown (statement_error (conn c) sql), c)
     else each_row row_handler res (seq 0 (Z.to_nat (_n_tuples res))) h c).

(** [PostgreSQLClient::execute(sql)] *)
Definition execute (sql : string) : M PostgreSQLClient unit := λ c,
  let '(r, pg) := PQexec (conn c) sql in
  let res := PostgreSQLRes_new r in
  let c := set_conn pg c in
  leave res
    (if bool_decide (status res ≠ PGRES_COMMAND_OK)
     then (Thrown (statement_error (conn c) sql), c)
     else (Returned (), c)).

(** [PostgreSQLClient::start_transaction(readonly, snapshot)] *)
Definition start_transaction (readonly snapshot : bool) : M PostgreSQLClient unit :=
  if snapshot then
    execute (if readonly
             then "START TRANSACTION READ ONLY ISOLATION LEVEL REPEATABLE READ"
             else "START TRANSACTION ISOLATION LEVEL REPEATABLE READ")
  else
    execute (if readonly
             then "START TRANSACTION READ ONLY ISOLATION LEVEL READ COMMITTED"
             else "START TRANSACTION ISOLATION LEVEL READ COMMITTED").

Definition commit_transaction : M PostgreSQLClient unit := execute "COMMIT".

Definition disable_referential_integrity : M PostgreSQLClient unit :=
  execute "SET CONSTRAINTS ALL DEFERRED".

Definition enable_referential_integrity : M PostgreSQLClient unit := ret ().

(** [PostgreSQLClient::escape_value(value)], over [PQescapeStringConn]. *)
Definition escape_value `{EscapeRoutine} (value : string) : outcome string :=
  Native.escape_value escaped value.

(** *** The schema listers *)

Definition columns_sql (table_name : string) : string :=
  "SELECT attname " +:+
    "FROM pg_attribute, pg_class " +:+
   "WHERE attrelid = pg_class.oid AND " +:+
         "attnum > 0 AND " +:+
         "NOT attisdropped AND " +:+
         "relname = '" +:+ table_name +:+ "' " +:+
   "ORDER BY attnum".

Definition primary_key_sql (table_name : string) : string :=
  "SELECT column_name " +:+
    "FROM information_schema.table_constraints, " +:+
         "information_schema.key_column_usage " +:+
   "WHERE information_schema.table_constraints.table_name = '" +:+ table_name +:+ "' AND " +:+
         "information_schema.key_column_usage.table_name = information_schema.table_constraints.table_name AND " +:+
         "constraint_type = 'PRIMARY KEY' " +:+
   "ORDER BY ordinal_position".

Definition keys_sql (table_name : string) : string :=
  "SELECT index_class.relname, pg_index.indisunique, attname, attnotnull " +:+
    "FROM pg_class table_class " +:+
    "JOIN pg_index ON table_class.oid = pg_index.indrelid " +:+
    "JOIN pg_class index_class ON pg_index.indexrelid = index_class.oid AND index_class.relkind = 'i' " +:+
    "JOIN pg_attribute ON table_class.oid = pg_attribute.attrelid AND pg_attribute.attnum = ANY(indkey) " +:+
   "WHERE table_class.relname = '" +:+ table_name +:+ "' AND " +:+
         "NOT pg_index.indisprimary".

Section listers.
Context `{Decls}.

(** [PostgreSQLColumnLister::operator()] *)
Definition PostgreSQLColumnLister_call (row : PostgreSQLRow) (table : Table)
    : outcome Table :=
  let column := {| column_name := string_at row 0 |} in
  Returned (set_columns (λ cs, cs ++ [column]) table).

(** [PostgreSQLPrimaryKeyLister::operator()] *)
Definition PostgreSQLPrimaryKeyLister_call (row : PostgreSQLRow) (table : Table)
    : outcome Table :=
  let column_name := string_at row 0 in
  column_index ← index_of_column (columns table) column_name;
  Returned (set_primary_key_columns (λ pk, pk ++ [column_index]) table).

(** [struct PostgreSQLKeyLister] *)
Definition PostgreSQLKeyLister := KeyLister.

Definition PostgreSQLKeyLister_new (table : Table) : PostgreSQLKeyLister :=
  {| kl_table := table; unique_but_nullable_keys := ∅ |}.

(** [PostgreSQLKeyLister::operator()] *)
Definition PostgreSQLKeyLister_call (row : PostgreSQLRow) (self : PostgreSQLKeyLister)
    : outcome PostgreSQLKeyLister :=
  let table := kl_table self in
  let key_name := string_at row 0 in
  let unique := bool_decide (string_at row 1 = "t") in
  let column_name := string_at row 2 in
  column_index ← index_of_column (columns table) column_name;
  let table :=
    match last (keys table) with
    | Some back =>
        if bool_decide (Schema.key_name back ≠ key_name)
        then set_keys (λ ks, ks ++ [Key_new key_name unique]) table
        else table
    | None => set_keys (λ ks, ks ++ [Key_new key_name unique]) table
    end in
  let table := set_keys (alter_back (push_column column_index)) table in
  Returned
    {| kl_table := table;
       unique_but_nullable_keys :=
         match primary_key_columns table with
         | [] =>
             let nullable := bool_decide (string_at row 3 = "f") in
             if unique && nullable
             then {[ key_name ]} ∪ unique_but_nullable_keys self
             else unique_but_nullable_keys self
         | _ :: _ => unique_but_nullable_keys self
         end |}.

(** [PostgreSQLTableLister::operator()] *)
Definition PostgreSQLTableLister_call (row : PostgreSQLRow) : M PostgreSQLClient unit :=
  let table := Table_new (string_at row 0) in
  let* table :=
    query (columns_sql (name table))
          (λ r t, lift (PostgreSQLColumnLister_call r t)) table in
  let* table :=
    query (primary_key_sql (name table))
          (λ r t, lift (PostgreSQLPrimaryKeyLister_call r t)) table in
  let* key_lister :=
    query (keys_sql (name table))
          (λ r k, lift (PostgreSQLKeyLister_call r k))
          (PostgreSQLKeyLister_new table) in
  let table := kl_table key_lister in
  let table := set_keys sort table in
  let table :=
    set_primary_key_columns
      (surrogate_key_loop (unique_but_nullable_keys key_lister) (keys table))
      table in
  match primary_key_columns table with
  | [] => throw (no_key_message (name table))
  | _ :: _ => modify (push_table table)
  end.

(** [PostgreSQLClient::populate_database_schema()], up to the call of
    [index_database_tables()], which database_client.h declares. *)
Definition populate_database_schema : M PostgreSQLClient unit :=
  query ("SELECT tablename " +:+
           "FROM pg_tables " +:+
          "WHERE schemaname = ANY (current_schemas(false)) " +:+
          "ORDER BY pg_relation_size(tablename::text) DESC, tablename ASC")
        (λ row _, PostgreSQLTableLister_call row) ().

End listers.

End PostgreSQL.

(** ** Instances of what the sources leave open *)

Module Instances.

(** A lookup by first match that throws for an unknown name, and a merge
    sort by key name. *)
Definition first_index_of_column (columns : Columns) (column_name : string)
    : outcome nat :=
  match list_find (λ c, Schema.column_name c = column_name) columns with
  | Some (i, _) => Returned i
  | None => Thrown ("Unknown column " +:+ column_name)
  end.

Global Instance key_le_total : Total key_le.
Proof. intros k1 k2. apply String.le_total. Qed.

Global Instance key_le_trans : Transitive key_le.
Proof. intros k1 k2 k3. unfold key_le. apply transitivity. Qed.

Definition decls : Decls :=
  {| index_of_column := first_index_of_column;
     sort := merge_sort key_le;
     sort_Permutation := merge_sort_Permutation key_le;
     sort_Sorted := Sorted_merge_sort key_le |}.








End Instances.

(** ** A sample database

    Three tables, the same on both engines: [orders (id, customer_id, total)]
    with a primary key on [id]; [sessions (token, user_id, device_id)] with
    no primary key, a unique key [by_token] on the nullable [token] and a
    unique key [by_user] on [(user_id, device_id)]; [logs (line)] with no
    key at all. *)

Module Samples.

Definition text (cells : list string) : list (option string) := Some <$> cells.

Module My.
Import MySQL.

(** A row of [SHOW KEYS]: Table, Non_unique, Key_name, Seq_in_index,
    Column_name, Collation, Cardinality, Sub_part, Packed, Null. *)
Definition key_row (table non_unique key_name seq column null : string) : MYSQL_ROW :=
  text [table; non_unique; key_name; seq; column] ++ [Some "A"; Some "0"; None; None; Some null].

Definition result_set (n : nat) (rows : list MYSQL_ROW) : ResultSet :=
  {| rs_fields := n; rs_rows := rows; rs_error := None |}.

Definition orders_columns : ResultSet :=
  result_set 1 [text ["id"]; text ["customer_id"]; text ["total"]].
Definition orders_keys : ResultSet :=
  result_set 10 [key_row "orders" "0" "PRIMARY" "1" "id" ""].
Definition sessions_columns : ResultSet :=
  result_set 1 [text ["token"]; text ["user_id"]; text ["device_id"]].
Definition sessions_keys : ResultSet :=
  result_set 10 [key_row "sessions" "0" "by_user" "1" "user_id" "";
                 key_row "sessions" "0" "by_user" "2" "device_id" "";
                 key_row "sessions" "0" "by_token" "1" "token" "YES"].
Definition logs_columns : ResultSet := result_set 1 [text ["line"]].
Definition logs_keys : ResultSet := result_set 10 [].
(** [guests (token, name)]: one unique key, on the nullable [token], and
    an index on [name] that is not unique. *)
Definition guests_columns : ResultSet := result_set 1 [text ["token"]; text ["name"]].
Definition guests_keys : ResultSet :=
  result_set 10 [key_row "guests" "0" "by_token" "1" "token" "YES";
                 key_row "guests" "1" "by_name" "1" "name" ""].

Definition tables_sql : string :=
  "SELECT table_name FROM information_schema.tables WHERE table_schema = schema() ORDER BY data_length DESC, table_name ASC".

Definition server (sql : string) : Reply :=
  if bool_decide (sql = tables_sql) then
    Accepted (Some (result_set 1 [text ["orders"]; text ["sessions"]]))
  else if bool_decide (sql = "SHOW COLUMNS FROM orders") then Accepted (Some orders_columns)
  else if bool_decide (sql = "SHOW KEYS FROM orders") then Accepted (Some orders_keys)
  else if bool_decide (sql = "SHOW COLUMNS FROM sessions") then Accepted (Some sessions_columns)
  else if bool_decide (sql = "SHOW KEYS FROM sessions") then Accepted (Some sessions_keys)
  else if bool_decide (sql = "SHOW COLUMNS FROM logs") then Accepted (Some logs_columns)
  else if bool_decide (sql = "SHOW KEYS FROM logs") then Accepted (Some logs_keys)
  else if bool_decide (sql = "SHOW COLUMNS FROM guests") then Accepted (Some guests_columns)
  else if bool_decide (sql = "SHOW KEYS FROM guests") then Accepted (Some guests_keys)
  else if bool_decide (sql = "SELECT id FROM orders") then
    Accepted (Some (result_set 1 [text ["5"]; text ["6"]; text ["9"]]))
  else if bool_decide (sql = "SELECT line FROM logs") then
    Accepted (Some (result_set 1 [text ["started"]]))
  else if bool_decide (sql = "SELECT nothing") then
    Rejected "Unknown column 'nothing' in 'field list'"
  else Accepted None.

(** The same server on a connection that breaks while the list of
    tables is transferred. *)
Definition failing_server (sql : string) : Reply :=
  if bool_decide (sql = tables_sql) then
    Accepted (Some {| rs_fields := 1;
                      rs_rows := [text ["orders"]; text ["sessions"]];
                      rs_error := Some "Lost connection to MySQL server during query" |})
  else server sql.

Definition failing_client : MySQLClient :=
  {| mysql :=
       {| MySQL.server := failing_server; server_version := 50700;
          statements := []; last_error := None; pending := None;
          unread := []; open_results := 0 |};
     database := {| tables := [] |} |}.

Definition connection (version : Z) : MYSQL :=
  {| MySQL.server := server; server_version := version; statements := [];
     last_error := None; pending := None; unread := []; open_results := 0 |}.

Definition client (version : Z) : MySQLClient :=
  {| mysql := connection version; database := {| tables := [] |} |}.

Definition table_row (table : string) : MySQLRow :=
  {| n_columns := 1; _row := text [table] |}.
End My.

Module Pg.
Import PostgreSQL.

Definition tuples_ok (n : nat) (tuples : list (list (option string))) : PGresult :=
  {| resultStatus := PGRES_TUPLES_OK; nfields := n; tuples := tuples |}.

Definition answer (r : PGresult) : Reply :=
  {| result := Some r; diagnostic := EmptyString |}.

Definition orders_columns : PGresult :=
  tuples_ok 1 [text ["id"]; text ["customer_id"]; text ["total"]].
Definition orders_primary_key : PGresult := tuples_ok 1 [text ["id"]].
Definition orders_keys : PGresult := tuples_ok 4 [].
Definition sessions_columns : PGresult :=
  tuples_ok 1 [text ["token"]; text ["user_id"]; text ["device_id"]].
Definition sessions_primary_key : PGresult := tuples_ok 1 [].
Definition sessions_keys : PGresult :=
  tuples_ok 4 [text ["by_user"; "t"; "user_id"; "t"];
               text ["by_user"; "t"; "device_id"; "t"];
               text ["by_token"; "t"; "token"; "f"]].
Definition logs_columns : PGresult := tuples_ok 1 [text ["line"]].
Definition logs_primary_key : PGresult := tuples_ok 1 [].
Definition logs_keys : PGresult := tuples_ok 4 [].

Definition tables_sql : string :=
  "SELECT tablename " +:+
    "FROM pg_tables " +:+
   "WHERE schemaname = ANY (current_schemas(false)) " +:+
   "ORDER BY pg_relation_size(tablename::text) DESC, tablename ASC".

Definition server (sql : string) : Reply :=
  if bool_decide (sql = tables_sql) then
    answer (tuples_ok 1 [text ["orders"]; text ["sessions"]])
  else if bool_decide (sql = columns_sql "orders") then answer orders_columns
  else if bool_decide (sql = primary_key_sql "orders") then answer orders_primary_key
  else if bool_decide (sql = keys_sql "orders") then answer orders_keys
  else if bool_decide (sql = columns_sql "sessions") then answer sessions_columns
  else if bool_decide (sql = primary_key_sql "sessions") then answer sessions_primary_key
  else if bool_decide (sql = keys_sql "sessions") then answer sessions_keys
  else if bool_decide (sql = columns_sql "logs") then answer logs_columns
  else if bool_decide (sql = primary_key_sql "logs") then answer logs_primary_key
  else if bool_decide (sql = keys_sql "logs") then answer logs_keys
  else if bool_decide (sql = "SELECT id FROM orders") then
    answer (tuples_ok 1 [text ["5"]; text ["6"]; text ["9"]])
  else if bool_decide (sql = "SELECT nothing") then
    {| result := Some {| resultStatus := PGRES_FATAL_ERROR; nfields := 0; tuples := [] |};
       diagnostic := "ERROR:  column nothing does not exist" |}
  else if bool_decide (sql = "SELECT everything") then
    {| result := None; diagnostic := "out of memory" |}
  else answer {| resultStatus := PGRES_COMMAND_OK; nfields := 0; tuples := [] |}.

Definition connection : PGconn :=
  {| PostgreSQL.server := server; statements := [];
     errorMessage := EmptyString; open_results := 0 |}.

Definition client : PostgreSQLClient :=
  {| conn := connection; database := {| tables := [] |} |}.

Definition table_row (table : string) : PostgreSQLRow :=
  {| row_res := PostgreSQLRes_new
                  (Some {| resultStatus := PGRES_TUPLES_OK; nfields := 1;
                           tuples := [text [table]] |});
     _row_number := 0 |}.
End Pg.

(** The two tables of the sample database that have a row identity, as
    the schema model holds them. *)
Definition orders_table : Table :=
  {| name := "orders";
     columns := [ {| column_name := "id" |}; {| column_name := "customer_id" |};
                  {| column_name := "total" |} ];
     primary_key_columns := [0];
     keys := [] |}.

Definition sessions_table : Table :=
  {| name := "sessions";
     columns := [ {| column_name := "token" |}; {| column_name := "user_id" |};
                  {| column_name := "device_id" |} ];
     primary_key_columns := [1; 2];
     keys := [ {| key_name := "by_token"; unique := true; key_columns := [0] |};
               {| key_name := "by_user"; unique := true; key_columns := [1; 2] |} ] |}.

(** A callback that keeps the first cell of each row it is handed. *)
Definition collect_mysql (row : MySQL.MySQLRow) (seen : list string)
    : M MySQL.MySQLClient (list string) :=
  ret (seen ++ [MySQL.string_at row 0]).

Definition collect_pg (row : PostgreSQL.PostgreSQLRow) (seen : list string)
    : M PostgreSQL.PostgreSQLClient (list string) :=
  ret (seen ++ [PostgreSQL.string_at row 0]).

(** A MySQL connection on which a streaming result of three rows was
    started and one row fetched; [half_read_handle] is the handle. *)
Definition half_read : MySQL.MYSQL_RES * MySQL.MYSQL :=
  let my := (MySQL.mysql_real_query (My.connection 50700) "SELECT id FROM orders").2 in
  match MySQL.mysql_use_result my with
  | (Some res, my) =>
      let '(_, res, my) := MySQL.mysql_fetch_row res my in (res, my)
  | (None, my) =>
      ({| MySQL.res_fields := 0; MySQL.res_rows := []; MySQL.res_error := None;
          MySQL.res_streaming := true |}, my)
  end.

Definition on_connection (my : MySQL.MYSQL) : MySQL.MySQLClient :=
  {| MySQL.mysql := my; MySQL.database := {| tables := [] |} |}.

(** A callback that gives up at the row holding [stop]. *)
Definition collect_until (stop : string) (row : MySQL.MySQLRow) (seen : list string)
    : outcome (list string) :=
  if bool_decide (MySQL.string_at row 0 = stop)
  then Thrown ("stopped at " +:+ stop)
  else Returned (seen ++ [MySQL.string_at row 0]).

End Samples.

(** ** What the catalog queries report, engine by engine

    The two key listers read the same facts from differently shaped rows;
    [KeyRow] is a row of either, decoded. *)

Module Catalog.

Record KeyRow := {
  kr_primary : bool;
  kr_key : string;
  kr_unique : bool;
  kr_column : string;
  kr_nullable : bool
}.

(** [SHOW KEYS]: Non_unique is cell 1, Key_name cell 2, Column_name cell 4,
    Null cell 9; the primary key is the key named PRIMARY. *)
Definition mysql_key_row (row : MySQL.MySQLRow) : KeyRow :=
  {| kr_primary := bool_decide (MySQL.string_at row 2 = "PRIMARY");
     kr_key := MySQL.string_at row 2;
     kr_unique := bool_decide (MySQL.string_at row 1 = "0");
     kr_column := MySQL.string_at row 4;
     kr_nullable := bool_decide (MySQL.string_at row 9 = "YES") |}.

(** The index query of PostgreSQL: relname, indisunique, attname,
    attnotnull; it leaves the primary key's index out. *)
Definition pg_key_row (row : PostgreSQL.PostgreSQLRow) : KeyRow :=
  {| kr_primary := false;
     kr_key := PostgreSQL.string_at row 0;
     kr_unique := bool_decide (PostgreSQL.string_at row 1 = "t");
     kr_column := PostgreSQL.string_at row 2;
     kr_nullable := bool_decide (PostgreSQL.string_at row 3 = "f") |}.

(** The names of the keys reported unique together with a nullable column. *)
Definition unique_but_nullable (rows : list KeyRow) : gset string :=
  list_to_set (kr_key <$> filter (λ kr, kr_unique kr && kr_nullable kr) rows).

(** The rows a callback of a MySQL query is handed for a result set. *)
Definition mysql_rows (rs : MySQL.ResultSet) : list MySQL.MySQLRow :=
  (λ row, {| MySQL.n_columns := to_int (Z.of_nat (MySQL.rs_fields rs));
             MySQL._row := row |}) <$> MySQL.rs_rows rs.

(** The rows a callback of a PostgreSQL query is handed for a result. *)
Definition pg_rows (r : PostgreSQL.PGresult) : list PostgreSQL.PostgreSQLRow :=
  (λ row_number, {| PostgreSQL.row_res := PostgreSQL.PostgreSQLRes_new (Some r);
                    PostgreSQL._row_number := row_number |})
  <$> seq 0 (Z.to_nat (to_int (Z.of_nat (length (PostgreSQL.tuples r))))).

(** The reply to a PostgreSQL query that succeeded with the result [r]. *)
Definition pg_answers (c : PostgreSQL.PostgreSQLClient) (sql : string)
    (r : PostgreSQL.PGresult) : Prop :=
  PostgreSQL.result (PostgreSQL.server (PostgreSQL.conn c) sql) = Some r ∧
  PostgreSQL.resultStatus r = PostgreSQL.PGRES_TUPLES_OK.

(** The reply to a MySQL query that succeeded with the result set [rs]. *)
Definition mysql_answers (c : MySQL.MySQLClient) (sql : string)
    (rs : MySQL.ResultSet) : Prop :=
  MySQL.server (MySQL.mysql c) sql = MySQL.Accepted (Some rs) ∧
  MySQL.rs_error rs = None.

(** A MySQL connection once a query for the result set [rs] is over and
    its guard gone: the statement is on record, nothing is unread, no
    handle is left open, and the error is the one the transfer ended with. *)
Definition mysql_after (sql : string) (rs : MySQL.ResultSet) (my : MySQL.MYSQL)
    : MySQL.MYSQL :=
  {| MySQL.server := MySQL.server my;
     MySQL.server_version := MySQL.server_version my;
     MySQL.statements := MySQL.statements my ++ [sql];
     MySQL.last_error := MySQL.rs_error rs;
     MySQL.pending := None;
     MySQL.unread := [];
     MySQL.open_results := MySQL.open_results my |}.

(** A MySQL connection once a guard over a handle with the transfer error
    [error] is gone. *)
Definition mysql_drained (error : option string) (my : MySQL.MYSQL) : MySQL.MYSQL :=
  {| MySQL.server := MySQL.server my;
     MySQL.server_version := MySQL.server_version my;
     MySQL.statements := MySQL.statements my;
     MySQL.last_error :=
       match error with Some e => Some e | None => MySQL.last_error my end;
     MySQL.pending := MySQL.pending my;
     MySQL.unread := [];
     MySQL.open_results := pred (MySQL.open_results my) |}.

(** A PostgreSQL connection once a query that got a result is over. *)
Definition pg_after (sql : string) (conn : PostgreSQL.PGconn) : PostgreSQL.PGconn :=
  {| PostgreSQL.server := PostgreSQL.server conn;
     PostgreSQL.statements := PostgreSQL.statements conn ++ [sql];
     PostgreSQL.errorMessage :=
       PostgreSQL.diagnostic (PostgreSQL.server conn sql);
     PostgreSQL.open_results := PostgreSQL.open_results conn |}.

(** A key has its name and its uniqueness flag from a reported row. *)
Definition reported (rows : list KeyRow) (k : Key) : Prop :=
  ∃ kr, kr ∈ rows ∧ kr_primary kr = false ∧
        kr_key kr = key_name k ∧ kr_unique kr = unique k.

(** The table the column lister leaves for a table name and the rows of
    the column query. *)
Definition mysql_listed (row : MySQL.MySQLRow) (cols : MySQL.ResultSet) : Table :=
  set_columns
    (λ cs, cs ++ ((λ row, {| column_name := MySQL.string_at row 0 |})
                  <$> mysql_rows cols))
    (Table_new (MySQL.string_at row 0)).

Definition pg_listed (row : PostgreSQL.PostgreSQLRow) (cols : PostgreSQL.PGresult)
    : Table :=
  set_columns
    (λ cs, cs ++ ((λ row, {| column_name := PostgreSQL.string_at row 0 |})
                  <$> pg_rows cols))
    (Table_new (PostgreSQL.string_at row 0)).

(** The surrogate key of a table, given the names of the keys that are
    unique but nullable: the keys are in order of their names, the
    primary-key columns are those of a key that is unique and not among
    those names, and no key before it is such a key. *)
Definition has_surrogate (marked : gset string) (table : Table) : Prop :=
  Sorted key_le (keys table) ∧
  ∃ before key after,
    keys table = before ++ key :: after ∧
    Forall (λ k, unique k = false ∨ key_name k ∈ marked) before ∧
    unique key = true ∧ (key_name key ∉ marked) ∧
    primary_key_columns table = key_columns key.

Section step.
Context `{Decls}.

(** One call of a key lister on a decoded row. *)
Definition key_step (kr : KeyRow) (self : KeyLister) : outcome KeyLister :=
  let table := kl_table self in
  column_index ← index_of_column (columns table) (kr_column kr);
  if kr_primary kr then
    Returned
      {| kl_table := set_primary_key_columns (λ pk, pk ++ [column_index]) table;
         unique_but_nullable_keys := unique_but_nullable_keys self |}
  else
    let table :=
      match last (keys table) with
      | Some back =>
          if bool_decide (key_name back ≠ kr_key kr)
          then set_keys (λ ks, ks ++ [Key_new (kr_key kr) (kr_unique kr)]) table
          else table
      | None => set_keys (λ ks, ks ++ [Key_new (kr_key kr) (kr_unique kr)]) table
      end in
    let table := set_keys (alter_back (push_column column_index)) table in
    Returned
      {| kl_table := table;
         unique_but_nullable_keys :=
           match primary_key_columns table with
           | [] =>
               if kr_unique kr && kr_nullable kr
               then {[ kr_key kr ]} ∪ unique_but_nullable_keys self
               else unique_but_nullable_keys self
           | _ :: _ => unique_but_nullable_keys self
           end |}.

(** What both table listers do with the table once the key lister is
    through: sort the keys, run the surrogate-key loop. *)
Definition settled_table (key_lister : KeyLister) : Table :=
  let table := kl_table key_lister in
  let table := set_keys sort table in
  set_primary_key_columns
    (surrogate_key_loop (unique_but_nullable_keys key_lister) (keys table))
    table.

End step.

End Catalog.

(** ** More of the two clients: row retrieval and construction *)

Module Retrieval.

Definition ColumnValues := list string.

(** Modelled from the spec: [retrieve_rows_sql], in its two shapes, is
    declared outside the sources; the spec takes it as a pure function
    from the table and the key bounds to the text of the query. *)
Class SqlDecls := {
  retrieve_rows_sql_count : Table → ColumnValues → nat → string;
  retrieve_rows_sql_range : Table → ColumnValues → ColumnValues → string
}.

Section retrieval.
Context `{SqlDecls}.

(** [MySQLClient::retrieve_rows(table, prev_key, row_count, row_packer)] *)
Definition mysql_retrieve_rows_count {P} (table : Table) (prev_key : ColumnValues)
    (row_count : nat)
    (row_packer : MySQL.MySQLRow → P → M MySQL.MySQLClient P) (p : P)
    : M MySQL.MySQLClient P :=
  MySQL.query (retrieve_rows_sql_count table prev_key row_count) row_packer false p.

(** [MySQLClient::retrieve_rows(table, prev_key, last_key, row_packer)] *)
Definition mysql_retrieve_rows_range {P} (table : Table)
    (prev_key last_key : ColumnValues)
    (row_packer : MySQL.MySQLRow → P → M MySQL.MySQLClient P) (p : P)
    : M MySQL.MySQLClient P :=
  MySQL.query (retrieve_rows_sql_range table prev_key last_key) row_packer false p.

(** [PostgreSQLClient::retrieve_rows(table, prev_key, row_count, row_packer)] *)
Definition pg_retrieve_rows_count {P} (table : Table) (prev_key : ColumnValues)
    (row_count : nat)
    (row_packer : PostgreSQL.PostgreSQLRow → P → M PostgreSQL.PostgreSQLClient P)
    (p : P) : M PostgreSQL.PostgreSQLClient P :=
  PostgreSQL.query (retrieve_rows_sql_count table prev_key row_count) row_packer p.

(** [PostgreSQLClient::retrieve_rows(table, prev_key, last_key, row_packer)] *)
Definition pg_retrieve_rows_range {P} (table : Table)
    (prev_key last_key : ColumnValues)
    (row_packer : PostgreSQL.PostgreSQLRow → P → M PostgreSQL.PostgreSQLClient P)
    (p : P) : M PostgreSQL.PostgreSQLClient P :=
  PostgreSQL.query (retrieve_rows_sql_range table prev_key last_key) row_packer p.

End retrieval.

End Retrieval.

Module Construction.

(** What [mysql_real_connect] is handed. *)
Record MySQLTarget := {
  my_host : option string;
  my_user : option string;
  my_password : option string;
  my_database : option string;
  my_port : Z;
  my_socket : option string
}.

(** The network, as the constructors meet it: the connection the library
    comes back with, and whether it is up ([mysql_real_connect] returned
    the handle, [PQstatus] is [CONNECTION_OK]); when it is not, the
    connection holds the error message. *)
Class Network := {
  mysql_real_connect : MySQLTarget → MySQL.MYSQL * bool;
  PQconnectdbParams : list (string * option string) → PostgreSQL.PGconn * bool
}.

(** The end of a constructor body run on the object under construction:
    the object when the body returned, no object when it threw. *)
Definition constructed {C} (r : outcome unit * C) : outcome C :=
  match r with
  | (Returned _, c) => Returned c
  | (Thrown w, _) => Thrown w
  | (Undefined u, _) => Undefined u
  end.

Section constructors.
Context `{Decls} `{Network}.

(** [MySQLClient::MySQLClient(host, port, name, username, password,
    readonly, snapshot)]; [mysql_init] and [mysql_options] set up the
    handle [mysql_real_connect] fills.
    Modelled from the spec: the member [database] is of the base class
    [DatabaseClient], which database_client.h declares and the sources do
    not contain; the schema of a new client is empty. *)
Definition MySQLClient_new
    (database_host database_port database_name
     database_username database_password : option string)
    (readonly snapshot : bool) : outcome MySQL.MySQLClient :=
  '(port, socket) ← MySQL.port_and_socket database_port;
  let '(mysql, connected) :=
    mysql_real_connect
      {| my_host := database_host; my_user := database_username;
         my_password := database_password; my_database := database_name;
         my_port := port; my_socket := socket |} in
  if connected then
    constructed
      ((let* _ := MySQL.start_transaction readonly snapshot in
        MySQL.populate_database_schema)
         {| MySQL.mysql := mysql; MySQL.database := {| tables := [] |} |})
  else Thrown (MySQL.mysql_error mysql).

(** [PostgreSQLClient::PostgreSQLClient(host, port, name, username,
    password, readonly, snapshot)], with the member [database] as for
    MySQL. *)
Definition PostgreSQLClient_new
    (database_host database_port database_name
     database_username database_password : option string)
    (readonly snapshot : bool) : outcome PostgreSQL.PostgreSQLClient :=
  let '(conn, connected) :=
    PQconnectdbParams
      [ ("host", database_host); ("port", database_port);
        ("dbname", database_name); ("user", database_username);
        ("password", database_password) ] in
  if connected then
    constructed
      ((let* _ := PostgreSQL.start_transaction readonly snapshot in
        PostgreSQL.populate_database_schema)
         {| PostgreSQL.conn := conn; PostgreSQL.database := {| tables := [] |} |})
  else Thrown (PostgreSQL.PQerrorMessage conn).

End constructors.

End Construction.

(** ** Statements as C strings *)

Module Wire.

(** What a function of a C library reads of [s.c_str()]: the bytes
    before the first zero byte. *)
Fixpoint c_str (s : string) : string :=
  match s with
  | String c s' => if Ascii.eqb c NUL then EmptyString else String c (c_str s')
  | EmptyString => EmptyString
  end.

End Wire.

(** ** What the listers are measured against *)

Module Listing.

(** A callback that may use the client, applied to rows in order until
    one call does not return. *)
Fixpoint for_rows {R S H} (row_handler : R → H → M S H)
    (rows : list R) (h : H) : M S H := λ s,
  match rows with
  | [] => (Returned h, s)
  | row :: rows' =>
      match row_handler row h s with
      | (Returned h', s') => for_rows row_handler rows' h' s'
      | (Thrown w, s') => (Thrown w, s')
      | (Undefined u, s') => (Undefined u, s')
      end
  end.

(** Key rows with the column index looked up for each, grouped: a run of
    neighbouring rows with one key name makes one key, with the first
    row's uniqueness flag and the indices of the run in order. *)
Definition first_key (kr : Catalog.KeyRow) (i : nat) : Key :=
  {| key_name := Catalog.kr_key kr; unique := Catalog.kr_unique kr;
     key_columns := [i] |}.

Definition leading (entries : list (Catalog.KeyRow * nat)) : option string :=
  match entries with
  | (kr, _) :: _ => Some (Catalog.kr_key kr)
  | [] => None
  end.

Fixpoint grouped (entries : list (Catalog.KeyRow * nat)) : Keys :=
  match entries with
  | [] => []
  | (kr, i) :: rest =>
      match leading rest, grouped rest with
      | Some next, k :: ks =>
          if bool_decide (next = Catalog.kr_key kr)
          then {| key_name := Catalog.kr_key kr; unique := Catalog.kr_unique kr;
                  key_columns := i :: key_columns k |} :: ks
          else first_key kr i :: k :: ks
      | _, _ => [first_key kr i]
      end
  end.

(** The keys that follow when the rows [entries] come after rows that
    ended with the key [k]. *)
Definition attached (k : Key) (entries : list (Catalog.KeyRow * nat)) : Keys :=
  match leading entries, grouped entries with
  | Some next, g :: gs =>
      if bool_decide (next = key_name k)
      then {| key_name := key_name k; unique := unique k;
              key_columns := key_columns k ++ key_columns g |} :: gs
      else k :: g :: gs
  | _, _ => [k]
  end.

(** A table as a finished population holds it: it has a row identity,
    its keys are in order of their names, and every key has a column. *)
Definition well_formed (table : Table) : Prop :=
  primary_key_columns table ≠ [] ∧
  Sorted key_le (keys table) ∧
  Forall (λ k, key_columns k ≠ []) (keys table).

(** [Table::operator<] of schema.h: [name < other.name]. *)
Definition Table_lt (t other : Table) : bool := String.ltb (name t) (name other).

End Listing.

(** ** More sample data *)

Module Scenarios.

(** A MySQL server with a table [ghosts (id)] whose key query reports an
    index on a column the column query does not, and which refuses to
    set the isolation level. *)
Definition ghosts_columns : MySQL.ResultSet :=
  Samples.My.result_set 1 [Samples.text ["id"]].
Definition ghosts_keys : MySQL.ResultSet :=
  Samples.My.result_set 10
    [Samples.My.key_row "ghosts" "0" "PRIMARY" "1" "id" "";
     Samples.My.key_row "ghosts" "1" "by_owner" "1" "owner" "YES"].

Definition mysql_server (sql : string) : MySQL.Reply :=
  if bool_decide (sql = "SHOW COLUMNS FROM ghosts") then
    MySQL.Accepted (Some ghosts_columns)
  else if bool_decide (sql = "SHOW KEYS FROM ghosts") then
    MySQL.Accepted (Some ghosts_keys)
  else if bool_decide (sql = "SET TRANSACTION ISOLATION LEVEL REPEATABLE READ") then
    MySQL.Rejected "Access denied"
  else if bool_decide (sql = "START TRANSACTION READ ONLY") then
    MySQL.Rejected "You have an error in your SQL syntax"
  else Samples.My.server sql.

Definition mysql_client : MySQL.MySQLClient :=
  {| MySQL.mysql :=
       {| MySQL.server := mysql_server; MySQL.server_version := 50700;
          MySQL.statements := []; MySQL.last_error := None;
          MySQL.pending := None; MySQL.unread := []; MySQL.open_results := 0 |};
     MySQL.database := {| tables := [] |} |}.

(** A PostgreSQL server with the same table; its primary-key query
    reports the column the column query does not. *)
Definition pg_server (sql : string) : PostgreSQL.Reply :=
  if bool_decide (sql = PostgreSQL.columns_sql "ghosts") then
    Samples.Pg.answer (Samples.Pg.tuples_ok 1 [Samples.text ["id"]])
  else if bool_decide (sql = PostgreSQL.primary_key_sql "ghosts") then
    Samples.Pg.answer (Samples.Pg.tuples_ok 1 [Samples.text ["id"]; Samples.text ["owner"]])
  else if bool_decide (sql = PostgreSQL.keys_sql "ghosts") then
    Samples.Pg.answer (Samples.Pg.tuples_ok 4 [])
  else Samples.Pg.server sql.

Definition pg_client : PostgreSQL.PostgreSQLClient :=
  {| PostgreSQL.conn :=
       {| PostgreSQL.server := pg_server; PostgreSQL.statements := [];
          PostgreSQL.errorMessage := EmptyString; PostgreSQL.open_results := 0 |};
     PostgreSQL.database := {| tables := [] |} |}.

(** A network on which the host [db] runs the sample servers and no
    other host answers. *)
Definition unreachable : MySQL.MYSQL :=
  {| MySQL.server := λ _, MySQL.Rejected "MySQL server has gone away";
     MySQL.server_version := 0; MySQL.statements := [];
     MySQL.last_error := Some "Unknown MySQL server host";
     MySQL.pending := None; MySQL.unread := []; MySQL.open_results := 0 |}.

Definition pg_unreachable : PostgreSQL.PGconn :=
  {| PostgreSQL.server := λ _, {| PostgreSQL.result := None;
                                   PostgreSQL.diagnostic := "no connection to the server" |};
     PostgreSQL.statements := [];
     PostgreSQL.errorMessage := "could not translate host name to address";
     PostgreSQL.open_results := 0 |}.

Definition network : Construction.Network :=
  {| Construction.mysql_real_connect target :=
       if bool_decide (Construction.my_host target = Some "db")
       then (Samples.My.connection 50700, true)
       else (unreachable, false);
     Construction.PQconnectdbParams parameters :=
       if bool_decide (parameters !! 0 = Some ("host", Some "db"))
       then (Samples.Pg.connection, true)
       else (pg_unreachable, false) |}.

(** A generator of retrieval statements, for the tables of the sample
    database: all rows behind the previous key, up to a count or up to a
    last key. *)
Definition tuple_sql (values : Retrieval.ColumnValues) : string :=
  "(" +:+ String.concat ", " values +:+ ")".

Definition sql_decls : Retrieval.SqlDecls :=
  {| Retrieval.retrieve_rows_sql_count table prev_key row_count :=
       match prev_key with
       | [] => "SELECT id FROM " +:+ name table
       | _ => "SELECT id FROM " +:+ name table +:+ " WHERE id > " +:+ tuple_sql prev_key
       end;
     Retrieval.retrieve_rows_sql_range table prev_key last_key :=
       "SELECT id FROM " +:+ name table +:+ " WHERE id > " +:+ tuple_sql prev_key
         +:+ " AND id <= " +:+ tuple_sql last_key |}.

End Scenarios.

(** * Properties *)

(** ** Statements and their errors *)

Section statements.
Import MySQL.

Lemma mysql_real_query_rejected my sql diag :
  server my sql = Rejected diag →
  mysql_real_query my sql = (1%Z, sent sql my (Some diag) None []).
Proof. intros E. unfold mysql_real_query. by rewrite E. Qed.

Lemma mysql_real_query_accepted my sql rs :
  server my sql = Accepted (Some rs) →
  mysql_real_query my sql =
    (0%Z, sent sql my None (Some (rs_fields rs, rs_error rs)) (rs_rows rs)).
Proof. intros E. unfold mysql_real_query. by rewrite E. Qed.

Lemma mysql_real_query_no_result my sql :
  server my sql = Accepted None →
  mysql_real_query my sql = (0%Z, sent sql my None None []).
Proof. intros E. unfold mysql_real_query. by rewrite E. Qed.

Lemma mysql_execute_rejected c sql diag :
  server (mysql c) sql = Rejected diag →
  execute sql c =
    (Thrown (diag +:+ newline +:+ sql),
     set_mysql (sent sql (mysql c) (Some diag) None []) c).
Proof.
  intros E. unfold execute. by rewrite (mysql_real_query_rejected _ _ _ E).
Qed.

Lemma mysql_execute_returned c sql c' :
  execute sql c = (Returned (), c') →
  statements (mysql c') = statements (mysql c) ++ [sql] ∧
  server (mysql c') = server (mysql c) ∧
  server_version (mysql c') = server_version (mysql c) ∧
  database c' = database c.
Proof.
  unfold execute, mysql_real_query.
  destruct (server (mysql c) sql) as [diag|[rs|]]; simpl; by intros [= <-].
Qed.

Lemma mysql_query_rejected {H} c sql diag
    (row_handler : MySQLRow → H → M MySQLClient H) buffer h :
  server (mysql c) sql = Rejected diag →
  query sql row_handler buffer h c =
    (Thrown (diag +:+ newline +:+ sql),
     set_mysql (sent sql (mysql c) (Some diag) None []) c).
Proof.
  intros E. unfold query. by rewrite (mysql_real_query_rejected _ _ _ E).
Qed.

End statements.

Section pg_statements.
Import PostgreSQL.

Lemma pg_execute_outcome c sql :
  (execute sql c).1 =
    if bool_decide (status_of (conn c) sql = PGRES_COMMAND_OK)
    then Returned ()
    else Thrown (diagnostic (server (conn c) sql) +:+ newline +:+ sql).
Proof.
  unfold execute, status_of, PQexec, leave, status. simpl.
  repeat case_bool_decide; simpl; by try congruence.
Qed.

Lemma pg_execute_returned c sql c' :
  execute sql c = (Returned (), c') →
  statements (conn c') = statements (conn c) ++ [sql] ∧
  server (conn c') = server (conn c) ∧
  database c' = database c.
Proof.
  unfold execute, PQexec, leave, PostgreSQLRes_delete. simpl.
  case_bool_decide; simpl; intros E; simplify_eq; simpl.
  by destruct (result _).
Qed.

Lemma pg_query_not_tuples {H} c sql
    (row_handler : PostgreSQLRow → H → M PostgreSQLClient H) h :
  status_of (conn c) sql ≠ PGRES_TUPLES_OK →
  (query sql row_handler h c).1 =
    Thrown (diagnostic (server (conn c) sql) +:+ newline +:+ sql).
Proof.
  intros E. unfold query, status_of, PQexecParams, PQexec, leave, status in *.
  simpl. by rewrite bool_decide_true.
Qed.

(** With a result of status tuples-ok the rows are handed to the
    callback, one call for each row number, and the callback's own end is
    the end of [query]. *)
Lemma pg_query_tuples {H} c sql
    (row_handler : PostgreSQLRow → H → M PostgreSQLClient H) h r :
  result (server (conn c) sql) = Some r →
  resultStatus r = PGRES_TUPLES_OK →
  query sql row_handler h c =
    leave (PostgreSQLRes_new (Some r))
      (each_row row_handler (PostgreSQLRes_new (Some r))
         (seq 0 (Z.to_nat (to_int (Z.of_nat (length (tuples r)))))) h
         (set_conn (PQexec (conn c) sql).2 c)).
Proof.
  intros E S. unfold query, PQexecParams, PQexec, status. simpl.
  rewrite E. simpl. rewrite S. by case_bool_decide.
Qed.

Lemma each_row_returns {H} (row_handler : PostgreSQLRow → H → M PostgreSQLClient H)
    res row_numbers h c :
  (∀ row h c, ∃ h' c', row_handler row h c = (Returned h', c')) →
  ∃ h' c', each_row row_handler res row_numbers h c = (Returned h', c').
Proof.
  intros Hret. revert h c.
  induction row_numbers as [|n ns IH]; intros h c; simpl; [eauto|].
  destruct (Hret {| row_res := res; _row_number := n |} h c) as (h' & c' & ->).
  apply IH.
Qed.

End pg_statements.

(** C10: on PostgreSQL [execute] returns exactly when the result status is
    command-ok and throws the statement error for every other status,
    tuples-ok among them; [query] throws the statement error for every
    status other than tuples-ok, command-ok among them, and with tuples-ok
    it ends as its row callback ends: with a callback that always returns,
    [query] returns exactly when the status is tuples-ok. *)
Theorem pg_status_decides (c : PostgreSQL.PostgreSQLClient) (sql : string) :
  let status := PostgreSQL.status_of (PostgreSQL.conn c) sql in
  let error :=
    PostgreSQL.diagnostic (PostgreSQL.server (PostgreSQL.conn c) sql)
    +:+ newline +:+ sql in
  ((∃ c', PostgreSQL.execute sql c = (Returned (), c'))
   ↔ status = PostgreSQL.PGRES_COMMAND_OK) ∧
  (status ≠ PostgreSQL.PGRES_COMMAND_OK →
   (PostgreSQL.execute sql c).1 = Thrown error) ∧
  (∀ H (row_handler : PostgreSQL.PostgreSQLRow → H → M PostgreSQL.PostgreSQLClient H) h,
     (status ≠ PostgreSQL.PGRES_TUPLES_OK →
      (PostgreSQL.query sql row_handler h c).1 = Thrown error) ∧
     ((∀ row h c, ∃ h' c', row_handler row h c = (Returned h', c')) →
      ((∃ h' c', PostgreSQL.query sql row_handler h c = (Returned h', c'))
       ↔ status = PostgreSQL.PGRES_TUPLES_OK))).
Proof.
  intros status error. subst status error.
  pose proof (pg_execute_outcome c sql) as E.
  repeat split.
  - intros [c' Hc]. rewrite Hc in E. by case_bool_decide.
  - intros S. rewrite bool_decide_true in E by done.
    destruct (PostgreSQL.execute sql c) as [o c']. simpl in E. subst o. eauto.
  - intros S. by rewrite bool_decide_false in E.
  - intros S. by apply pg_query_not_tuples.
  - intros (h' & c' & Hq).
    destruct (decide (PostgreSQL.status_of (PostgreSQL.conn c) sql
                      = PostgreSQL.PGRES_TUPLES_OK)) as [|S]; [done|].
    apply (pg_query_not_tuples c sql row_handler h) in S.
    rewrite Hq in S. discriminate.
  - intros S. unfold PostgreSQL.status_of, PostgreSQL.PQresultStatus in S.
    destruct (PostgreSQL.result _) as [r|] eqn:R; [simpl in S|discriminate].
    rewrite (pg_query_tuples _ _ _ _ _ R S). unfold PostgreSQL.leave.
    edestruct (each_row_returns row_handler) as (h' & c' & ->); [done|].
    simpl. eauto.
Qed.

(** On the sample database. *)
Lemma pg_status_decides_witness :
  (PostgreSQL.execute "SELECT id FROM orders" Samples.Pg.client).1
  = Thrown (EmptyString +:+ newline +:+ "SELECT id FROM orders") ∧
  (PostgreSQL.query "COMMIT" Samples.collect_pg [] Samples.Pg.client).1
  = Thrown (EmptyString +:+ newline +:+ "COMMIT") ∧
  ∃ seen c', PostgreSQL.query "SELECT id FROM orders" Samples.collect_pg []
               Samples.Pg.client = (Returned seen, c').
Proof.
  pose proof (pg_status_decides Samples.Pg.client "SELECT id FROM orders")
    as (_ & He & Hq).
  pose proof (pg_status_decides Samples.Pg.client "COMMIT") as (_ & _ & Hc).
  split; [|split].
  - apply He. discriminate.
  - apply (Hc _ Samples.collect_pg []). discriminate.
  - apply (Hq _ Samples.collect_pg []); [|reflexivity].
    intros row h c. eexists _, _. reflexivity.
Defined.

(** C6: [start_transaction] asks for repeatable read when [snapshot] is
    set and for read committed otherwise; it starts a read-only
    transaction when [readonly] is set, on PostgreSQL always and on MySQL
    when the server version is at least 5.6.5, and a plain
    [START TRANSACTION] in every other case.  Stated on the statements a
    returning call has sent. *)
Theorem start_transaction_statements (readonly snapshot : bool) :
  (∀ c c' : MySQL.MySQLClient,
     MySQL.start_transaction readonly snapshot c = (Returned (), c') →
     MySQL.statements (MySQL.mysql c') =
       MySQL.statements (MySQL.mysql c) ++
       [ if snapshot
         then "SET TRANSACTION ISOLATION LEVEL REPEATABLE READ"
         else "SET TRANSACTION ISOLATION LEVEL READ COMMITTED";
         if bool_decide (readonly = true ∧
                         (50605 ≤ MySQL.server_version (MySQL.mysql c))%Z)
         then "START TRANSACTION READ ONLY"
         else "START TRANSACTION" ]) ∧
  (∀ c c' : PostgreSQL.PostgreSQLClient,
     PostgreSQL.start_transaction readonly snapshot c = (Returned (), c') →
     PostgreSQL.statements (PostgreSQL.conn c') =
       PostgreSQL.statements (PostgreSQL.conn c) ++
       [ "START TRANSACTION"
         +:+ (if readonly then " READ ONLY" else EmptyString)
         +:+ " ISOLATION LEVEL "
         +:+ (if snapshot then "REPEATABLE READ" else "READ COMMITTED") ]).
Proof.
  split.
  - intros c c'. unfold MySQL.start_transaction, bind, gets.
    destruct (MySQL.execute _ c) as [[[]|w|u] c1] eqn:E1; [|done..].
    apply mysql_execute_returned in E1 as (Hst & _ & Hver & _).
    unfold MySQL.mysql_get_server_version. rewrite Hver.
    intros E2. apply mysql_execute_returned in E2 as (Hst' & _).
    rewrite Hst', Hst, <- app_assoc. simpl. do 3 f_equal.
    unfold MySQL.MYSQL_5_6_5.
    destruct readonly; simpl; [|done].
    destruct (Z.leb_spec 50605 (MySQL.server_version (MySQL.mysql c)));
      [by rewrite bool_decide_true|].
    rewrite bool_decide_false; [done|]. intros [_ ?]. lia.
  - intros c c'. unfold PostgreSQL.start_transaction.
    destruct snapshot, readonly; intros E;
      by apply pg_execute_returned in E as (-> & _).
Qed.

(** On the sample database. *)
Lemma start_transaction_statements_witness :
  MySQL.statements (MySQL.mysql (MySQL.start_transaction true true
                                   (Samples.My.client 50604)).2)
  = [ "SET TRANSACTION ISOLATION LEVEL REPEATABLE READ"; "START TRANSACTION" ] ∧
  PostgreSQL.statements (PostgreSQL.conn (PostgreSQL.start_transaction true false
                                            Samples.Pg.client).2)
  = [ "START TRANSACTION READ ONLY ISOLATION LEVEL READ COMMITTED" ].
Proof.
  split.
  - exact (proj1 (start_transaction_statements true true)
             (Samples.My.client 50604) _ eq_refl).
  - exact (proj2 (start_transaction_statements true false)
             Samples.Pg.client _ eq_refl).
Defined.

(** ** Connection parameters and escaping *)

Section parameters.

Lemma digits_value_ge acc s : (0 ≤ acc → acc ≤ digits_value acc s)%Z.
Proof.
  revert acc. induction s as [|c s IH]; intros acc Hacc; simpl; [lia|].
  unfold is_digit. destruct (48 <=? nat_of_ascii c) eqn:Hlo; simpl; [|lia].
  destruct (nat_of_ascii c <=? 57); [|lia].
  apply Nat.leb_le in Hlo. etrans; [|apply IH]; lia.
Qed.

Lemma atoi_leading_digit c rest :
  is_digit c = true →
  (digits_value 0 (String c rest) ≤ INT_MAX)%Z →
  atoi (String c rest) = Returned (digits_value 0 (String c rest)).
Proof.
  intros Hd Hmax.
  assert (skip_space (String c rest) = String c rest) as Hskip.
  { simpl. destruct (is_space c) eqn:Hs; [|done].
    unfold is_digit, is_space in *.
    apply andb_true_iff in Hd as [?%Nat.leb_le ?%Nat.leb_le].
    apply orb_true_iff in Hs as [?%Nat.eqb_eq|[_ ?%Nat.leb_le]%andb_true_iff]; lia. }
  assert (c ≠ "-"%char ∧ c ≠ "+"%char) as [Hm Hp].
  { split; intros ->; discriminate. }
  pose proof (digits_value_ge 0 (String c rest) ltac:(lia)) as Hge.
  unfold atoi. rewrite Hskip.
  assert (match String c rest with
          | String "-"%char s' => (- digits_value 0 s')%Z
          | String "+"%char s' => digits_value 0 s'
          | s' => digits_value 0 s'
          end = digits_value 0 (String c rest)) as ->.
  { destruct c as [[] [] [] [] [] [] [] []]; done. }
  rewrite bool_decide_true; [done|]. unfold INT_MAX in *. lia.
Qed.






End parameters.

(** C8, as the code has it: the first character decides.  An absent or
    empty parameter gives port 0 and no socket; a parameter that starts
    with a decimal digit gives no socket and as port what [atoi] reads,
    the value of its leading digits (as long as [int] holds it); any
    other parameter is the socket, with port 0. *)
Theorem port_or_socket_by_first_character :
  MySQL.port_and_socket None = Returned (0%Z, None) ∧
  MySQL.port_and_socket (Some EmptyString) = Returned (0%Z, None) ∧
  ∀ (c : ascii) (rest : string),
    (is_digit c = false →
     MySQL.port_and_socket (Some (String c rest))
     = Returned (0%Z, Some (String c rest))) ∧
    (is_digit c = true →
     (digits_value 0 (String c rest) ≤ INT_MAX)%Z →
     MySQL.port_and_socket (Some (String c rest))
     = Returned (digits_value 0 (String c rest), None)).
Proof.
  repeat split.
  - intros Hd. unfold MySQL.port_and_socket. by rewrite Hd.
  - intros Hd Hmax. unfold MySQL.port_and_socket.
    by rewrite Hd, atoi_leading_digit.
Qed.

(** For a socket path and for a port number. *)
Lemma port_or_socket_by_first_character_witness :
  MySQL.port_and_socket (Some "/var/run/mysqld.sock")
  = Returned (0%Z, Some "/var/run/mysqld.sock") ∧
  MySQL.port_and_socket (Some "3306") = Returned (3306%Z, None).
Proof.
  split.
  - exact (proj1 (proj2 (proj2 port_or_socket_by_first_character)
                    "/"%char "var/run/mysqld.sock") eq_refl).
  - refine (proj2 (proj2 (proj2 port_or_socket_by_first_character)
                     "3"%char "306") eq_refl _).
    vm_compute. discriminate.
Defined.

(** C8 as stated fails: a parameter that is not numeric but starts with a
    digit is read as a port, not used as the socket. *)
Lemma digit_led_socket_name_read_as_port :
  numeric "3306x" = false ∧
  MySQL.port_and_socket (Some "3306x") = Returned (3306%Z, None) ∧
  ¬ (∀ s : string,
       s ≠ EmptyString → numeric s = false →
       ∃ port, MySQL.port_and_socket (Some s) = Returned (port, Some s)).
Proof.
  split; [reflexivity|]. split; [reflexivity|].
  intros Hall. destruct (Hall "3306x") as [port Hport]; done.
Qed.



(** ** Null result handles *)

Section null_handles.

Lemma mysql_query_without_result {H} c sql
    (row_handler : MySQL.MySQLRow → H → M MySQL.MySQLClient H) buffer h :
  MySQL.server (MySQL.mysql c) sql = MySQL.Accepted None →
  (MySQL.query sql row_handler buffer h c).1 = Undefined "mysql_num_rows".
Proof.
  intros E. unfold MySQL.query.
  rewrite (mysql_real_query_no_result _ _ E). simpl.
  unfold MySQL.MySQLRes_new. by destruct buffer.
Qed.

Lemma mysql_store_result_failed {H} c sql rs e
    (row_handler : MySQL.MySQLRow → H → M MySQL.MySQLClient H) h :
  MySQL.server (MySQL.mysql c) sql = MySQL.Accepted (Some rs) →
  MySQL.rs_error rs = Some e →
  (MySQL.query sql row_handler true h c).1 = Undefined "mysql_num_rows".
Proof.
  intros E Ee. unfold MySQL.query.
  rewrite (mysql_real_query_accepted _ _ _ E). simpl.
  unfold MySQL.MySQLRes_new, MySQL.mysql_store_result. simpl. by rewrite Ee.
Qed.

Lemma pg_null_result_thrown {H} c sql
    (row_handler : PostgreSQL.PostgreSQLRow → H → M PostgreSQL.PostgreSQLClient H) h :
  PostgreSQL.result (PostgreSQL.server (PostgreSQL.conn c) sql) = None →
  let error :=
    PostgreSQL.diagnostic (PostgreSQL.server (PostgreSQL.conn c) sql)
    +:+ newline +:+ sql in
  (PostgreSQL.execute sql c).1 = Thrown error ∧
  (PostgreSQL.query sql row_handler h c).1 = Thrown error.
Proof.
  intros E error. split.
  - rewrite pg_execute_outcome. unfold PostgreSQL.status_of. by rewrite E.
  - apply pg_query_not_tuples. unfold PostgreSQL.status_of. by rewrite E.
Qed.

End null_handles.

(** C9 on MySQL: when [mysql_store_result] gives no handle (here the
    transfer of the list of tables breaks), [populate_database_schema]
    does not throw: the constructor of the guard hands the null handle to
    [mysql_num_rows]. *)
Theorem mysql_null_result_handle_dereferenced :
  (@MySQL.populate_database_schema Instances.decls Samples.My.failing_client).1
  = Undefined "mysql_num_rows".
Proof.
  unfold MySQL.populate_database_schema.
  by eapply mysql_store_result_failed.
Qed.

(** ** The key listers and the surrogate key *)

Section key_listers.
Context `{decls : Decls}.
Import Catalog.

Lemma alter_back_snoc {A} (f : A → A) (v : list A) (x : A) :
  alter_back f (v ++ [x]) = v ++ [f x].
Proof.
  induction v as [|y v IH]; [done|].
  simpl. rewrite IH. by destruct v.
Qed.

Lemma run_rows_fmap {R R' St} (g : R → R') (f : R' → St → outcome St) rows s :
  run_rows (λ r, f (g r)) rows s = run_rows f (g <$> rows) s.
Proof.
  revert s. induction rows as [|r rows IH]; intros s; simpl; [done|].
  destruct (f (g r) s); auto.
Qed.

Lemma run_rows_ext {R St} (f f' : R → St → outcome St) rows s :
  (∀ r s, f r s = f' r s) → run_rows f rows s = run_rows f' rows s.
Proof.
  intros E. revert s. induction rows as [|r rows IH]; intros s; simpl; [done|].
  rewrite E. destruct (f' r s); auto.
Qed.

Lemma mysql_key_lister_step row self :
  MySQL.MySQLKeyLister_call row self = key_step (mysql_key_row row) self.
Proof. reflexivity. Qed.

Lemma pg_key_lister_step row self :
  PostgreSQL.PostgreSQLKeyLister_call row self = key_step (pg_key_row row) self.
Proof.
  unfold PostgreSQL.PostgreSQLKeyLister_call, key_step.
  by destruct (index_of_column _ _).
Qed.

(** The effect of one call that returns. *)
Lemma key_step_returned kr self self' :
  key_step kr self = Returned self' →
  ∃ i, index_of_column (columns (kl_table self)) (kr_column kr) = Returned i ∧
    name (kl_table self') = name (kl_table self) ∧
    columns (kl_table self') = columns (kl_table self) ∧
    if kr_primary kr then
      primary_key_columns (kl_table self')
      = primary_key_columns (kl_table self) ++ [i] ∧
      keys (kl_table self') = keys (kl_table self) ∧
      unique_but_nullable_keys self' = unique_but_nullable_keys self
    else
      primary_key_columns (kl_table self') = primary_key_columns (kl_table self) ∧
      (∃ front k,
         keys (kl_table self') = front ++ [push_column i k] ∧
         key_name k = kr_key kr ∧
         (keys (kl_table self) = front ∧ unique k = kr_unique kr ∨
          keys (kl_table self) = front ++ [k])) ∧
      unique_but_nullable_keys self' =
        match primary_key_columns (kl_table self) with
        | [] => if kr_unique kr && kr_nullable kr
                then {[ kr_key kr ]} ∪ unique_but_nullable_keys self
                else unique_but_nullable_keys self
        | _ :: _ => unique_but_nullable_keys self
        end.
Proof.
  unfold key_step.
  destruct (index_of_column _ _) as [i| |]; simpl; [|done..].
  intros E. exists i. split; [done|].
  destruct (kr_primary kr); simplify_eq; simpl; [done|].
  destruct (last (keys (kl_table self))) as [back|] eqn:L.
  - apply last_Some in L as [front L].
    case_bool_decide as N; simpl.
    + rewrite alter_back_snoc. repeat split; [].
      exists (keys (kl_table self)), (Key_new (kr_key kr) (kr_unique kr)).
      auto.
    + rewrite L, alter_back_snoc. repeat split; [].
      exists front, back. repeat split; [|by right].
      by destruct (decide (key_name back = kr_key kr)).
  - apply last_None in L. simpl. rewrite L. simpl. repeat split; [].
    exists [], (Key_new (kr_key kr) (kr_unique kr)). auto.
Qed.

(** A key lister run over rows does not touch name and columns. *)
Lemma key_run_columns rows self self' :
  run_rows key_step rows self = Returned self' →
  name (kl_table self') = name (kl_table self) ∧
  columns (kl_table self') = columns (kl_table self).
Proof.
  revert self. induction rows as [|kr rows IH]; intros self; simpl.
  { by intros [= ->]. }
  destruct (key_step kr self) as [self1| |] eqn:E; [|done..].
  apply key_step_returned in E as (i & _ & Hn & Hc & _).
  intros [-> ->]%IH. done.
Qed.

(** The primary-key columns grow by the indices looked up for the rows of
    the primary key, in the order of the rows. *)
Lemma key_run_primary rows self self' :
  run_rows key_step rows self = Returned self' →
  ∃ indices,
    primary_key_columns (kl_table self')
    = primary_key_columns (kl_table self) ++ indices ∧
    Forall2 (λ kr i, index_of_column (columns (kl_table self)) (kr_column kr)
                     = Returned i)
            (filter (λ kr, kr_primary kr) rows) indices.
Proof.
  revert self. induction rows as [|kr rows IH]; intros self; simpl.
  { intros [= ->]. exists []. by rewrite app_nil_r. }
  destruct (key_step kr self) as [self1| |] eqn:E; [|done..].
  apply key_step_returned in E as (i & Hi & _ & Hc & E).
  intros (indices & Hpk & Hall)%IH. rewrite Hc in Hall.
  rewrite filter_cons. destruct (kr_primary kr) eqn:P.
  - destruct E as (Hpk1 & _). rewrite decide_True by done.
    exists (i :: indices). rewrite Hpk, Hpk1, <- app_assoc. split; [done|].
    by constructor.
  - destruct E as (Hpk1 & _). rewrite decide_False by (simpl; tauto).
    exists indices. by rewrite Hpk, Hpk1.
Qed.

(** Every key the lister holds has at least one column. *)
Lemma key_run_columns_pushed rows self self' :
  Forall (λ k, key_columns k ≠ []) (keys (kl_table self)) →
  run_rows key_step rows self = Returned self' →
  Forall (λ k, key_columns k ≠ []) (keys (kl_table self')).
Proof.
  revert self. induction rows as [|kr rows IH]; intros self Hne; simpl.
  { by intros [= <-]. }
  destruct (key_step kr self) as [self1| |] eqn:E; [|done..].
  apply IH. apply key_step_returned in E as (i & _ & _ & _ & E).
  destruct (kr_primary kr).
  - destruct E as (_ & -> & _). done.
  - destruct E as (_ & (front & k & -> & _ & Hk) & _).
    apply Forall_app. split.
    + destruct Hk as [[<- _]|Hk]; [done|].
      rewrite Hk in Hne. by apply Forall_app in Hne as [? _].
    + apply Forall_singleton. simpl. by intros [_ ?]%app_eq_nil.
Qed.

Lemma reported_mono rows rows' k :
  rows ⊆ rows' → reported rows k → reported rows' k.
Proof. intros Hsub (kr & Hin & ?). exists kr. split; [by apply Hsub|done]. Qed.

Lemma key_run_reported seen rows self self' :
  Forall (reported seen) (keys (kl_table self)) →
  run_rows key_step rows self = Returned self' →
  Forall (reported (seen ++ rows)) (keys (kl_table self')).
Proof.
  revert seen self. induction rows as [|kr rows IH]; intros seen self Hrep; simpl.
  { intros [= <-]. by rewrite app_nil_r. }
  destruct (key_step kr self) as [self1| |] eqn:E; [|done..].
  intros Hrun. replace (seen ++ kr :: rows) with ((seen ++ [kr]) ++ rows)
    by by rewrite <- app_assoc.
  apply (IH _ self1); [|done].
  apply key_step_returned in E as (i & _ & _ & _ & E).
  destruct (kr_primary kr) eqn:P.
  - destruct E as (_ & -> & _).
    eapply Forall_impl; [done|]. intros k. apply reported_mono. set_solver.
  - destruct E as (_ & (front & k & -> & Hname & Hk) & _).
    assert (Forall (reported (seen ++ [kr])) front) as Hfront.
    { destruct Hk as [[<- _]|Hk].
      - eapply Forall_impl; [done|]. intros k'. apply reported_mono. set_solver.
      - rewrite Hk in Hrep. apply Forall_app in Hrep as [Hrep _].
        eapply Forall_impl; [done|]. intros k'. apply reported_mono. set_solver. }
    apply Forall_app. split; [done|]. apply Forall_singleton.
    destruct Hk as [[_ Hu]|Hk].
    + exists kr. simpl. set_solver.
    + rewrite Hk in Hrep. apply Forall_app in Hrep as [_ Hrep].
      apply Forall_singleton in Hrep as (kr' & ? & ? & ? & ?).
      exists kr'. simpl. set_solver.
Qed.

(** Without rows of a primary key and without primary-key columns to
    start with, the lister records exactly the names of the keys reported
    unique with a nullable column. *)
Lemma key_run_marked rows self self' :
  Forall (λ kr, kr_primary kr = false) rows →
  primary_key_columns (kl_table self) = [] →
  run_rows key_step rows self = Returned self' →
  primary_key_columns (kl_table self') = [] ∧
  unique_but_nullable_keys self'
  = unique_but_nullable rows ∪ unique_but_nullable_keys self.
Proof.
  revert self. induction rows as [|kr rows IH]; intros self Hnp Hpk; simpl.
  { intros [= <-]. split; [done|]. unfold unique_but_nullable. set_solver. }
  apply Forall_cons in Hnp as [P Hnp].
  destruct (key_step kr self) as [self1| |] eqn:E; [|done..].
  apply key_step_returned in E as (i & _ & _ & _ & E).
  rewrite P, Hpk in E. destruct E as (Hpk1 & _ & Hset).
  intros (Hpk' & ->)%IH; [|done|congruence]. split; [done|].
  rewrite Hset. unfold unique_but_nullable. rewrite filter_cons.
  destruct (kr_unique kr && kr_nullable kr) eqn:B.
  - rewrite decide_True by (simpl; tauto). set_solver.
  - rewrite decide_False by (simpl; tauto). done.
Qed.

(** *** The surrogate-key loop *)

Lemma surrogate_key_loop_kept marked keys pk :
  pk ≠ [] → surrogate_key_loop marked keys pk = pk.
Proof. by destruct keys, pk. Qed.

(** From no primary-key columns, over keys that all have columns, the
    loop ends with the columns of the first usable key, or with none when
    no key is usable. *)
Lemma surrogate_key_loop_first marked keys :
  Forall (λ k, key_columns k ≠ []) keys →
  (∃ before key after,
     keys = before ++ key :: after ∧
     Forall (λ k, usable marked k = false) before ∧
     usable marked key = true ∧
     surrogate_key_loop marked keys [] = key_columns key) ∨
  (Forall (λ k, usable marked k = false) keys ∧
   surrogate_key_loop marked keys [] = []).
Proof.
  induction keys as [|k keys IH]; intros Hne; simpl; [by right|].
  apply Forall_cons in Hne as [Hk Hne].
  destruct (usable marked k) eqn:U.
  - left. exists [], k, keys. rewrite surrogate_key_loop_kept by done. auto.
  - destruct (IH Hne) as [(before & key & after & -> & Hb & Hu & Hl)|[Hall Hl]].
    + left. exists (k :: before), key, after. auto.
    + right. auto.
Qed.

End key_listers.

(** ** Queries whose callback leaves the client alone *)

Section lifted_queries.
Import Catalog.

Lemma pg_each_row_lift {St} (f : PostgreSQL.PostgreSQLRow → St → outcome St)
    res row_numbers s c :
  PostgreSQL.each_row (λ r s, lift (f r s)) res row_numbers s c =
    (run_rows f
       ((λ n, {| PostgreSQL.row_res := res; PostgreSQL._row_number := n |})
          <$> row_numbers) s, c).
Proof.
  revert s. induction row_numbers as [|n ns IH]; intros s; simpl; [done|].
  unfold lift at 1. destruct (f _ s); auto.
Qed.

Lemma pg_query_lift {St} (f : PostgreSQL.PostgreSQLRow → St → outcome St) sql s c r :
  pg_answers c sql r →
  PostgreSQL.query sql (λ r s, lift (f r s)) s c =
    (run_rows f (pg_rows r) s,
     PostgreSQL.set_conn (pg_after sql (PostgreSQL.conn c)) c).
Proof.
  intros [E Hst]. rewrite (pg_query_tuples _ _ _ _ _ E Hst).
  rewrite pg_each_row_lift. unfold PostgreSQL.leave, PostgreSQL.PQexec. simpl.
  by rewrite E.
Qed.

Import MySQL.

(** The bound on the rounds of the two fetch loops is never what ends
    them: with more rounds they do the same. *)
Lemma discard_rows_rounds n res my :
  length (res_rows res) < n →
  discard_rows n res my = discard_rows (S n) res my.
Proof.
  revert res my. induction n as [|n IH]; intros res my Hn; [lia|].
  change (discard_rows (S (S n)) res my) with
    (match mysql_fetch_row res my with
     | (Some _, res', my') => discard_rows (S n) res' my'
     | (None, res', my') => (res', my')
     end).
  cbn [discard_rows]. unfold mysql_fetch_row.
  destruct (res_rows res) as [|row rows] eqn:R; [done|].
  apply IH. simpl in *. lia.
Qed.

Lemma fetch_rows_rounds {St} (row_handler : MySQLRow → St → M MySQLClient St)
    n res s c :
  rows_left res < n →
  fetch_rows n row_handler res s c = fetch_rows (S n) row_handler res s c.
Proof.
  revert res s c. induction n as [|n IH]; intros res s c Hn; [lia|].
  change (fetch_rows (S (S n)) row_handler res s c) with
    (match _res res with
     | None => (Undefined "mysql_fetch_row", res, c)
     | Some r =>
         let '(mysql_row, r, my) := mysql_fetch_row r (mysql c) in
         let res := set_res (Some r) res in
         let c := set_mysql my c in
         match mysql_row with
         | None => (Returned s, res, c)
         | Some mysql_row =>
             match row_handler (MySQLRow_new res mysql_row) s c with
             | (Returned s', c') => fetch_rows (S n) row_handler res s' c'
             | (Thrown w, c') => (Thrown w, res, c')
             | (Undefined u, c') => (Undefined u, res, c')
             end
         end
     end).
  cbn [fetch_rows]. unfold rows_left in Hn.
  destruct (_res res) as [r|]; [|done]. unfold mysql_fetch_row.
  destruct (res_rows r) as [|row rows] eqn:R; [done|]. cbv zeta.
  destruct (row_handler _ s _) as [[s'|w|u] c']; [|done..].
  simpl in Hn. rewrite R in Hn. apply IH. unfold rows_left. simpl in *. lia.
Qed.

Lemma discard_rows_streaming rows r my n :
  res_rows r = rows → res_streaming r = true → unread my = rows →
  length rows < n →
  mysql_free_result (discard_rows n r my).1 (discard_rows n r my).2
  = mysql_drained (res_error r) my.
Proof.
  revert r my n. induction rows as [|row rows IH]; intros r my [|n] Hr Hs Hu Hn;
    try (simpl in Hn; lia); simpl; unfold mysql_fetch_row; rewrite Hr.
  - unfold mysql_free_result, mysql_drained. rewrite <- Hu.
    by destruct (res_error r), my.
  - rewrite Hs, Hu. simpl.
    rewrite (IH (set_res_rows rows r) (set_unread rows my) n);
      [done..|simpl in Hn; lia].
Qed.

(** The destructor of a guard over a streaming handle that is level with
    the connection. *)
Lemma MySQLRes_delete_streaming res r my :
  _res res = Some r → res_streaming r = true → unread my = res_rows r →
  MySQLRes_delete res my = mysql_drained (res_error r) my.
Proof.
  intros Hres Hs Hu. unfold MySQLRes_delete. rewrite Hres.
  pose proof (discard_rows_streaming (res_rows r) r my
                (S (length (res_rows r))) eq_refl Hs Hu ltac:(lia)) as D.
  by destruct (discard_rows _ _ _).
Qed.

Lemma fetch_rows_lift {St} (f : MySQLRow → St → outcome St) rows :
  ∀ r res s c n,
    _res res = Some r → res_rows r = rows → res_streaming r = true →
    unread (mysql c) = rows → length rows < n →
    ∃ res' my',
      fetch_rows n (λ row s, lift (f row s)) res s c
      = (run_rows f (MySQLRow_new res <$> rows) s, res', set_mysql my' c) ∧
      MySQLRes_delete res' my' = mysql_drained (res_error r) (mysql c) ∧
      (∀ s', run_rows f (MySQLRow_new res <$> rows) s = Returned s' →
             last_error my' =
               match res_error r with
               | Some e => Some e
               | None => last_error (mysql c)
               end).
Proof.
  induction rows as [|row rows IH]; intros r res s c [|n] Hres Hr Hs Hu Hn;
    try (simpl in Hn; lia); simpl; rewrite Hres; unfold mysql_fetch_row;
    rewrite Hr.
  - eexists _, _. split; [done|]. split.
    + rewrite (MySQLRes_delete_streaming _ r); [|done|done|].
      * unfold mysql_drained. by destruct (res_error r).
      * rewrite Hr. by destruct (res_error r).
    + intros _ _. by destruct (res_error r).
  - rewrite Hs, Hu. simpl. unfold lift at 1.
    set (r1 := set_res_rows rows r). set (res1 := set_res (Some r1) res).
    set (c1 := set_mysql (set_unread rows (mysql c)) c).
    destruct (f (MySQLRow_new res1 row) s) as [s1|w|u] eqn:F;
      change (MySQLRow_new res row) with (MySQLRow_new res1 row); rewrite F.
    + destruct (IH r1 res1 s1 c1 n) as (res' & my' & E & Hd & He);
        [done..|simpl in Hn; lia|].
      exists res', my'. split; [exact E|]. split; [exact Hd|exact He].
    + exists res1, (set_unread rows (mysql c)). split; [done|]. split; [|done].
      by rewrite (MySQLRes_delete_streaming res1 r1).
    + exists res1, (set_unread rows (mysql c)). split; [done|]. split; [|done].
      by rewrite (MySQLRes_delete_streaming res1 r1).
Qed.

Local Arguments fetch_rows : simpl never.
Local Arguments MySQLRes_delete : simpl never.

(** A streaming query on a connection with nothing unread, with a
    callback that leaves the client alone: the callback sees the rows of
    the result set in order; the query ends as the callback ends, or with
    the transfer error when the callback got through; and on every way out
    the connection is left with nothing unread and no handle open. *)
Lemma mysql_query_lift {St} (f : MySQLRow → St → outcome St) sql s c rs :
  unread (mysql c) = [] →
  server (mysql c) sql = Accepted (Some rs) →
  query sql (λ row s, lift (f row s)) false s c =
    (s' ← run_rows f (mysql_rows rs) s;
     match rs_error rs with
     | Some e => Thrown (e +:+ newline +:+ sql)
     | None => Returned s'
     end,
     set_mysql (mysql_after sql rs (mysql c)) c).
Proof.
  intros Hu E. unfold query. rewrite (mysql_real_query_accepted _ _ _ E).
  rewrite bool_decide_false by (intros N; by apply N).
  unfold MySQLRes_new, mysql_use_result, sent. simpl. rewrite Hu. simpl.
  set (r := {| res_fields := _ |}). set (res := {| _res := _ |}).
  set (c1 := set_mysql _ c).
  change (rows_left res) with (length (rs_rows rs)).
  destruct (fetch_rows_lift f (rs_rows rs) r res s c1 (S (length (rs_rows rs))))
    as (res' & my' & -> & Hd & He); [done..|lia|].
  change (MySQLRow_new res <$> rs_rows rs) with (mysql_rows rs).
  simpl. rewrite Hd. unfold mysql_drained, mysql_after. simpl.
  destruct (run_rows f (mysql_rows rs) s) as [s'|w|u] eqn:R; simpl.
  - unfold mysql_errno, statement_error, mysql_error. rewrite (He s' R).
    simpl. by destruct (rs_error rs).
  - by destruct (rs_error rs).
  - by destruct (rs_error rs).
Qed.

End lifted_queries.

(** What the drain is for: a handle freed with rows unread leaves them on
    the connection, and the next query hands them to its callback ahead of
    its own rows; the guard's destructor leaves none. *)
Example unread_rows_reappear :
  let '(res, my) := Samples.half_read in
  (MySQL.query "SELECT line FROM logs" Samples.collect_mysql false []
     (Samples.on_connection (MySQL.mysql_free_result res my))).1
  = Returned ["6"; "9"; "started"] ∧
  (MySQL.query "SELECT line FROM logs" Samples.collect_mysql false []
     (Samples.on_connection
        (MySQL.MySQLRes_delete
           {| MySQL._res := Some res; MySQL._n_tuples := 0; MySQL._n_columns := 1 |}
           my))).1
  = Returned ["started"].
Proof. split; reflexivity. Qed.

(** C5: the destructor of a MySQL guard over a streaming handle with rows
    still unread fetches them all before it frees the handle: nothing is
    left unread on the connection and the handle is released.  So a
    streaming query that starts with nothing unread ends with nothing
    unread and no handle open, whether its callback got through the rows
    or threw at some row, and the next query hands its callback exactly
    the rows of its own result set. *)
Theorem mysql_guard_drains :
  (∀ (res : MySQL.MySQLRes) (r : MySQL.MYSQL_RES) (my : MySQL.MYSQL),
     MySQL._res res = Some r →
     MySQL.res_streaming r = true →
     MySQL.unread my = MySQL.res_rows r →
     MySQL.unread (MySQL.MySQLRes_delete res my) = [] ∧
     MySQL.open_results (MySQL.MySQLRes_delete res my)
     = pred (MySQL.open_results my)) ∧
  (∀ St (f : MySQL.MySQLRow → St → outcome St) sql s
     (c : MySQL.MySQLClient) rs,
     MySQL.unread (MySQL.mysql c) = [] →
     MySQL.server (MySQL.mysql c) sql = MySQL.Accepted (Some rs) →
     let c' := (MySQL.query sql (λ row s, lift (f row s)) false s c).2 in
     MySQL.unread (MySQL.mysql c') = [] ∧
     MySQL.open_results (MySQL.mysql c') = MySQL.open_results (MySQL.mysql c) ∧
     ∀ St' (f' : MySQL.MySQLRow → St' → outcome St') sql' s' rs',
       MySQL.server (MySQL.mysql c) sql' = MySQL.Accepted (Some rs') →
       MySQL.rs_error rs' = None →
       (MySQL.query sql' (λ row s, lift (f' row s)) false s' c').1
       = run_rows f' (Catalog.mysql_rows rs') s').
Proof.
  split.
  - intros res r my Hres Hs Hu.
    by rewrite (MySQLRes_delete_streaming res r my).
  - intros St f sql s c rs Hu E c'. subst c'.
    rewrite (mysql_query_lift f sql s c rs Hu E). simpl.
    repeat split. intros St' f' sql' s' rs' E' He'.
    rewrite (mysql_query_lift f' sql' s' _ rs'); [|done..]. simpl.
    rewrite He'. by destruct (run_rows f' _ s').
Qed.

(** On the sample database. *)
Lemma mysql_guard_drains_witness :
  (MySQL.query "SELECT id FROM orders"
     (λ row s, lift (Samples.collect_until "6" row s)) false []
     (Samples.My.client 50700)).1 = Thrown "stopped at 6" ∧
  (MySQL.query "SELECT line FROM logs"
     (λ row s, lift (Returned (s ++ [MySQL.string_at row 0]))) false []
     (MySQL.query "SELECT id FROM orders"
        (λ row s, lift (Samples.collect_until "6" row s)) false []
        (Samples.My.client 50700)).2).1 = Returned ["started"].
Proof.
  split; [reflexivity|].
  etrans.
  - refine (proj2 (proj2 (proj2 mysql_guard_drains _ (Samples.collect_until "6")
                            "SELECT id FROM orders" [] (Samples.My.client 50700)
                            _ eq_refl eq_refl))
              _ (λ row s, Returned (s ++ [MySQL.string_at row 0]))
              "SELECT line FROM logs" [] _ eq_refl eq_refl).
  - reflexivity.
Defined.

(** C4: a statement the engine rejects makes [execute] and [query], on
    both engines, throw an error whose text is the engine's diagnostic
    message, one newline character, and the whole statement.  On MySQL the
    rejection is [mysql_real_query]'s, with [mysql_error] as diagnostic, or
    it comes while the rows are transferred and is found by the check
    after the fetch loop; on PostgreSQL it is a result with an error
    status, with [PQerrorMessage] as diagnostic. *)
Theorem statement_failure_text :
  (∀ (c : MySQL.MySQLClient) (sql diag : string),
     MySQL.server (MySQL.mysql c) sql = MySQL.Rejected diag →
     (MySQL.execute sql c).1 = Thrown (diag +:+ newline +:+ sql) ∧
     ∀ H (row_handler : MySQL.MySQLRow → H → M MySQL.MySQLClient H) buffer h,
       (MySQL.query sql row_handler buffer h c).1
       = Thrown (diag +:+ newline +:+ sql)) ∧
  (∀ St (f : MySQL.MySQLRow → St → outcome St) (c : MySQL.MySQLClient)
     (sql diag : string) rs s s',
     MySQL.unread (MySQL.mysql c) = [] →
     MySQL.server (MySQL.mysql c) sql = MySQL.Accepted (Some rs) →
     MySQL.rs_error rs = Some diag →
     run_rows f (Catalog.mysql_rows rs) s = Returned s' →
     (MySQL.query sql (λ row s, lift (f row s)) false s c).1
     = Thrown (diag +:+ newline +:+ sql)) ∧
  (∀ (c : PostgreSQL.PostgreSQLClient) (sql : string),
     PostgreSQL.is_error (PostgreSQL.status_of (PostgreSQL.conn c) sql) = true →
     let diag := PostgreSQL.diagnostic (PostgreSQL.server (PostgreSQL.conn c) sql) in
     (PostgreSQL.execute sql c).1 = Thrown (diag +:+ newline +:+ sql) ∧
     ∀ H (row_handler : PostgreSQL.PostgreSQLRow → H → M PostgreSQL.PostgreSQLClient H) h,
       (PostgreSQL.query sql row_handler h c).1
       = Thrown (diag +:+ newline +:+ sql)).
Proof.
  split; [|split].
  - intros c sql diag E. split.
    + by rewrite (mysql_execute_rejected _ _ _ E).
    + intros. by rewrite (mysql_query_rejected _ _ _ _ _ _ E).
  - intros St f c sql diag rs s s' Hu E He R.
    rewrite (mysql_query_lift f sql s c rs Hu E). simpl. by rewrite R, He.
  - intros c sql E diag. split.
    + rewrite pg_execute_outcome. case_bool_decide as S; [|done].
      rewrite S in E. discriminate.
    + intros. apply pg_query_not_tuples. intros S. rewrite S in E. discriminate.
Qed.

(** On the sample database. *)
Lemma statement_failure_text_witness :
  (MySQL.execute "SELECT nothing" (Samples.My.client 50700)).1
  = Thrown ("Unknown column 'nothing' in 'field list'" +:+ newline +:+ "SELECT nothing") ∧
  (MySQL.query Samples.My.tables_sql
     (λ row s, lift (Returned (s ++ [MySQL.string_at row 0]))) false []
     Samples.My.failing_client).1
  = Thrown ("Lost connection to MySQL server during query" +:+ newline
            +:+ Samples.My.tables_sql) ∧
  (PostgreSQL.query "SELECT nothing" Samples.collect_pg [] Samples.Pg.client).1
  = Thrown ("ERROR:  column nothing does not exist" +:+ newline +:+ "SELECT nothing").
Proof.
  split; [|split].
  - exact (proj1 (proj1 statement_failure_text (Samples.My.client 50700)
                    "SELECT nothing" _ eq_refl)).
  - exact (proj1 (proj2 statement_failure_text) _
             (λ row s, Returned (s ++ [MySQL.string_at row 0]))
             Samples.My.failing_client Samples.My.tables_sql _ _ [] _
             eq_refl eq_refl eq_refl eq_refl).
  - exact (proj2 (proj2 (proj2 statement_failure_text) Samples.Pg.client
                    "SELECT nothing" eq_refl) _ Samples.collect_pg []).
Defined.

(** ** The table listers *)

Section table_listers.
Context `{decls : Decls}.
Import Catalog.

Local Arguments PostgreSQL.columns_sql : simpl never.
Local Arguments PostgreSQL.primary_key_sql : simpl never.
Local Arguments PostgreSQL.keys_sql : simpl never.
Local Arguments PostgreSQL.query : simpl never.
Local Arguments MySQL.query : simpl never.

Lemma mysql_column_lister_run rows table :
  run_rows MySQL.MySQLColumnLister_call rows table =
    Returned (set_columns
                (λ cs, cs ++ ((λ row, {| column_name := MySQL.string_at row 0 |})
                              <$> rows)) table).
Proof.
  revert table. induction rows as [|row rows IH]; intros table; simpl.
  - unfold set_columns. rewrite app_nil_r. by destruct table.
  - rewrite IH. unfold set_columns. simpl. by rewrite <- app_assoc.
Qed.

Lemma pg_column_lister_run rows table :
  run_rows PostgreSQL.PostgreSQLColumnLister_call rows table =
    Returned (set_columns
                (λ cs, cs ++ ((λ row, {| column_name := PostgreSQL.string_at row 0 |})
                              <$> rows)) table).
Proof.
  revert table. induction rows as [|row rows IH]; intros table; simpl.
  - unfold set_columns. rewrite app_nil_r. by destruct table.
  - rewrite IH. unfold set_columns. simpl. by rewrite <- app_assoc.
Qed.

(** The primary-key lister of PostgreSQL pushes, row by row, the index
    looked up for the reported column, and touches nothing else. *)
Lemma pg_primary_key_lister_run rows table table' :
  run_rows PostgreSQL.PostgreSQLPrimaryKeyLister_call rows table = Returned table' →
  name table' = name table ∧ columns table' = columns table ∧
  keys table' = keys table ∧
  ∃ indices,
    primary_key_columns table' = primary_key_columns table ++ indices ∧
    Forall2 (λ row i, index_of_column (columns table) (PostgreSQL.string_at row 0)
                      = Returned i) rows indices.
Proof.
  revert table. induction rows as [|row rows IH]; intros table; simpl.
  { intros [= <-]. repeat split. exists []. by rewrite app_nil_r. }
  unfold PostgreSQL.PostgreSQLPrimaryKeyLister_call at 1.
  destruct (index_of_column _ _) as [i| |] eqn:I; simpl; [|done..].
  intros (Hn & Hc & Hk & indices & Hpk & Hall)%IH. simpl in *.
  repeat split; [done..|]. exists (i :: indices).
  rewrite Hpk, <- app_assoc. split; [done|]. by constructor.
Qed.

(** One call of the MySQL table lister, on a connection with nothing
    unread, when both catalog queries are answered. *)
Lemma mysql_table_lister_run c row cols ks :
  MySQL.unread (MySQL.mysql c) = [] →
  mysql_answers c ("SHOW COLUMNS FROM " +:+ MySQL.string_at row 0) cols →
  mysql_answers c ("SHOW KEYS FROM " +:+ MySQL.string_at row 0) ks →
  let c2 :=
    MySQL.set_mysql
      (mysql_after ("SHOW KEYS FROM " +:+ MySQL.string_at row 0) ks
         (mysql_after ("SHOW COLUMNS FROM " +:+ MySQL.string_at row 0) cols
            (MySQL.mysql c))) c in
  MySQL.MySQLTableLister_call row c =
    match run_rows key_step (mysql_key_row <$> mysql_rows ks)
            (MySQL.MySQLKeyLister_new (mysql_listed row cols)) with
    | Returned key_lister =>
        match primary_key_columns (settled_table key_lister) with
        | [] => (Thrown (no_key_message (name (settled_table key_lister))), c2)
        | _ :: _ => (Returned (), MySQL.push_table (settled_table key_lister) c2)
        end
    | Thrown w => (Thrown w, c2)
    | Undefined u => (Undefined u, c2)
    end.
Proof.
  intros Hu [Ec Hc] [Ek Hk] c2. unfold MySQL.MySQLTableLister_call, bind.
  simpl. rewrite (mysql_query_lift _ _ _ _ _ Hu Ec), Hc.
  rewrite mysql_column_lister_run. simpl.
  rewrite (mysql_query_lift _ _ _ _ ks); [|done..]. rewrite Hk.
  rewrite <- run_rows_fmap.
  change (λ r, key_step (mysql_key_row r)) with MySQL.MySQLKeyLister_call.
  fold (mysql_listed row cols).
  destruct (run_rows _ _ _) as [kl|w|u]; simpl; [|done..].
  by destruct (surrogate_key_loop _ _ _).
Qed.

(** One call of the PostgreSQL table lister when its three catalog
    queries are answered. *)
Lemma pg_table_lister_run c row cols pk ks :
  pg_answers c (PostgreSQL.columns_sql (PostgreSQL.string_at row 0)) cols →
  pg_answers c (PostgreSQL.primary_key_sql (PostgreSQL.string_at row 0)) pk →
  pg_answers c (PostgreSQL.keys_sql (PostgreSQL.string_at row 0)) ks →
  let c2 :=
    PostgreSQL.set_conn
      (pg_after (PostgreSQL.primary_key_sql (PostgreSQL.string_at row 0))
         (pg_after (PostgreSQL.columns_sql (PostgreSQL.string_at row 0))
            (PostgreSQL.conn c))) c in
  let c3 :=
    PostgreSQL.set_conn
      (pg_after (PostgreSQL.keys_sql (PostgreSQL.string_at row 0))
         (PostgreSQL.conn c2)) c in
  PostgreSQL.PostgreSQLTableLister_call row c =
    match run_rows PostgreSQL.PostgreSQLPrimaryKeyLister_call (pg_rows pk)
            (pg_listed row cols) with
    | Returned table =>
        match run_rows key_step (pg_key_row <$> pg_rows ks)
                (PostgreSQL.PostgreSQLKeyLister_new table) with
        | Returned key_lister =>
            match primary_key_columns (settled_table key_lister) with
            | [] => (Thrown (no_key_message (name (settled_table key_lister))), c3)
            | _ :: _ =>
                (Returned (), PostgreSQL.push_table (settled_table key_lister) c3)
            end
        | Thrown w => (Thrown w, c3)
        | Undefined u => (Undefined u, c3)
        end
    | Thrown w => (Thrown w, c2)
    | Undefined u => (Undefined u, c2)
    end.
Proof.
  intros Hc Hp Hk c2 c3. unfold PostgreSQL.PostgreSQLTableLister_call, bind.
  cbn [name Table_new]. rewrite (pg_query_lift _ _ _ _ _ Hc).
  rewrite pg_column_lister_run. cbn [name Table_new set_columns].
  rewrite (pg_query_lift _ _ _ _ pk) by done. fold (pg_listed row cols).
  destruct (run_rows PostgreSQL.PostgreSQLPrimaryKeyLister_call _ _)
    as [table|w|u] eqn:Rp; [|done..].
  apply pg_primary_key_lister_run in Rp as (Hn & _).
  rewrite Hn. cbn [name Table_new set_columns pg_listed].
  rewrite (pg_query_lift _ _ _ _ ks) by done.
  rewrite <- run_rows_fmap.
  rewrite (run_rows_ext (λ r k, PostgreSQL.PostgreSQLKeyLister_call r k)
             (λ r, key_step (pg_key_row r)))
    by (intros; apply pg_key_lister_step).
  destruct (run_rows _ _ _) as [kl|w|u]; simpl; [|done..].
  by destruct (surrogate_key_loop _ _ _).
Qed.

(** A streaming query whose callback leaves the client alone leaves
    nothing unread, whatever the server answers. *)
Lemma mysql_query_lift_settled {St} (f : MySQL.MySQLRow → St → outcome St) sql s c :
  MySQL.unread (MySQL.mysql c) = [] →
  MySQL.unread (MySQL.mysql (MySQL.query sql (λ row s, lift (f row s)) false s c).2)
  = [].
Proof.
  intros Hu. destruct (MySQL.server (MySQL.mysql c) sql) as [diag|[rs|]] eqn:E.
  - rewrite (mysql_query_rejected _ _ _ _ _ _ E). simpl. by rewrite Hu.
  - by rewrite (mysql_query_lift f sql s c rs Hu E).
  - unfold MySQL.query. rewrite (mysql_real_query_no_result _ _ E). simpl.
    by rewrite Hu.
Qed.

(** So does a call of the table lister: the next call, made from the
    buffered query over the table names, finds the connection as this one
    did. *)
Lemma mysql_table_lister_settled row c :
  MySQL.unread (MySQL.mysql c) = [] →
  MySQL.unread (MySQL.mysql (MySQL.MySQLTableLister_call row c).2) = [].
Proof.
  intros Hu. unfold MySQL.MySQLTableLister_call, bind.
  pose proof (mysql_query_lift_settled MySQL.MySQLColumnLister_call
                ("SHOW COLUMNS FROM " +:+ MySQL.string_at row 0)
                (Table_new (MySQL.string_at row 0)) c Hu) as H1.
  cbn [name Table_new].
  destruct (MySQL.query _ _ false (Table_new _) c) as [[table|w|u] c1];
    [|done..].
  pose proof (mysql_query_lift_settled MySQL.MySQLKeyLister_call
                ("SHOW KEYS FROM " +:+ name table)
                (MySQL.MySQLKeyLister_new table) c1 H1) as H2.
  destruct (MySQL.query _ _ false (MySQL.MySQLKeyLister_new _) c1)
    as [[kl|w|u] c2]; [|done..].
  cbv zeta. by destruct (primary_key_columns _).
Qed.

End table_listers.

(** ** Primary keys and surrogate keys *)

Section row_identity.
Context `{decls : Decls}.
Import Catalog.

Lemma usable_false marked k :
  usable marked k = false ↔ unique k = false ∨ key_name k ∈ marked.
Proof.
  unfold usable. destruct (unique k); simpl; [|naive_solver].
  case_bool_decide; naive_solver.
Qed.

Lemma usable_true marked k :
  usable marked k = true ↔ unique k = true ∧ key_name k ∉ marked.
Proof.
  unfold usable. destruct (unique k); simpl; [|naive_solver].
  case_bool_decide; naive_solver.
Qed.

(** The table a key lister hands over, once settled, when it found no
    primary key: either the first usable key gives the primary-key columns
    or there is no usable key and there are none. *)
Lemma settled_without_primary_key rows table kl :
  primary_key_columns table = [] → keys table = [] →
  Forall (λ kr, kr_primary kr = false) rows →
  run_rows key_step rows {| kl_table := table; unique_but_nullable_keys := ∅ |}
  = Returned kl →
  name (settled_table kl) = name table ∧
  unique_but_nullable_keys kl = unique_but_nullable rows ∧
  keys (settled_table kl) ≡ₚ keys (kl_table kl) ∧
  (has_surrogate (unique_but_nullable rows) (settled_table kl) ∨
   Forall (λ k, unique k = false ∨ key_name k ∈ unique_but_nullable rows)
          (keys (kl_table kl)) ∧
   primary_key_columns (settled_table kl) = []).
Proof.
  intros Hpk Hkeys Hnp R.
  pose proof (key_run_columns _ _ _ R) as [Hn _].
  pose proof (key_run_marked rows
                {| kl_table := table; unique_but_nullable_keys := ∅ |} kl
                Hnp Hpk R) as [Hpk' Hm]. simpl in Hn, Hm.
  rewrite union_empty_r_L in Hm.
  pose proof (key_run_columns_pushed rows
                {| kl_table := table; unique_but_nullable_keys := ∅ |} kl) as Hne.
  simpl in Hne.
  rewrite Hkeys in Hne. specialize (Hne (Forall_nil_2 _) R).
  split; [done|]. split; [done|]. split; [apply sort_Permutation|].
  unfold settled_table, has_surrogate. simpl.
  rewrite Hpk', Hm.
  destruct (surrogate_key_loop_first (unique_but_nullable rows)
              (sort (keys (kl_table kl))))
    as [(before & key & after & Hs & Hb & Hu & ->)|[Hall ->]].
  { by rewrite sort_Permutation. }
  - left. split; [apply sort_Sorted|].
    exists before, key, after. apply usable_true in Hu as [? ?].
    repeat split; [done| |done..].
    eapply Forall_impl; [exact Hb|]. intros k. by rewrite usable_false.
  - right. split; [|done]. rewrite <- (sort_Permutation (keys (kl_table kl))).
    eapply Forall_impl; [exact Hall|]. intros k. by rewrite usable_false.
Qed.

(** With primary-key columns found, settling the table keeps them. *)
Lemma settled_with_primary_key kl :
  primary_key_columns (kl_table kl) ≠ [] →
  primary_key_columns (settled_table kl) = primary_key_columns (kl_table kl) ∧
  columns (settled_table kl) = columns (kl_table kl) ∧
  name (settled_table kl) = name (kl_table kl).
Proof.
  intros Hpk. unfold settled_table. simpl.
  by rewrite surrogate_key_loop_kept.
Qed.

Lemma pg_rows_none r : PostgreSQL.tuples r = [] → pg_rows r = [].
Proof. intros E. unfold pg_rows. by rewrite E. Qed.

Lemma pg_key_rows_not_primary rows :
  Forall (λ kr, kr_primary kr = false) (pg_key_row <$> rows).
Proof. apply Forall_fmap, Forall_true. done. Qed.

Lemma pg_key_rows_primary rows :
  filter (λ kr, kr_primary kr) (pg_key_row <$> rows) = [].
Proof.
  induction rows as [|row rows IH]; [done|].
  rewrite fmap_cons, filter_cons. by rewrite decide_False by (simpl; tauto).
Qed.

(** A key lister whose lookups all return gets through its rows. *)
Lemma key_run_returns rows self :
  Forall (λ kr, ∃ i, index_of_column (columns (kl_table self)) (kr_column kr)
                     = Returned i) rows →
  ∃ self', run_rows key_step rows self = Returned self'.
Proof.
  revert self. induction rows as [|kr rows IH]; intros self Hall; simpl; [eauto|].
  apply Forall_cons in Hall as [[i Hi] Hall].
  destruct (key_step kr self) as [self1| |] eqn:E.
  - apply IH. apply key_step_returned in E as (_ & _ & _ & -> & _). done.
  - unfold key_step in E. rewrite Hi in E. simpl in E. by destruct (kr_primary kr).
  - unfold key_step in E. rewrite Hi in E. simpl in E. by destruct (kr_primary kr).
Qed.

(** C1: for a table without a reported primary key, when the table lister
    returns it has appended a table whose keys are those of the key lister
    in order of their names and whose primary-key columns are the columns
    of the first key, in that order, that is unique and whose name the key
    lister has not recorded as unique but nullable: every key before it is
    not unique or is recorded.  The names recorded are those of the keys
    reported unique with a nullable column.  On MySQL "no primary key" is
    no row of [SHOW KEYS] for the key PRIMARY, on PostgreSQL no row from
    the primary-key query. *)
Theorem surrogate_key_first_usable :
  (∀ (c c' : MySQL.MySQLClient) row cols ks,
     MySQL.unread (MySQL.mysql c) = [] →
     mysql_answers c ("SHOW COLUMNS FROM " +:+ MySQL.string_at row 0) cols →
     mysql_answers c ("SHOW KEYS FROM " +:+ MySQL.string_at row 0) ks →
     Forall (λ kr, kr_primary kr = false) (mysql_key_row <$> mysql_rows ks) →
     MySQL.MySQLTableLister_call row c = (Returned (), c') →
     ∃ key_lister table,
       run_rows MySQL.MySQLKeyLister_call (mysql_rows ks)
         (MySQL.MySQLKeyLister_new (mysql_listed row cols)) = Returned key_lister ∧
       unique_but_nullable_keys key_lister
       = unique_but_nullable (mysql_key_row <$> mysql_rows ks) ∧
       tables (MySQL.database c') = tables (MySQL.database c) ++ [table] ∧
       name table = MySQL.string_at row 0 ∧
       keys table ≡ₚ keys (kl_table key_lister) ∧
       has_surrogate (unique_but_nullable_keys key_lister) table) ∧
  (∀ (c c' : PostgreSQL.PostgreSQLClient) row cols pk ks,
     pg_answers c (PostgreSQL.columns_sql (PostgreSQL.string_at row 0)) cols →
     pg_answers c (PostgreSQL.primary_key_sql (PostgreSQL.string_at row 0)) pk →
     pg_answers c (PostgreSQL.keys_sql (PostgreSQL.string_at row 0)) ks →
     PostgreSQL.tuples pk = [] →
     PostgreSQL.PostgreSQLTableLister_call row c = (Returned (), c') →
     ∃ key_lister table,
       run_rows PostgreSQL.PostgreSQLKeyLister_call (pg_rows ks)
         (PostgreSQL.PostgreSQLKeyLister_new (pg_listed row cols))
       = Returned key_lister ∧
       unique_but_nullable_keys key_lister
       = unique_but_nullable (pg_key_row <$> pg_rows ks) ∧
       tables (PostgreSQL.database c') = tables (PostgreSQL.database c) ++ [table] ∧
       name table = PostgreSQL.string_at row 0 ∧
       keys table ≡ₚ keys (kl_table key_lister) ∧
       has_surrogate (unique_but_nullable_keys key_lister) table).
Proof.
  split.
  - intros c c' row cols ks Hu Hc Hk Hnp.
    rewrite (mysql_table_lister_run c row cols ks Hu Hc Hk).
    destruct (run_rows key_step _ _) as [kl|w|u] eqn:R; [|done..].
    pose proof R as R0. rewrite <- run_rows_fmap in R0.
    apply settled_without_primary_key in R
      as (Hn & Hm & Hperm & [Hs|[_ Hnone]]); [| |done..].
    + destruct (primary_key_columns (settled_table kl)); [done|].
      intros [= <-]. exists kl, (settled_table kl). by rewrite Hm.
    + by rewrite Hnone.
  - intros c c' row cols pk ks Hc Hp Hk Hnone.
    rewrite (pg_table_lister_run c row cols pk ks Hc Hp Hk).
    rewrite (pg_rows_none pk Hnone). cbn [run_rows].
    destruct (run_rows key_step _ _) as [kl|w|u] eqn:R; [|done..].
    pose proof R as R0. rewrite <- run_rows_fmap in R0.
    rewrite <- (run_rows_ext (λ r k, PostgreSQL.PostgreSQLKeyLister_call r k)) in R0
      by (intros; apply pg_key_lister_step).
    apply settled_without_primary_key in R
      as (Hn & Hm & Hperm & [Hs|[_ Hnone']]);
      [| |done..|apply pg_key_rows_not_primary].
    + destruct (primary_key_columns (settled_table kl)); [done|].
      intros [= <-]. exists kl, (settled_table kl). by rewrite Hm.
    + by rewrite Hnone'.
Qed.

(** No usable key among the keys a lister holds, when every reported
    unique key is also reported with a nullable column. *)
Lemma no_surrogate rows table kl :
  keys table = [] →
  Forall (λ kr, kr_primary kr = false ∧
                (kr_unique kr = true → kr_key kr ∈ unique_but_nullable rows)) rows →
  run_rows key_step rows {| kl_table := table; unique_but_nullable_keys := ∅ |}
  = Returned kl →
  ¬ has_surrogate (unique_but_nullable rows) (settled_table kl).
Proof.
  intros Hkeys Hrows R (_ & before & key & after & Hs & _ & Hu & Hm & _).
  pose proof (key_run_reported [] rows
                {| kl_table := table; unique_but_nullable_keys := ∅ |} kl) as Hrep.
  simpl in Hrep. rewrite Hkeys in Hrep. specialize (Hrep (Forall_nil_2 _) R).
  assert (key ∈ keys (kl_table kl)) as Hin.
  { rewrite <- (sort_Permutation (keys (kl_table kl))).
    unfold settled_table in Hs. simpl in Hs. rewrite Hs. set_solver. }
  rewrite Forall_forall in Hrep. destruct (Hrep key Hin) as (kr & Hkr & _ & Hk & Hq).
  rewrite Forall_forall in Hrows. destruct (Hrows kr Hkr) as [_ Hmarked].
  apply Hm. rewrite <- Hk. apply Hmarked. congruence.
Qed.

(** C2: for a table without a reported primary key whose unique keys are
    all reported with a nullable column (a table without unique keys
    among them), the table lister does not return and leaves the
    database's tables as they were; when the column lookups of the key
    lister return, what it throws is the error that names the table. *)
Theorem no_usable_key_is_fatal :
  (∀ (c : MySQL.MySQLClient) row cols ks,
     MySQL.unread (MySQL.mysql c) = [] →
     mysql_answers c ("SHOW COLUMNS FROM " +:+ MySQL.string_at row 0) cols →
     mysql_answers c ("SHOW KEYS FROM " +:+ MySQL.string_at row 0) ks →
     let rows := mysql_key_row <$> mysql_rows ks in
     Forall (λ kr, kr_primary kr = false ∧
                   (kr_unique kr = true → kr_key kr ∈ unique_but_nullable rows))
            rows →
     ∃ o c',
       MySQL.MySQLTableLister_call row c = (o, c') ∧
       MySQL.database c' = MySQL.database c ∧
       o ≠ Returned () ∧
       (Forall (λ kr, ∃ i, index_of_column (columns (mysql_listed row cols))
                             (kr_column kr) = Returned i) rows →
        o = Thrown ("Couldn't find a primary or non-nullable unique key on table "
                    +:+ MySQL.string_at row 0))) ∧
  (∀ (c : PostgreSQL.PostgreSQLClient) row cols pk ks,
     pg_answers c (PostgreSQL.columns_sql (PostgreSQL.string_at row 0)) cols →
     pg_answers c (PostgreSQL.primary_key_sql (PostgreSQL.string_at row 0)) pk →
     pg_answers c (PostgreSQL.keys_sql (PostgreSQL.string_at row 0)) ks →
     PostgreSQL.tuples pk = [] →
     let rows := pg_key_row <$> pg_rows ks in
     Forall (λ kr, kr_unique kr = true → kr_key kr ∈ unique_but_nullable rows)
            rows →
     ∃ o c',
       PostgreSQL.PostgreSQLTableLister_call row c = (o, c') ∧
       PostgreSQL.database c' = PostgreSQL.database c ∧
       o ≠ Returned () ∧
       (Forall (λ kr, ∃ i, index_of_column (columns (pg_listed row cols))
                             (kr_column kr) = Returned i) rows →
        o = Thrown ("Couldn't find a primary or non-nullable unique key on table "
                    +:+ PostgreSQL.string_at row 0))).
Proof.
  split.
  - intros c row cols ks Hu Hc Hk rows Hrows.
    rewrite (mysql_table_lister_run c row cols ks Hu Hc Hk).
    fold rows. destruct (run_rows key_step rows _) as [kl|w|u] eqn:R.
    + pose proof (no_surrogate rows (mysql_listed row cols) kl eq_refl Hrows R)
        as Hno.
      apply settled_without_primary_key in R as (Hn & _ & _ & [Hs|[_ Hnone]]);
        [done| |done..|].
      * rewrite Hnone, Hn. eexists _, _. by repeat split.
      * eapply Forall_impl; [exact Hrows|]. by intros kr [? _].
    + eexists _, _. repeat split; [done|].
      intros [kl' R']%(key_run_returns rows (MySQL.MySQLKeyLister_new _)).
      by rewrite R in R'.
    + eexists _, _. repeat split; [done|].
      intros [kl' R']%(key_run_returns rows (MySQL.MySQLKeyLister_new _)).
      by rewrite R in R'.
  - intros c row cols pk ks Hc Hp Hk Hnone rows Hrows.
    rewrite (pg_table_lister_run c row cols pk ks Hc Hp Hk).
    rewrite (pg_rows_none pk Hnone). cbn [run_rows].
    assert (Forall (λ kr, kr_primary kr = false ∧
              (kr_unique kr = true → kr_key kr ∈ unique_but_nullable rows)) rows)
      as Hrows'.
    { apply Forall_and. split; [apply pg_key_rows_not_primary|done]. }
    fold rows. destruct (run_rows key_step rows _) as [kl|w|u] eqn:R.
    + pose proof (no_surrogate rows (pg_listed row cols) kl eq_refl Hrows' R)
        as Hno.
      apply settled_without_primary_key in R as (Hn & _ & _ & [Hs|[_ Hnone']]);
        [done| |done..|apply pg_key_rows_not_primary].
      rewrite Hnone', Hn. eexists _, _. by repeat split.
    + eexists _, _. repeat split; [done|].
      intros [kl' R']%(key_run_returns rows (PostgreSQL.PostgreSQLKeyLister_new _)).
      by rewrite R in R'.
    + eexists _, _. repeat split; [done|].
      intros [kl' R']%(key_run_returns rows (PostgreSQL.PostgreSQLKeyLister_new _)).
      by rewrite R in R'.
Qed.

(** C3: for a table with a reported primary key, when the table lister
    returns it has appended a table whose primary-key columns are, one for
    one and in the order reported, the indices that [index_of_column]
    gives in the table's columns for the reported primary-key columns.
    On MySQL these are the rows of [SHOW KEYS] for the key PRIMARY, on
    PostgreSQL the rows of the primary-key query. *)
Theorem reported_primary_key_kept :
  (∀ (c c' : MySQL.MySQLClient) row cols ks,
     MySQL.unread (MySQL.mysql c) = [] →
     mysql_answers c ("SHOW COLUMNS FROM " +:+ MySQL.string_at row 0) cols →
     mysql_answers c ("SHOW KEYS FROM " +:+ MySQL.string_at row 0) ks →
     let primary :=
       filter (λ kr, kr_primary kr) (mysql_key_row <$> mysql_rows ks) in
     primary ≠ [] →
     MySQL.MySQLTableLister_call row c = (Returned (), c') →
     ∃ table,
       tables (MySQL.database c') = tables (MySQL.database c) ++ [table] ∧
       columns table = columns (mysql_listed row cols) ∧
       Forall2 (λ kr i, index_of_column (columns table) (kr_column kr) = Returned i)
               primary (primary_key_columns table)) ∧
  (∀ (c c' : PostgreSQL.PostgreSQLClient) row cols pk ks,
     pg_answers c (PostgreSQL.columns_sql (PostgreSQL.string_at row 0)) cols →
     pg_answers c (PostgreSQL.primary_key_sql (PostgreSQL.string_at row 0)) pk →
     pg_answers c (PostgreSQL.keys_sql (PostgreSQL.string_at row 0)) ks →
     pg_rows pk ≠ [] →
     PostgreSQL.PostgreSQLTableLister_call row c = (Returned (), c') →
     ∃ table,
       tables (PostgreSQL.database c') = tables (PostgreSQL.database c) ++ [table] ∧
       columns table = columns (pg_listed row cols) ∧
       Forall2 (λ r i, index_of_column (columns table) (PostgreSQL.string_at r 0)
                       = Returned i)
               (pg_rows pk) (primary_key_columns table)).
Proof.
  split.
  - intros c c' row cols ks Hu Hc Hk primary Hprimary.
    rewrite (mysql_table_lister_run c row cols ks Hu Hc Hk).
    destruct (run_rows key_step _ _) as [kl|w|u] eqn:R; [|done..].
    pose proof (key_run_columns _ _ _ R) as [_ Hcols].
    apply key_run_primary in R as (indices & Hpk & Hall). simpl in Hpk, Hall, Hcols.
    fold primary in Hall.
    destruct (settled_with_primary_key kl) as (Hpk' & Hcols' & _).
    { rewrite Hpk. intros ->. apply Forall2_nil_inv_r in Hall. done. }
    destruct (primary_key_columns (settled_table kl)) eqn:Hs; [done|].
    intros [= <-]. exists (settled_table kl). rewrite Hs, Hpk', Hcols', Hcols, Hpk.
    done.
  - intros c c' row cols pk ks Hc Hp Hk Hsome.
    rewrite (pg_table_lister_run c row cols pk ks Hc Hp Hk).
    destruct (run_rows PostgreSQL.PostgreSQLPrimaryKeyLister_call _ _)
      as [table|w|u] eqn:Rp; [|done..].
    apply pg_primary_key_lister_run in Rp
      as (_ & Hcols1 & _ & indices & Hpk1 & Hall). simpl in Hpk1.
    destruct (run_rows key_step _ _) as [kl|w|u] eqn:R; [|done..].
    pose proof (key_run_columns _ _ _ R) as [_ Hcols].
    apply key_run_primary in R as (none & Hpk & Hnone). simpl in Hpk, Hnone, Hcols.
    rewrite pg_key_rows_primary in Hnone.
    apply Forall2_nil_inv_l in Hnone as ->. rewrite app_nil_r in Hpk.
    destruct (settled_with_primary_key kl) as (Hpk' & Hcols' & _).
    { rewrite Hpk, Hpk1. intros ->. apply Forall2_nil_inv_r in Hall. done. }
    destruct (primary_key_columns (settled_table kl)) eqn:Hs; [done|].
    intros [= <-]. exists (settled_table kl).
    rewrite Hs, Hpk', Hcols', Hcols, Hpk, Hpk1, Hcols1. done.
Qed.

End row_identity.

(** ** The sample database, listed *)

(** On the sample database. *)
Lemma surrogate_key_first_usable_witness :
  (∃ key_lister table,
     run_rows (@MySQL.MySQLKeyLister_call Instances.decls)
       (Catalog.mysql_rows Samples.My.sessions_keys)
       (MySQL.MySQLKeyLister_new
          (Catalog.mysql_listed (Samples.My.table_row "sessions")
             Samples.My.sessions_columns)) = Returned key_lister ∧
     unique_but_nullable_keys key_lister
     = Catalog.unique_but_nullable
         (Catalog.mysql_key_row <$> Catalog.mysql_rows Samples.My.sessions_keys) ∧
     tables (MySQL.database
               (@MySQL.MySQLTableLister_call Instances.decls
                  (Samples.My.table_row "sessions") (Samples.My.client 50700)).2)
     = [] ++ [table] ∧
     name table = "sessions" ∧
     keys table ≡ₚ keys (kl_table key_lister) ∧
     Catalog.has_surrogate (unique_but_nullable_keys key_lister) table) ∧
  (∃ key_lister table,
     run_rows (@PostgreSQL.PostgreSQLKeyLister_call Instances.decls)
       (Catalog.pg_rows Samples.Pg.sessions_keys)
       (PostgreSQL.PostgreSQLKeyLister_new
          (Catalog.pg_listed (Samples.Pg.table_row "sessions")
             Samples.Pg.sessions_columns)) = Returned key_lister ∧
     unique_but_nullable_keys key_lister
     = Catalog.unique_but_nullable
         (Catalog.pg_key_row <$> Catalog.pg_rows Samples.Pg.sessions_keys) ∧
     tables (PostgreSQL.database
               (@PostgreSQL.PostgreSQLTableLister_call Instances.decls
                  (Samples.Pg.table_row "sessions") Samples.Pg.client).2)
     = [] ++ [table] ∧
     name table = "sessions" ∧
     keys table ≡ₚ keys (kl_table key_lister) ∧
     Catalog.has_surrogate (unique_but_nullable_keys key_lister) table).
Proof.
  split.
  - refine (proj1 (@surrogate_key_first_usable Instances.decls)
              (Samples.My.client 50700) _ (Samples.My.table_row "sessions")
              Samples.My.sessions_columns Samples.My.sessions_keys
              eq_refl _ _ _ _).
    + split; reflexivity.
    + split; reflexivity.
    + repeat constructor.
    + vm_compute. reflexivity.
  - refine (proj2 (@surrogate_key_first_usable Instances.decls)
              Samples.Pg.client _ (Samples.Pg.table_row "sessions")
              Samples.Pg.sessions_columns Samples.Pg.sessions_primary_key
              Samples.Pg.sessions_keys _ _ _ eq_refl _).
    + split; reflexivity.
    + split; reflexivity.
    + split; reflexivity.
    + vm_compute. reflexivity.
Defined.

(** On the sample database. *)
Lemma no_usable_key_is_fatal_witness :
  (∃ o c',
     @MySQL.MySQLTableLister_call Instances.decls
       (Samples.My.table_row "guests") (Samples.My.client 50700) = (o, c') ∧
     MySQL.database c' = MySQL.database (Samples.My.client 50700) ∧
     o ≠ Returned () ∧
     (Forall (λ kr, ∃ i,
                @index_of_column Instances.decls
                  (columns (Catalog.mysql_listed (Samples.My.table_row "guests")
                              Samples.My.guests_columns))
                  (Catalog.kr_column kr) = Returned i)
             (Catalog.mysql_key_row <$> Catalog.mysql_rows Samples.My.guests_keys) →
      o = Thrown ("Couldn't find a primary or non-nullable unique key on table "
                  +:+ "guests"))) ∧
  (∃ o c',
     @PostgreSQL.PostgreSQLTableLister_call Instances.decls
       (Samples.Pg.table_row "logs") Samples.Pg.client = (o, c') ∧
     PostgreSQL.database c' = PostgreSQL.database Samples.Pg.client ∧
     o ≠ Returned () ∧
     (Forall (λ kr, ∃ i,
                @index_of_column Instances.decls
                  (columns (Catalog.pg_listed (Samples.Pg.table_row "logs")
                              Samples.Pg.logs_columns))
                  (Catalog.kr_column kr) = Returned i)
             (Catalog.pg_key_row <$> Catalog.pg_rows Samples.Pg.logs_keys) →
      o = Thrown ("Couldn't find a primary or non-nullable unique key on table "
                  +:+ "logs"))).
Proof.
  split.
  - refine (proj1 (@no_usable_key_is_fatal Instances.decls)
              (Samples.My.client 50700) (Samples.My.table_row "guests")
              Samples.My.guests_columns Samples.My.guests_keys eq_refl _ _ _).
    + split; reflexivity.
    + split; reflexivity.
    + repeat constructor; try discriminate;
        intros _; apply bool_decide_unpack; vm_compute; exact I.
  - refine (proj2 (@no_usable_key_is_fatal Instances.decls)
              Samples.Pg.client (Samples.Pg.table_row "logs")
              Samples.Pg.logs_columns Samples.Pg.logs_primary_key
              Samples.Pg.logs_keys _ _ _ eq_refl _).
    + split; reflexivity.
    + split; reflexivity.
    + split; reflexivity.
    + constructor.
Defined.

(** On the sample database. *)
Lemma reported_primary_key_kept_witness :
  (∃ table,
     tables (MySQL.database
               (@MySQL.MySQLTableLister_call Instances.decls
                  (Samples.My.table_row "orders") (Samples.My.client 50700)).2)
     = [] ++ [table] ∧
     columns table = columns (Catalog.mysql_listed (Samples.My.table_row "orders")
                                Samples.My.orders_columns) ∧
     Forall2 (λ kr i, @index_of_column Instances.decls (columns table)
                        (Catalog.kr_column kr) = Returned i)
             (filter (λ kr, Catalog.kr_primary kr)
                (Catalog.mysql_key_row <$> Catalog.mysql_rows Samples.My.orders_keys))
             (primary_key_columns table)) ∧
  (∃ table,
     tables (PostgreSQL.database
               (@PostgreSQL.PostgreSQLTableLister_call Instances.decls
                  (Samples.Pg.table_row "orders") Samples.Pg.client).2)
     = [] ++ [table] ∧
     columns table = columns (Catalog.pg_listed (Samples.Pg.table_row "orders")
                                Samples.Pg.orders_columns) ∧
     Forall2 (λ r i, @index_of_column Instances.decls (columns table)
                       (PostgreSQL.string_at r 0) = Returned i)
             (Catalog.pg_rows Samples.Pg.orders_primary_key)
             (primary_key_columns table)).
Proof.
  split.
  - refine (proj1 (@reported_primary_key_kept Instances.decls)
              (Samples.My.client 50700) _ (Samples.My.table_row "orders")
              Samples.My.orders_columns Samples.My.orders_keys eq_refl _ _ _ _).
    + split; reflexivity.
    + split; reflexivity.
    + vm_compute. discriminate.
    + vm_compute. reflexivity.
  - refine (proj2 (@reported_primary_key_kept Instances.decls)
              Samples.Pg.client _ (Samples.Pg.table_row "orders")
              Samples.Pg.orders_columns Samples.Pg.orders_primary_key
              Samples.Pg.orders_keys _ _ _ _ _).
    + split; reflexivity.
    + split; reflexivity.
    + split; reflexivity.
    + vm_compute. discriminate.
    + vm_compute. reflexivity.
Defined.

(** Populating the schema of the sample database, on both engines. *)
Example mysql_sample_populated :
  let r := @MySQL.populate_database_schema Instances.decls (Samples.My.client 50700) in
  r.1 = Returned () ∧
  tables (MySQL.database r.2) = [Samples.orders_table; Samples.sessions_table] ∧
  MySQL.unread (MySQL.mysql r.2) = [] ∧
  MySQL.open_results (MySQL.mysql r.2) = 0.
Proof. vm_compute. done. Qed.

Example pg_sample_populated :
  let r := @PostgreSQL.populate_database_schema Instances.decls Samples.Pg.client in
  r.1 = Returned () ∧
  tables (PostgreSQL.database r.2) = [Samples.orders_table; Samples.sessions_table] ∧
  PostgreSQL.open_results (PostgreSQL.conn r.2) = 0.
Proof. vm_compute. done. Qed.

(** ** What a query leaves of the client, whatever the server says *)

Section mysql_frames.
Import MySQL.

Local Arguments mysql_free_result : simpl never.

Lemma mysql_execute_open_results c sql :
  open_results (mysql (execute sql c).2) = open_results (mysql c).
Proof.
  unfold execute, mysql_real_query.
  by destruct (server (mysql c) sql) as [?|[?|]].
Qed.

Lemma discard_rows_frame n r my :
  statements (discard_rows n r my).2 = statements my ∧
  open_results (discard_rows n r my).2 = open_results my.
Proof.
  revert r my. induction n as [|n IH]; intros r my; simpl; [done|].
  unfold mysql_fetch_row. destruct (res_rows r) as [|row rest]; simpl.
  - by destruct (res_error r).
  - destruct (IH (set_res_rows rest r)
                (if res_streaming r then set_unread (tail (unread my)) my else my))
      as [-> ->].
    by destruct (res_streaming r).
Qed.

Lemma MySQLRes_delete_frame res my :
  is_Some (_res res) →
  statements (MySQLRes_delete res my) = statements my ∧
  open_results (MySQLRes_delete res my) = pred (open_results my).
Proof.
  intros [r R]. unfold MySQLRes_delete. rewrite R.
  pose proof (discard_rows_frame (S (length (res_rows r))) r my) as [Hs Ho].
  destruct (discard_rows _ r my) as [r' my']. simpl in *.
  unfold mysql_free_result. simpl. by rewrite Hs, Ho.
Qed.

Lemma MySQLRes_new_frame my buffer :
  statements (MySQLRes_new my buffer).2 = statements my ∧
  match (MySQLRes_new my buffer).1 with
  | Returned res =>
      is_Some (_res res) ∧
      open_results (MySQLRes_new my buffer).2 = S (open_results my)
  | _ => open_results (MySQLRes_new my buffer).2 = open_results my
  end.
Proof.
  unfold MySQLRes_new, mysql_store_result, mysql_use_result.
  destruct buffer, (pending my) as [[n [e|]]|]; simpl; eauto.
Qed.

(** The loop of [query] changes the schema, the statements on record and
    the count of open handles only through the callback. *)
Lemma fetch_rows_frame {St} (P : Database → list string → nat → Prop)
    (row_handler : MySQLRow → St → M MySQLClient St) :
  (∀ row h c,
     P (database c) (statements (mysql c)) (open_results (mysql c)) →
     P (database (row_handler row h c).2)
       (statements (mysql (row_handler row h c).2))
       (open_results (mysql (row_handler row h c).2))) →
  ∀ n res h c,
    P (database c) (statements (mysql c)) (open_results (mysql c)) →
    P (database (fetch_rows n row_handler res h c).2)
      (statements (mysql (fetch_rows n row_handler res h c).2))
      (open_results (mysql (fetch_rows n row_handler res h c).2)) ∧
    (is_Some (_res res) → is_Some (_res (fetch_rows n row_handler res h c).1.2)).
Proof.
  intros HP. induction n as [|n IH]; intros res h c Hc; simpl; [done|].
  destruct (_res res) as [r|] eqn:R; simpl; [|by rewrite R].
  unfold mysql_fetch_row. destruct (res_rows r) as [|row rest] eqn:Rows; simpl.
  - split; [|eauto]. by destruct (res_error r).
  - match goal with
    | |- context [row_handler ?row' h ?c1] =>
        pose proof (HP row' h c1) as Hh;
        destruct (row_handler row' h c1) as [[h'|w|u] c'] eqn:E
    end; simpl in *.
    + destruct (IH (set_res (Some (set_res_rows rest r)) res) h' c') as [? Hres].
      { apply Hh. by destruct (res_streaming r). }
      split; [done|]. intros _. apply Hres. by eexists.
    + split; [|by eauto]. apply Hh. by destruct (res_streaming r).
    + split; [|by eauto]. apply Hh. by destruct (res_streaming r).
Qed.

Lemma fetch_rows_lift_returned {St} (f : MySQLRow → St → outcome St) n :
  ∀ res s c s',
    (fetch_rows n (λ row s, lift (f row s)) res s c).1.1 = Returned s' →
    ∃ rows, run_rows f rows s = Returned s'.
Proof.
  induction n as [|n IH]; intros res s c s'; simpl.
  { intros [= <-]. by exists []. }
  destruct (_res res) as [r|]; [|done].
  unfold mysql_fetch_row. destruct (res_rows r) as [|row rest]; simpl.
  { intros [= <-]. by exists []. }
  unfold lift.
  match goal with
  | |- context [f ?row' s] => destruct (f row' s) as [s1|w|u] eqn:E; [|done..];
      intros Hr; apply IH in Hr as [rows Hr]; exists (row' :: rows)
  end.
  simpl. by rewrite E.
Qed.

Local Arguments fetch_rows : simpl never.
Local Arguments MySQLRes_delete : simpl never.

(** [query], for any reply of the server: either no handle was made and
    only the statement went on record, or the callback ran between the
    making of the handle and its release. *)
Lemma mysql_query_frame {St} (P : Database → list string → nat → Prop)
    (row_handler : MySQLRow → St → M MySQLClient St) sql buffer h c :
  (∀ row h c,
     P (database c) (statements (mysql c)) (open_results (mysql c)) →
     P (database (row_handler row h c).2)
       (statements (mysql (row_handler row h c).2))
       (open_results (mysql (row_handler row h c).2))) →
  let c' := (query sql row_handler buffer h c).2 in
  (database c' = database c ∧
   statements (mysql c') = statements (mysql c) ++ [sql] ∧
   open_results (mysql c') = open_results (mysql c)) ∨
  (P (database c) (statements (mysql c) ++ [sql]) (S (open_results (mysql c))) →
   ∃ n, P (database c') (statements (mysql c')) n ∧
        open_results (mysql c') = pred n).
Proof.
  intros HP. unfold query.
  assert (statements (mysql_real_query (mysql c) sql).2 = statements (mysql c) ++ [sql]
          ∧ open_results (mysql_real_query (mysql c) sql).2 = open_results (mysql c))
    as [Hs Ho].
  { unfold mysql_real_query. by destruct (server (mysql c) sql) as [?|[?|]]. }
  destruct (mysql_real_query (mysql c) sql) as [rc my]. simpl in Hs, Ho.
  case_bool_decide; simpl; [by left|].
  pose proof (MySQLRes_new_frame my buffer) as [Hs' Hn].
  destruct (MySQLRes_new my buffer) as [[res|w|u] my1]; simpl in *;
    [|left; by rewrite Hs', Hn..].
  destruct Hn as [Hres Ho']. right. intros Hc.
  pose proof (fetch_rows_frame P row_handler HP (S (rows_left res)) res h
                (set_mysql my1 c)) as Hf.
  destruct (fetch_rows (S (rows_left res)) row_handler res h (set_mysql my1 c))
    as [[o res'] c2]. simpl in Hf.
  destruct Hf as [Hc2 Hres2]; [by rewrite Hs', Ho', Hs, Ho|].
  specialize (Hres2 Hres).
  destruct (MySQLRes_delete_frame res' (mysql c2) Hres2) as [Hd Hd'].
  exists (open_results (mysql c2)). simpl. by rewrite Hd, Hd'.
Qed.

(** With a callback that leaves the client alone. *)
Lemma mysql_query_lift_frame {St} (f : MySQLRow → St → outcome St) sql buffer s c :
  let c' := (query sql (λ row s, lift (f row s)) buffer s c).2 in
  database c' = database c ∧
  statements (mysql c') = statements (mysql c) ++ [sql] ∧
  open_results (mysql c') = open_results (mysql c).
Proof.
  destruct (mysql_query_frame
              (λ db st n, db = database c ∧ st = statements (mysql c) ++ [sql] ∧
                          n = S (open_results (mysql c)))
              (λ row s, lift (f row s)) sql buffer s c) as [?|Hq]; [done..|].
  destruct Hq as (n & (? & ? & ->) & ?); done.
Qed.

(** A query that returned ran its callback over some rows, in order. *)
Lemma mysql_query_lift_returned {St} (f : MySQLRow → St → outcome St)
    sql buffer s c s' :
  (query sql (λ row s, lift (f row s)) buffer s c).1 = Returned s' →
  ∃ rows, run_rows f rows s = Returned s'.
Proof.
  unfold query. destruct (mysql_real_query (mysql c) sql) as [rc my].
  case_bool_decide; [done|].
  destruct (MySQLRes_new my buffer) as [[res|w|u] my1]; [|done..].
  pose proof (fetch_rows_lift_returned f (S (rows_left res)) res s (set_mysql my1 c))
    as Hf.
  destruct (fetch_rows (S (rows_left res)) _ res s (set_mysql my1 c))
    as [[o res'] c2]. simpl in *.
  destruct o as [s1|w|u]; [|done..]. simpl.
  destruct (mysql_errno (mysql c2)); [done|]. intros [= <-]. by apply Hf.
Qed.

End mysql_frames.

Section pg_frames.
Import PostgreSQL.

Lemma pg_execute_open_results c sql :
  open_results (conn (execute sql c).2) = open_results (conn c).
Proof.
  unfold execute, PQexec, leave, PostgreSQLRes_delete. simpl.
  destruct (result (server (conn c) sql)); by case_bool_decide.
Qed.

Lemma each_row_frame {St} (P : PostgreSQLClient → Prop)
    (row_handler : PostgreSQLRow → St → M PostgreSQLClient St) res :
  (∀ row h c, P c → P (row_handler row h c).2) →
  ∀ row_numbers h c, P c → P (each_row row_handler res row_numbers h c).2.
Proof.
  intros HP. induction row_numbers as [|n ns IH]; intros h c Hc; simpl; [done|].
  pose proof (HP {| row_res := res; _row_number := n |} h c Hc) as Hh.
  destruct (row_handler _ h c) as [[h'|w|u] c']; simpl in *; eauto.
Qed.

(** [query], for any reply of the server: the statement goes on record,
    the callback runs, and the result that was made is released. *)
Lemma pg_query_frame {St} (P : Database → list string → nat → Prop)
    (row_handler : PostgreSQLRow → St → M PostgreSQLClient St) sql h c :
  (∀ row h c,
     P (database c) (statements (conn c)) (open_results (conn c)) →
     P (database (row_handler row h c).2)
       (statements (conn (row_handler row h c).2))
       (open_results (conn (row_handler row h c).2))) →
  let c' := (query sql row_handler h c).2 in
  let made := match result (server (conn c) sql) with Some _ => 1 | None => 0 end in
  P (database c) (statements (conn c) ++ [sql]) (made + open_results (conn c)) →
  ∃ n, P (database c') (statements (conn c')) n ∧
       open_results (conn c') = n - made.
Proof.
  intros HP. unfold query, PQexecParams, PQexec, leave, PostgreSQLRes_delete.
  simpl. intros Hc.
  case_bool_decide as Hst; simpl.
  - exists (match result (server (conn c) sql) with Some _ => 1 | None => 0 end
            + open_results (conn c)).
    destruct (result (server (conn c) sql)); simpl; split; try done; lia.
  - match goal with
    | |- context [each_row row_handler ?res ?ns h ?c1] =>
        pose proof (each_row_frame
                      (λ c, P (database c) (statements (conn c))
                              (open_results (conn c)))
                      row_handler res HP ns h c1 Hc) as He;
        destruct (each_row row_handler res ns h c1) as [o c2]
    end.
    simpl in *. exists (open_results (conn c2)).
    destruct (result (server (conn c) sql)); simpl; split; try done; lia.
Qed.

Lemma pg_query_lift_frame {St} (f : PostgreSQLRow → St → outcome St) sql s c :
  let c' := (query sql (λ row s, lift (f row s)) s c).2 in
  database c' = database c ∧
  statements (conn c') = statements (conn c) ++ [sql] ∧
  open_results (conn c') = open_results (conn c).
Proof.
  destruct (pg_query_frame
              (λ db st n, db = database c ∧ st = statements (conn c) ++ [sql] ∧
                          n = match result (server (conn c) sql) with
                              | Some _ => 1 | None => 0 end
                              + open_results (conn c))
              (λ row s, lift (f row s)) sql s c) as (n & (? & ? & ->) & Ho);
    [done..|].
  repeat split; try done. rewrite Ho. lia.
Qed.

Lemma pg_query_lift_returned {St} (f : PostgreSQLRow → St → outcome St) sql s c s' :
  (query sql (λ row s, lift (f row s)) s c).1 = Returned s' →
  ∃ rows, run_rows f rows s = Returned s'.
Proof.
  unfold query, PQexecParams, leave. simpl.
  case_bool_decide; [done|]. rewrite pg_each_row_lift. simpl. eauto.
Qed.

End pg_frames.

(** ** A table lister call and a population, whatever the server says *)

Section listers_any_reply.
Context `{decls : Decls}.
Import Catalog Listing.

Local Arguments PostgreSQL.columns_sql : simpl never.
Local Arguments PostgreSQL.primary_key_sql : simpl never.
Local Arguments PostgreSQL.keys_sql : simpl never.
Local Arguments PostgreSQL.query : simpl never.
Local Arguments MySQL.query : simpl never.

Lemma mysql_key_lister_run rows self :
  run_rows MySQL.MySQLKeyLister_call rows self
  = run_rows key_step (mysql_key_row <$> rows) self.
Proof.
  rewrite <- run_rows_fmap. apply run_rows_ext. intros. apply mysql_key_lister_step.
Qed.

Lemma pg_key_lister_run rows self :
  run_rows PostgreSQL.PostgreSQLKeyLister_call rows self
  = run_rows key_step (pg_key_row <$> rows) self.
Proof.
  rewrite <- run_rows_fmap. apply run_rows_ext. intros. apply pg_key_lister_step.
Qed.

Lemma mysql_reported_not_primary rows k :
  reported (mysql_key_row <$> rows) k → key_name k ≠ "PRIMARY".
Proof.
  intros (kr & Hin & Hp & Hk & _).
  apply list_elem_of_fmap in Hin as (row & -> & _).
  simpl in *. intros E. rewrite <- Hk in E. by rewrite bool_decide_true in Hp.
Qed.

(** The table both listers push when the key lister got through the rows
    of a table that had no keys yet. *)
Lemma settled_well_formed rows table kl :
  keys table = [] →
  run_rows key_step rows {| kl_table := table; unique_but_nullable_keys := ∅ |}
  = Returned kl →
  primary_key_columns (settled_table kl) ≠ [] →
  name (settled_table kl) = name table ∧
  columns (settled_table kl) = columns table ∧
  well_formed (settled_table kl) ∧
  Forall (reported rows) (keys (settled_table kl)).
Proof.
  intros Hk Hrun Hpk.
  destruct (key_run_columns _ _ _ Hrun) as [Hn Hc].
  assert (Forall (λ k, key_columns k ≠ []) (keys (kl_table kl))) as Hpushed.
  { eapply key_run_columns_pushed; [|exact Hrun]. simpl. rewrite Hk. constructor. }
  assert (Forall (reported ([] ++ rows)) (keys (kl_table kl))) as Hrep.
  { eapply key_run_reported; [|exact Hrun]. simpl. rewrite Hk. constructor. }
  simpl in *. repeat split; try done.
  - apply sort_Sorted.
  - simpl. by rewrite sort_Permutation.
  - simpl. by rewrite sort_Permutation.
Qed.

Lemma mysql_table_lister_ends row c :
  let r := MySQL.MySQLTableLister_call row c in
  let columns_sql := "SHOW COLUMNS FROM " +:+ MySQL.string_at row 0 in
  let keys_sql := "SHOW KEYS FROM " +:+ MySQL.string_at row 0 in
  MySQL.open_results (MySQL.mysql r.2) = MySQL.open_results (MySQL.mysql c) ∧
  (MySQL.statements (MySQL.mysql r.2)
   = MySQL.statements (MySQL.mysql c) ++ [columns_sql] ∧ r.1 ≠ Returned () ∨
   MySQL.statements (MySQL.mysql r.2)
   = MySQL.statements (MySQL.mysql c) ++ [columns_sql; keys_sql]) ∧
  match r.1 with
  | Returned _ =>
      ∃ t, tables (MySQL.database r.2) = tables (MySQL.database c) ++ [t] ∧
           name t = MySQL.string_at row 0 ∧ well_formed t ∧
           Forall (λ k, key_name k ≠ "PRIMARY") (keys t)
  | _ => MySQL.database r.2 = MySQL.database c
  end.
Proof.
  unfold MySQL.MySQLTableLister_call, bind.
  cbn [name Table_new].
  pose proof (mysql_query_lift_frame MySQL.MySQLColumnLister_call
                ("SHOW COLUMNS FROM " +:+ MySQL.string_at row 0) false
                (Table_new (MySQL.string_at row 0)) c) as (Hd1 & Hs1 & Ho1).
  pose proof (mysql_query_lift_returned MySQL.MySQLColumnLister_call
                ("SHOW COLUMNS FROM " +:+ MySQL.string_at row 0) false
                (Table_new (MySQL.string_at row 0)) c) as Hr1.
  destruct (MySQL.query ("SHOW COLUMNS FROM " +:+ MySQL.string_at row 0) _ false
              (Table_new (MySQL.string_at row 0)) c) as [[table|w|u] c1];
    cbn [fst snd] in *; [|by auto..].
  destruct (Hr1 table eq_refl) as [rows1 Hrows1].
  rewrite mysql_column_lister_run in Hrows1. injection Hrows1 as <-.
  cbn [name set_columns Table_new].
  match goal with
  | |- context [MySQL.query ?sql ?handler false ?kl c1] =>
      pose proof (mysql_query_lift_frame MySQL.MySQLKeyLister_call sql false kl c1)
        as (Hd2 & Hs2 & Ho2);
      pose proof (mysql_query_lift_returned MySQL.MySQLKeyLister_call sql false kl c1)
        as Hr2;
      destruct (MySQL.query sql handler false kl c1) as [[kl'|w|u] c2]
  end; cbn [fst snd] in *;
    [|(split; [congruence|]; split; [right; rewrite Hs2, Hs1, <- app_assoc; done|];
       congruence)..].
  destruct (Hr2 kl' eq_refl) as [rows2 Hrows2].
  rewrite mysql_key_lister_run in Hrows2.
  change (set_primary_key_columns _ (set_keys sort (kl_table kl')))
    with (settled_table kl').
  destruct (primary_key_columns (settled_table kl')) as [|i pk] eqn:Hpk;
    cbn [throw modify fst snd MySQL.push_table MySQL.mysql MySQL.database tables].
  - split; [congruence|]. split; [right; rewrite Hs2, Hs1, <- app_assoc; done|].
    congruence.
  - split; [congruence|]. split; [right; rewrite Hs2, Hs1, <- app_assoc; done|].
    pose proof (λ Hk, settled_well_formed _ _ _ Hk Hrows2) as Hw.
    destruct Hw as (Hn & _ & Hwf & Hrep); [done|by rewrite Hpk|].
    exists (settled_table kl'). rewrite Hd2, Hd1.
    split; [done|]. split; [done|]. split; [done|].
    eapply Forall_impl; [exact Hrep|]. intros k. apply mysql_reported_not_primary.
Qed.

Lemma pg_table_lister_ends row c :
  let r := PostgreSQL.PostgreSQLTableLister_call row c in
  let table_name := PostgreSQL.string_at row 0 in
  PostgreSQL.open_results (PostgreSQL.conn r.2)
  = PostgreSQL.open_results (PostgreSQL.conn c) ∧
  (∃ more,
     PostgreSQL.statements (PostgreSQL.conn r.2)
     = PostgreSQL.statements (PostgreSQL.conn c)
       ++ PostgreSQL.columns_sql table_name :: more ∧
     (r.1 = Returned () →
      more = [PostgreSQL.primary_key_sql table_name;
              PostgreSQL.keys_sql table_name])) ∧
  match r.1 with
  | Returned _ =>
      ∃ t, tables (PostgreSQL.database r.2)
           = tables (PostgreSQL.database c) ++ [t] ∧
           name t = PostgreSQL.string_at row 0 ∧ well_formed t
  | _ => PostgreSQL.database r.2 = PostgreSQL.database c
  end.
Proof.
  unfold PostgreSQL.PostgreSQLTableLister_call, bind.
  cbn [name Table_new].
  pose proof (pg_query_lift_frame PostgreSQL.PostgreSQLColumnLister_call
                (PostgreSQL.columns_sql (PostgreSQL.string_at row 0))
                (Table_new (PostgreSQL.string_at row 0)) c) as (Hd1 & Hs1 & Ho1).
  pose proof (pg_query_lift_returned PostgreSQL.PostgreSQLColumnLister_call
                (PostgreSQL.columns_sql (PostgreSQL.string_at row 0))
                (Table_new (PostgreSQL.string_at row 0)) c) as Hr1.
  destruct (PostgreSQL.query (PostgreSQL.columns_sql (PostgreSQL.string_at row 0)) _
              (Table_new (PostgreSQL.string_at row 0)) c) as [[table|w|u] c1];
    cbn [fst snd] in *;
    [|(split; [done|]; split; [exists []; by split|done])..].
  destruct (Hr1 table eq_refl) as [rows1 Hrows1].
  rewrite pg_column_lister_run in Hrows1. injection Hrows1 as <-.
  cbn [name set_columns Table_new].
  match goal with
  | |- context [PostgreSQL.query ?sql ?handler ?t c1] =>
      pose proof (pg_query_lift_frame PostgreSQL.PostgreSQLPrimaryKeyLister_call
                    sql t c1) as (Hd2 & Hs2 & Ho2);
      pose proof (pg_query_lift_returned PostgreSQL.PostgreSQLPrimaryKeyLister_call
                    sql t c1) as Hr2;
      destruct (PostgreSQL.query sql handler t c1) as [[table|w|u] c2]
  end; cbn [fst snd] in *;
    [|(split; [congruence|]; split;
       [eexists; split; [rewrite Hs2, Hs1, <- app_assoc; done|done]|congruence])..].
  destruct (Hr2 table eq_refl) as [rows2 Hrows2].
  apply pg_primary_key_lister_run in Hrows2 as (Hn & Hc & Hk & _).
  cbn [name columns keys set_columns Table_new] in Hn, Hc, Hk.
  rewrite Hn.
  match goal with
  | |- context [PostgreSQL.query ?sql ?handler ?kl c2] =>
      pose proof (pg_query_lift_frame PostgreSQL.PostgreSQLKeyLister_call sql kl c2)
        as (Hd3 & Hs3 & Ho3);
      pose proof (pg_query_lift_returned PostgreSQL.PostgreSQLKeyLister_call sql kl c2)
        as Hr3;
      destruct (PostgreSQL.query sql handler kl c2) as [[kl'|w|u] c3]
  end; cbn [fst snd] in *;
    [|(split; [congruence|]; split;
       [eexists; split;
        [rewrite Hs3, Hs2, Hs1, <- !app_assoc; done|done]|congruence])..].
  destruct (Hr3 kl' eq_refl) as [rows3 Hrows3].
  rewrite pg_key_lister_run in Hrows3.
  change (set_primary_key_columns _ (set_keys sort (kl_table kl')))
    with (settled_table kl').
  destruct (primary_key_columns (settled_table kl')) as [|i pk] eqn:Hpk;
    cbn [throw modify fst snd PostgreSQL.push_table PostgreSQL.conn
         PostgreSQL.database tables].
  - split; [congruence|]. split; [|congruence].
    eexists; split; [rewrite Hs3, Hs2, Hs1, <- !app_assoc; done|done].
  - split; [congruence|]. split.
    { eexists; split; [rewrite Hs3, Hs2, Hs1, <- !app_assoc; done|done]. }
    destruct (settled_well_formed _ _ _ Hk Hrows3) as (Hn' & _ & Hwf & _).
    { by rewrite Hpk. }
    exists (settled_table kl'). rewrite Hd3, Hd2, Hd1.
    split; [done|]. split; [|done]. by rewrite Hn'.
Qed.

End listers_any_reply.

Section populate_any_reply.
Context `{decls : Decls}.
Import Catalog Listing.

Local Arguments PostgreSQL.query : simpl never.
Local Arguments MySQL.query : simpl never.
Local Arguments MySQL.MySQLTableLister_call : simpl never.
Local Arguments PostgreSQL.PostgreSQLTableLister_call : simpl never.

Lemma mysql_populate_frame c :
  let c' := (MySQL.populate_database_schema c).2 in
  (∃ ts, tables (MySQL.database c') = tables (MySQL.database c) ++ ts ∧
         Forall well_formed ts) ∧
  MySQL.open_results (MySQL.mysql c') = MySQL.open_results (MySQL.mysql c) ∧
  ∃ more,
    MySQL.statements (MySQL.mysql c')
    = MySQL.statements (MySQL.mysql c)
      ++ "SELECT table_name FROM information_schema.tables WHERE table_schema = schema() ORDER BY data_length DESC, table_name ASC"
      :: more.
Proof.
  unfold MySQL.populate_database_schema.
  match goal with
  | |- context [MySQL.query ?sql ?handler true () c] =>
      destruct (mysql_query_frame
                  (λ db st n,
                     (∃ ts, tables db = tables (MySQL.database c) ++ ts ∧
                            Forall well_formed ts) ∧
                     (∃ more, st = MySQL.statements (MySQL.mysql c) ++ sql :: more) ∧
                     n = S (MySQL.open_results (MySQL.mysql c)))
                  handler sql true () c) as [(Hd & Hs & Ho)|Hq]
  end.
  - intros row [] c0 ((ts & Hts & Hwf) & (more & Hmore) & Hn).
    pose proof (mysql_table_lister_ends row c0) as (Ho & Hs & Hd).
    cbn zeta in Ho, Hs, Hd. split; [|split].
    + destruct (MySQL.MySQLTableLister_call row c0).1.
      * destruct Hd as (t & Ht & _ & Hwft & _). exists (ts ++ [t]).
        rewrite Ht, Hts, app_assoc. split; [done|].
        apply Forall_app. by split; [|constructor].
      * exists ts. by rewrite Hd.
      * exists ts. by rewrite Hd.
    + destruct Hs as [[-> _]| ->]; rewrite Hmore, <- app_assoc; cbn [app]; eauto.
    + by rewrite Ho.
  - cbn zeta. rewrite Hd, Hs, Ho. split; [|split; [done|]].
    + exists []. by rewrite app_nil_r.
    + by exists [].
  - cbn zeta in *. destruct Hq as (n & (Hts & Hmore & ->) & Ho).
    { split; [|split; [|done]].
      - exists []. by rewrite app_nil_r.
      - by exists []. }
    done.
Qed.

Lemma pg_populate_frame c :
  let c' := (PostgreSQL.populate_database_schema c).2 in
  (∃ ts, tables (PostgreSQL.database c') = tables (PostgreSQL.database c) ++ ts ∧
         Forall well_formed ts) ∧
  PostgreSQL.open_results (PostgreSQL.conn c')
  = PostgreSQL.open_results (PostgreSQL.conn c) ∧
  ∃ more,
    PostgreSQL.statements (PostgreSQL.conn c')
    = PostgreSQL.statements (PostgreSQL.conn c)
      ++ ("SELECT tablename " +:+
            "FROM pg_tables " +:+
           "WHERE schemaname = ANY (current_schemas(false)) " +:+
           "ORDER BY pg_relation_size(tablename::text) DESC, tablename ASC")
      :: more.
Proof.
  unfold PostgreSQL.populate_database_schema.
  match goal with
  | |- context [PostgreSQL.query ?sql ?handler () c] =>
      destruct (pg_query_frame
                  (λ db st n,
                     (∃ ts, tables db = tables (PostgreSQL.database c) ++ ts ∧
                            Forall well_formed ts) ∧
                     (∃ more, st = PostgreSQL.statements (PostgreSQL.conn c)
                                   ++ sql :: more) ∧
                     n = match PostgreSQL.result
                                 (PostgreSQL.server (PostgreSQL.conn c) sql) with
                         | Some _ => 1 | None => 0 end
                         + PostgreSQL.open_results (PostgreSQL.conn c))
                  handler sql () c) as (n & (Hts & Hmore & ->) & Ho)
  end.
  - intros row [] c0 ((ts & Hts & Hwf) & (more & Hmore) & Hn).
    pose proof (pg_table_lister_ends row c0) as (Ho & Hs & Hd).
    cbn zeta in Ho, Hs, Hd. split; [|split].
    + destruct (PostgreSQL.PostgreSQLTableLister_call row c0).1.
      * destruct Hd as (t & Ht & _ & Hwft). exists (ts ++ [t]).
        rewrite Ht, Hts, app_assoc. split; [done|].
        apply Forall_app. by split; [|constructor].
      * exists ts. by rewrite Hd.
      * exists ts. by rewrite Hd.
    + destruct Hs as (more' & -> & _). rewrite Hmore, <- app_assoc. cbn [app]. eauto.
    + by rewrite Ho.
  - split; [|split; [|done]].
    + exists []. by rewrite app_nil_r.
    + by exists [].
  - cbn zeta. split; [done|]. split; [|done]. rewrite Ho. lia.
Qed.

End populate_any_reply.

(** X1: a table lister call either pushes one table or leaves the schema as
    it was, on both engines and for every reply of the server: when it
    returns, the schema has one table more, with the name the row gave,
    with primary-key columns, with its keys in order of their names and
    a column in every key; when it throws, or runs into undefined
    behaviour, the schema is unchanged. *)
Theorem table_lister_pushes_well_formed_table `{decls : Decls} :
  (∀ (row : MySQL.MySQLRow) (c : MySQL.MySQLClient),
     match (MySQL.MySQLTableLister_call row c).1 with
     | Returned _ =>
         ∃ t, tables (MySQL.database (MySQL.MySQLTableLister_call row c).2)
              = tables (MySQL.database c) ++ [t] ∧
              name t = MySQL.string_at row 0 ∧ Listing.well_formed t
     | _ => MySQL.database (MySQL.MySQLTableLister_call row c).2 = MySQL.database c
     end) ∧
  (∀ (row : PostgreSQL.PostgreSQLRow) (c : PostgreSQL.PostgreSQLClient),
     match (PostgreSQL.PostgreSQLTableLister_call row c).1 with
     | Returned _ =>
         ∃ t, tables (PostgreSQL.database
                        (PostgreSQL.PostgreSQLTableLister_call row c).2)
              = tables (PostgreSQL.database c) ++ [t] ∧
              name t = PostgreSQL.string_at row 0 ∧ Listing.well_formed t
     | _ => PostgreSQL.database (PostgreSQL.PostgreSQLTableLister_call row c).2
            = PostgreSQL.database c
     end).
Proof.
  split; intros row c.
  - pose proof (mysql_table_lister_ends row c) as (_ & _ & Hd). cbn zeta in Hd.
    destruct (MySQL.MySQLTableLister_call row c).1; [|done..].
    destruct Hd as (t & ? & ? & ? & _). eauto.
  - pose proof (pg_table_lister_ends row c) as (_ & _ & Hd). cbn zeta in Hd.
    by destruct (PostgreSQL.PostgreSQLTableLister_call row c).1.
Qed.

(** X8: on MySQL the key named PRIMARY never shows among the keys of a listed
    table: its columns go to the primary-key columns only. *)
Theorem mysql_primary_key_is_no_key `{decls : Decls}
    (row : MySQL.MySQLRow) (c c' : MySQL.MySQLClient) :
  MySQL.MySQLTableLister_call row c = (Returned (), c') →
  ∃ t, tables (MySQL.database c') = tables (MySQL.database c) ++ [t] ∧
       Forall (λ k, key_name k ≠ "PRIMARY") (keys t).
Proof.
  intros E. pose proof (mysql_table_lister_ends row c) as (_ & _ & Hd).
  cbn zeta in Hd. rewrite E in Hd. destruct Hd as (t & ? & _ & _ & ?). eauto.
Qed.

Lemma mysql_primary_key_is_no_key_witness :
  ∃ t, tables (MySQL.database
                 (@MySQL.MySQLTableLister_call Instances.decls
                    (Samples.My.table_row "orders") (Samples.My.client 50700)).2)
       = [] ++ [t] ∧
       Forall (λ k, key_name k ≠ "PRIMARY") (keys t).
Proof.
  refine (@mysql_primary_key_is_no_key Instances.decls
            (Samples.My.table_row "orders") (Samples.My.client 50700) _ _).
  vm_compute. reflexivity.
Defined.

(** X2: populating the schema only appends tables, and every table it
    appends has primary-key columns, keys in order of their names and a
    column in every key: on both engines, for every reply of the server
    and on every way out. *)
Theorem populate_appends_well_formed_tables `{decls : Decls} :
  (∀ c : MySQL.MySQLClient,
     ∃ ts, tables (MySQL.database (MySQL.populate_database_schema c).2)
           = tables (MySQL.database c) ++ ts ∧
           Forall Listing.well_formed ts) ∧
  (∀ c : PostgreSQL.PostgreSQLClient,
     ∃ ts, tables (PostgreSQL.database (PostgreSQL.populate_database_schema c).2)
           = tables (PostgreSQL.database c) ++ ts ∧
           Forall Listing.well_formed ts).
Proof.
  split; intros c.
  - by destruct (mysql_populate_frame c) as (? & _).
  - by destruct (pg_populate_frame c) as (? & _).
Qed.

(** ** Result handles *)

(** X5: no result handle is left open: [execute], a population of the
    schema, and [query] with any callback that itself leaves none open
    end with as many open handles as they began with, on both engines,
    for every reply of the server and on every way out. *)
Theorem no_result_handle_left_open `{decls : Decls} :
  (∀ (c : MySQL.MySQLClient) sql,
     MySQL.open_results (MySQL.mysql (MySQL.execute sql c).2)
     = MySQL.open_results (MySQL.mysql c)) ∧
  (∀ St (row_handler : MySQL.MySQLRow → St → M MySQL.MySQLClient St)
     sql buffer h (c : MySQL.MySQLClient),
     (∀ row h c,
        MySQL.open_results (MySQL.mysql (row_handler row h c).2)
        = MySQL.open_results (MySQL.mysql c)) →
     MySQL.open_results (MySQL.mysql (MySQL.query sql row_handler buffer h c).2)
     = MySQL.open_results (MySQL.mysql c)) ∧
  (∀ c : MySQL.MySQLClient,
     MySQL.open_results (MySQL.mysql (MySQL.populate_database_schema c).2)
     = MySQL.open_results (MySQL.mysql c)) ∧
  (∀ (c : PostgreSQL.PostgreSQLClient) sql,
     PostgreSQL.open_results (PostgreSQL.conn (PostgreSQL.execute sql c).2)
     = PostgreSQL.open_results (PostgreSQL.conn c)) ∧
  (∀ St (row_handler : PostgreSQL.PostgreSQLRow → St → M PostgreSQL.PostgreSQLClient St)
     sql h (c : PostgreSQL.PostgreSQLClient),
     (∀ row h c,
        PostgreSQL.open_results (PostgreSQL.conn (row_handler row h c).2)
        = PostgreSQL.open_results (PostgreSQL.conn c)) →
     PostgreSQL.open_results (PostgreSQL.conn (PostgreSQL.query sql row_handler h c).2)
     = PostgreSQL.open_results (PostgreSQL.conn c)) ∧
  (∀ c : PostgreSQL.PostgreSQLClient,
     PostgreSQL.open_results (PostgreSQL.conn (PostgreSQL.populate_database_schema c).2)
     = PostgreSQL.open_results (PostgreSQL.conn c)).
Proof.
  split_and!.
  - intros c sql. apply mysql_execute_open_results.
  - intros St row_handler sql buffer h c Hh.
    destruct (mysql_query_frame
                (λ _ _ n, n = S (MySQL.open_results (MySQL.mysql c)))
                row_handler sql buffer h c) as [(_ & _ & ?)|Hq]; [|done|].
    + intros row h0 c0 Hn. by rewrite Hh.
    + destruct Hq as (n & -> & ->); done.
  - intros c. by destruct (mysql_populate_frame c) as (_ & ? & _).
  - intros c sql. apply pg_execute_open_results.
  - intros St row_handler sql h c Hh.
    destruct (pg_query_frame
                (λ _ _ n,
                   n = match PostgreSQL.result
                               (PostgreSQL.server (PostgreSQL.conn c) sql) with
                       | Some _ => 1 | None => 0 end
                       + PostgreSQL.open_results (PostgreSQL.conn c))
                row_handler sql h c) as (n & -> & Ho); [|done|].
    + intros row h0 c0 Hn. by rewrite Hh.
    + cbn zeta in Ho. rewrite Ho. lia.
  - intros c. by destruct (pg_populate_frame c) as (_ & ? & _).
Qed.

Lemma no_result_handle_left_open_witness :
  MySQL.open_results
    (MySQL.mysql (MySQL.query "SELECT id FROM orders" Samples.collect_mysql true []
                    (Samples.My.client 50700)).2) = 0 ∧
  PostgreSQL.open_results
    (PostgreSQL.conn (PostgreSQL.query "SELECT nothing" Samples.collect_pg []
                        Samples.Pg.client).2) = 0.
Proof.
  split.
  - apply (proj1 (proj2 (@no_result_handle_left_open Instances.decls))
             _ Samples.collect_mysql "SELECT id FROM orders" true []
             (Samples.My.client 50700)).
    intros row h c. reflexivity.
  - apply (proj1 (proj2 (proj2 (proj2 (proj2 (@no_result_handle_left_open
                                               Instances.decls)))))
             _ Samples.collect_pg "SELECT nothing" [] Samples.Pg.client).
    intros row h c. reflexivity.
Defined.

(** ** A query as a loop over the rows of its result *)

Section stored_rows.
Import Catalog Listing.

Lemma discard_rows_buffered n r my :
  MySQL.res_streaming r = false → MySQL.res_error r = None →
  (MySQL.discard_rows n r my).2 = my.
Proof.
  revert r. induction n as [|n IH]; intros r Hs He; simpl; [done|].
  unfold MySQL.mysql_fetch_row. destruct (MySQL.res_rows r) as [|row rest]; simpl.
  - by rewrite He.
  - rewrite Hs. by apply IH.
Qed.

Lemma fetch_rows_buffered {St}
    (row_handler : MySQL.MySQLRow → St → M MySQL.MySQLClient St) rows :
  ∀ r res h c n,
    MySQL._res res = Some r → MySQL.res_rows r = rows →
    MySQL.res_streaming r = false → MySQL.res_error r = None →
    length rows < n →
    ∃ r',
      MySQL.fetch_rows n row_handler res h c
      = ((for_rows row_handler (MySQL.MySQLRow_new res <$> rows) h c).1,
         MySQL.set_res (Some r') res,
         (for_rows row_handler (MySQL.MySQLRow_new res <$> rows) h c).2) ∧
      MySQL.res_streaming r' = false ∧ MySQL.res_error r' = None.
Proof.
  induction rows as [|row rest IH]; intros r res h c n R Rows Hs He Hn;
    (destruct n as [|n]; [simpl in Hn; lia|]); simpl; rewrite R;
    unfold MySQL.mysql_fetch_row; rewrite Rows, ?Hs, ?He.
  - exists r. by destruct c.
  - replace (MySQL.set_mysql (MySQL.mysql c) c) with c by (by destruct c).
    change (MySQL.MySQLRow_new (MySQL.set_res _ res) row)
      with (MySQL.MySQLRow_new res row).
    destruct (row_handler (MySQL.MySQLRow_new res row) h c) as [[h'|w|u] c'];
      simpl; [|by exists (MySQL.set_res_rows rest r)..].
    destruct (IH (MySQL.set_res_rows rest r)
                (MySQL.set_res (Some (MySQL.set_res_rows rest r)) res) h' c' n)
      as (r' & E & ? & ?); try done.
    { simpl in Hn. lia. }
    exists r'. by rewrite E.
Qed.

Lemma each_row_for_rows {St}
    (row_handler : PostgreSQL.PostgreSQLRow → St → M PostgreSQL.PostgreSQLClient St)
    res row_numbers h c :
  PostgreSQL.each_row row_handler res row_numbers h c
  = for_rows row_handler
      ((λ n, {| PostgreSQL.row_res := res; PostgreSQL._row_number := n |})
         <$> row_numbers) h c.
Proof.
  revert h c. induction row_numbers as [|n ns IH]; intros h c; simpl; [done|].
  destruct (row_handler _ h c) as [[h'|w|u] c']; by rewrite ?IH.
Qed.

Local Arguments MySQL.fetch_rows : simpl never.
Local Arguments MySQL.MySQLRes_delete : simpl never.
Local Arguments for_rows : simpl never.

Lemma mysql_query_buffered {St}
    (row_handler : MySQL.MySQLRow → St → M MySQL.MySQLClient St) sql h c rs :
  MySQL.unread (MySQL.mysql c) = [] →
  mysql_answers c sql rs →
  let stored :=
    MySQL.set_mysql
      (MySQL.mysql_store_result (MySQL.mysql_real_query (MySQL.mysql c) sql).2).2 c in
  let r := for_rows row_handler (mysql_rows rs) h stored in
  ∃ res,
    MySQL.query sql row_handler true h c =
      (h' ← r.1;
       if MySQL.mysql_errno (MySQL.mysql r.2)
       then Thrown (MySQL.statement_error (MySQL.mysql r.2) sql)
       else Returned h',
       MySQL.set_mysql (MySQL.mysql_free_result res (MySQL.mysql r.2)) r.2).
Proof.
  intros Hu [Hsrv Herr]. cbn zeta. unfold MySQL.query.
  rewrite (mysql_real_query_accepted _ _ _ Hsrv). cbn [snd].
  rewrite bool_decide_false by (intros N; by apply N).
  unfold MySQL.MySQLRes_new, MySQL.mysql_store_result. cbn [MySQL.pending MySQL.sent].
  rewrite Herr. cbn [MySQL.mysql_num_rows MySQL.mysql_num_fields mbind outcome_bind
                     mret outcome_ret MySQL.res_streaming MySQL.res_rows
                     MySQL.unread MySQL.sent snd].
  rewrite Hu. cbn [app].
  match goal with
  | |- context [MySQL.fetch_rows ?n row_handler ?res h ?c1] =>
      destruct (fetch_rows_buffered row_handler (MySQL.rs_rows rs)
                  {| MySQL.res_fields := MySQL.rs_fields rs;
                     MySQL.res_rows := MySQL.rs_rows rs;
                     MySQL.res_error := None; MySQL.res_streaming := false |}
                  res h c1 n) as (r' & E & Hs' & He'); try done
  end.
  { unfold MySQL.rows_left. simpl. lia. }
  rewrite E. clear E.
  change (MySQL.MySQLRow_new _ <$> MySQL.rs_rows rs) with (mysql_rows rs).
  match goal with
  | |- context [for_rows row_handler (mysql_rows rs) h ?c1] =>
      destruct (for_rows row_handler (mysql_rows rs) h c1) as [o c2]
  end.
  exists r'. cbn [fst snd]. f_equal. f_equal.
  unfold MySQL.MySQLRes_delete. cbn [MySQL._res MySQL.set_res].
  pose proof (discard_rows_buffered (S (length (MySQL.res_rows r'))) r'
                (MySQL.mysql c2) Hs' He') as Hd.
  destruct (MySQL.discard_rows _ r' (MySQL.mysql c2)) as [r2 my2].
  simpl in Hd. by subst my2.
Qed.

End stored_rows.

(** X4: a query hands its callback the rows of the result, in order, until a
    call does not return.  On MySQL with a stored result (and nothing
    unread on the connection before) the callback may use the connection
    for statements of its own; the error check that follows reads the
    connection as the callback left it, and the handle is freed on every
    way out.  On PostgreSQL the result is cleared on every way out. *)
Theorem query_runs_callback_over_result_rows :
  (∀ St (row_handler : MySQL.MySQLRow → St → M MySQL.MySQLClient St)
     sql h (c : MySQL.MySQLClient) rs,
     MySQL.unread (MySQL.mysql c) = [] →
     Catalog.mysql_answers c sql rs →
     let stored :=
       MySQL.set_mysql
         (MySQL.mysql_store_result
            (MySQL.mysql_real_query (MySQL.mysql c) sql).2).2 c in
     let r := Listing.for_rows row_handler (Catalog.mysql_rows rs) h stored in
     ∃ res,
       MySQL.query sql row_handler true h c =
         (h' ← r.1;
          if MySQL.mysql_errno (MySQL.mysql r.2)
          then Thrown (MySQL.statement_error (MySQL.mysql r.2) sql)
          else Returned h',
          MySQL.set_mysql (MySQL.mysql_free_result res (MySQL.mysql r.2)) r.2)) ∧
  (∀ St (row_handler : PostgreSQL.PostgreSQLRow → St → M PostgreSQL.PostgreSQLClient St)
     sql h (c : PostgreSQL.PostgreSQLClient) r,
     Catalog.pg_answers c sql r →
     PostgreSQL.query sql row_handler h c =
       PostgreSQL.leave (PostgreSQL.PostgreSQLRes_new (Some r))
         (Listing.for_rows row_handler (Catalog.pg_rows r) h
            (PostgreSQL.set_conn (PostgreSQL.PQexec (PostgreSQL.conn c) sql).2 c))).
Proof.
  split.
  - intros. by apply mysql_query_buffered.
  - intros St row_handler sql h c r [Hr Hst].
    by rewrite (pg_query_tuples _ _ _ _ _ Hr Hst), each_row_for_rows.
Qed.

Lemma query_runs_callback_over_result_rows_witness :
  (∃ res,
     MySQL.query "SELECT id FROM orders" Samples.collect_mysql true []
       (Samples.My.client 50700) =
       (Returned ["5"; "6"; "9"],
        MySQL.set_mysql
          (MySQL.mysql_free_result res
             (MySQL.mysql_store_result
                (MySQL.mysql_real_query (Samples.My.connection 50700)
                   "SELECT id FROM orders").2).2)
          (Samples.My.client 50700))) ∧
  (PostgreSQL.query "SELECT id FROM orders" Samples.collect_pg [] Samples.Pg.client).1
  = Returned ["5"; "6"; "9"].
Proof.
  split.
  - destruct (proj1 query_runs_callback_over_result_rows _ Samples.collect_mysql
                "SELECT id FROM orders" [] (Samples.My.client 50700)
                (Samples.My.result_set 1
                   [Samples.text ["5"]; Samples.text ["6"]; Samples.text ["9"]])
                eq_refl) as [res E].
    + split; reflexivity.
    + exists res. exact E.
  - rewrite (proj2 query_runs_callback_over_result_rows _ Samples.collect_pg
               "SELECT id FROM orders" [] Samples.Pg.client
               (Samples.Pg.tuples_ok 1
                  [Samples.text ["5"]; Samples.text ["6"]; Samples.text ["9"]])).
    + reflexivity.
    + split; reflexivity.
Defined.

Section listed_order.
Context `{decls : Decls}.
Import Catalog Listing.

Local Arguments MySQL.MySQLTableLister_call : simpl never.
Local Arguments PostgreSQL.PostgreSQLTableLister_call : simpl never.

Lemma mysql_for_rows_tables rows :
  ∀ c,
    let r := for_rows (λ row (_ : unit), MySQL.MySQLTableLister_call row) rows () c in
    ∃ listed,
      name <$> tables (MySQL.database r.2)
      = (name <$> tables (MySQL.database c)) ++ ((λ row, MySQL.string_at row 0) <$> listed) ∧
      listed `prefix_of` rows ∧
      (r.1 = Returned () → listed = rows).
Proof.
  induction rows as [|row rest IH]; intros c; simpl.
  { exists []. by rewrite app_nil_r. }
  pose proof (mysql_table_lister_ends row c) as (_ & _ & Hd). cbn zeta in Hd.
  destruct (MySQL.MySQLTableLister_call row c) as [[[]|w|u] c1]; simpl in *.
  - destruct Hd as (t & Ht & Hn & _).
    destruct (IH c1) as (listed & Hl & Hp & Hr).
    exists (row :: listed). split; [|split].
    + rewrite Hl, Ht, fmap_app, <- app_assoc. simpl. by rewrite Hn.
    + by apply prefix_cons.
    + intros E. by rewrite (Hr E).
  - exists []. rewrite Hd, app_nil_r. split; [done|]. split; [apply prefix_nil|done].
  - exists []. rewrite Hd, app_nil_r. split; [done|]. split; [apply prefix_nil|done].
Qed.

Lemma pg_for_rows_tables rows :
  ∀ c,
    let r := for_rows (λ row (_ : unit), PostgreSQL.PostgreSQLTableLister_call row)
               rows () c in
    ∃ listed,
      name <$> tables (PostgreSQL.database r.2)
      = (name <$> tables (PostgreSQL.database c))
        ++ ((λ row, PostgreSQL.string_at row 0) <$> listed) ∧
      listed `prefix_of` rows ∧
      (r.1 = Returned () → listed = rows).
Proof.
  induction rows as [|row rest IH]; intros c; simpl.
  { exists []. by rewrite app_nil_r. }
  pose proof (pg_table_lister_ends row c) as (_ & _ & Hd). cbn zeta in Hd.
  destruct (PostgreSQL.PostgreSQLTableLister_call row c) as [[[]|w|u] c1]; simpl in *.
  - destruct Hd as (t & Ht & Hn & _).
    destruct (IH c1) as (listed & Hl & Hp & Hr).
    exists (row :: listed). split; [|split].
    + rewrite Hl, Ht, fmap_app, <- app_assoc. simpl. by rewrite Hn.
    + by apply prefix_cons.
    + intros E. by rewrite (Hr E).
  - exists []. rewrite Hd, app_nil_r. split; [done|]. split; [apply prefix_nil|done].
  - exists []. rewrite Hd, app_nil_r. split; [done|]. split; [apply prefix_nil|done].
Qed.

End listed_order.

(** X3: the schema lists the tables in the order the server reported them:
    the names of the tables a population appends are the names in a
    leading part of the rows of the table query, in the same order, and
    in all of them when the population returns. *)
Theorem populate_lists_tables_in_reported_order `{decls : Decls} :
  (∀ (c : MySQL.MySQLClient) rs,
     MySQL.unread (MySQL.mysql c) = [] →
     Catalog.mysql_answers c
       "SELECT table_name FROM information_schema.tables WHERE table_schema = schema() ORDER BY data_length DESC, table_name ASC"
       rs →
     let r := MySQL.populate_database_schema c in
     ∃ listed,
       name <$> tables (MySQL.database r.2)
       = (name <$> tables (MySQL.database c))
         ++ ((λ row, MySQL.string_at row 0) <$> listed) ∧
       listed `prefix_of` Catalog.mysql_rows rs ∧
       (r.1 = Returned () → listed = Catalog.mysql_rows rs)) ∧
  (∀ (c : PostgreSQL.PostgreSQLClient) res,
     Catalog.pg_answers c
       ("SELECT tablename " +:+
          "FROM pg_tables " +:+
         "WHERE schemaname = ANY (current_schemas(false)) " +:+
         "ORDER BY pg_relation_size(tablename::text) DESC, tablename ASC")
       res →
     let r := PostgreSQL.populate_database_schema c in
     ∃ listed,
       name <$> tables (PostgreSQL.database r.2)
       = (name <$> tables (PostgreSQL.database c))
         ++ ((λ row, PostgreSQL.string_at row 0) <$> listed) ∧
       listed `prefix_of` Catalog.pg_rows res ∧
       (r.1 = Returned () → listed = Catalog.pg_rows res)).
Proof.
  split.
  - intros c rs Hu Ha. cbn zeta. unfold MySQL.populate_database_schema.
    destruct (mysql_query_buffered
                (λ row (_ : unit), MySQL.MySQLTableLister_call row) _ () c rs Hu Ha)
      as [res ->].
    match goal with
    | |- context [Listing.for_rows ?handler (Catalog.mysql_rows rs) () ?c1] =>
        destruct (mysql_for_rows_tables (Catalog.mysql_rows rs) c1)
          as (listed & Hl & Hp & Hr);
        destruct (Listing.for_rows handler (Catalog.mysql_rows rs) () c1) as [o c2]
    end.
    exists listed. cbn [fst snd] in *. split; [done|]. split; [done|].
    intros E. apply Hr. by destruct o as [[]| |].
  - intros c res Ha. cbn zeta. unfold PostgreSQL.populate_database_schema.
    destruct Ha as [Hr Hst].
    rewrite (pg_query_tuples _ _ _ _ _ Hr Hst), each_row_for_rows.
    unfold PostgreSQL.leave.
    match goal with
    | |- context [Listing.for_rows ?handler ?rows () ?c1] =>
        destruct (pg_for_rows_tables rows c1) as (listed & Hl & Hp & Hr');
        destruct (Listing.for_rows handler rows () c1) as [o c2]
    end.
    exists listed. cbn [fst snd] in *. by split.
Qed.

Lemma populate_lists_tables_in_reported_order_witness :
  (∃ listed,
     name <$> tables (MySQL.database
                        (@MySQL.populate_database_schema Instances.decls
                           (Samples.My.client 50700)).2)
     = [] ++ ((λ row, MySQL.string_at row 0) <$> listed) ∧
     listed `prefix_of`
       Catalog.mysql_rows
         (Samples.My.result_set 1 [Samples.text ["orders"]; Samples.text ["sessions"]]) ∧
     ((@MySQL.populate_database_schema Instances.decls (Samples.My.client 50700)).1
      = Returned () →
      listed = Catalog.mysql_rows
                 (Samples.My.result_set 1
                    [Samples.text ["orders"]; Samples.text ["sessions"]]))) ∧
  (@MySQL.populate_database_schema Instances.decls (Samples.My.client 50700)).1
  = Returned ().
Proof.
  split.
  - apply (proj1 (@populate_lists_tables_in_reported_order Instances.decls)
             (Samples.My.client 50700)
             (Samples.My.result_set 1
                [Samples.text ["orders"]; Samples.text ["sessions"]]) eq_refl).
    split; reflexivity.
  - vm_compute. reflexivity.
Defined.

(** ** The keys a key lister builds *)

Section grouping.
Context `{decls : Decls}.
Import Catalog Listing.

Lemma key_step_first kr self self' i :
  index_of_column (columns (kl_table self)) (kr_column kr) = Returned i →
  kr_primary kr = false →
  keys (kl_table self) = [] →
  key_step kr self = Returned self' →
  keys (kl_table self') = [first_key kr i].
Proof.
  intros Hi Hp Hk. unfold key_step. rewrite Hi, Hp, Hk. simpl.
  intros [= <-]. simpl. by rewrite Hk.
Qed.

Lemma key_step_next kr self self' i front k :
  index_of_column (columns (kl_table self)) (kr_column kr) = Returned i →
  kr_primary kr = false →
  keys (kl_table self) = front ++ [k] →
  key_step kr self = Returned self' →
  keys (kl_table self') =
    if bool_decide (kr_key kr = key_name k)
    then front ++ [push_column i k]
    else front ++ [k; first_key kr i].
Proof.
  intros Hi Hp Hk. unfold key_step. rewrite Hi, Hp, Hk, last_snoc. simpl.
  intros [= <-]. simpl.
  destruct (decide (kr_key kr = key_name k)) as [E|E].
  - rewrite (bool_decide_true (kr_key kr = key_name k)) by done.
    rewrite (bool_decide_false (key_name k ≠ kr_key kr)) by (intros N; by apply N).
    simpl. by rewrite Hk, alter_back_snoc.
  - rewrite (bool_decide_false (kr_key kr = key_name k)) by done.
    rewrite (bool_decide_true (key_name k ≠ kr_key kr)) by (intros N; by apply E).
    simpl. rewrite Hk.
    change (front ++ [k; first_key kr i])
      with (front ++ [k] ++ [push_column i (Key_new (kr_key kr) (kr_unique kr))]).
    by rewrite app_assoc, alter_back_snoc.
Qed.

Lemma grouped_attached kr i entries :
  grouped ((kr, i) :: entries) = attached (first_key kr i) entries.
Proof.
  simpl. unfold attached.
  destruct (leading entries), (grouped entries); simpl; try done;
    by case_bool_decide.
Qed.

Lemma attached_same k kr i entries :
  kr_key kr = key_name k →
  attached k ((kr, i) :: entries) = attached (push_column i k) entries.
Proof.
  intros E. unfold attached at 1. rewrite grouped_attached. unfold attached.
  simpl. rewrite bool_decide_true by done.
  destruct (leading entries), (grouped entries); simpl; try done.
  case_bool_decide as E'; simpl.
  - rewrite bool_decide_true by congruence. by rewrite <- app_assoc.
  - by rewrite bool_decide_false by congruence.
Qed.

Lemma attached_other k kr i entries :
  kr_key kr ≠ key_name k →
  attached k ((kr, i) :: entries) = k :: attached (first_key kr i) entries.
Proof.
  intros E. unfold attached at 1. rewrite grouped_attached. unfold attached.
  simpl. rewrite bool_decide_false by done.
  destruct (leading entries), (grouped entries); simpl; try done.
  by case_bool_decide.
Qed.

Lemma key_run_attached rows :
  ∀ self front k kl,
    keys (kl_table self) = front ++ [k] →
    run_rows key_step rows self = Returned kl →
    ∃ indices,
      Forall2 (λ kr i, index_of_column (columns (kl_table self)) (kr_column kr)
                       = Returned i)
              (filter (λ kr, kr_primary kr = false) rows) indices ∧
      keys (kl_table kl)
      = front ++ attached k (zip (filter (λ kr, kr_primary kr = false) rows) indices).
Proof.
  induction rows as [|kr rows IH]; intros self front k kl Hk; simpl.
  { intros [= <-]. exists []. split; [constructor|done]. }
  destruct (key_step kr self) as [self1| |] eqn:Hstep; [|done..]. intros Hrun.
  destruct (key_step_returned _ _ _ Hstep) as (i & Hi & _ & Hc & Hrest).
  destruct (kr_primary kr) eqn:Hp.
  - destruct Hrest as (_ & Hk1 & _).
    destruct (IH self1 front k kl) as (indices & HF & Hkl); [congruence|done|].
    rewrite Hc in HF.
    exists indices. by rewrite filter_cons_False by (by rewrite Hp).
  - rewrite filter_cons_True by done.
    pose proof (key_step_next _ _ _ _ _ _ Hi Hp Hk Hstep) as Hk1.
    case_bool_decide as E.
    + destruct (IH self1 front (push_column i k) kl Hk1 Hrun) as (indices & HF & Hkl).
      rewrite Hc in HF.
      exists (i :: indices). split; [by constructor|].
      simpl. by rewrite attached_same.
    + destruct (IH self1 (front ++ [k]) (first_key kr i) kl) as (indices & HF & Hkl);
        [by rewrite Hk1, <- app_assoc|done|].
      rewrite Hc in HF.
      exists (i :: indices). split; [by constructor|].
      simpl. by rewrite attached_other, Hkl, <- app_assoc.
Qed.

Lemma key_run_grouped rows :
  ∀ self kl,
    keys (kl_table self) = [] →
    run_rows key_step rows self = Returned kl →
    ∃ indices,
      Forall2 (λ kr i, index_of_column (columns (kl_table self)) (kr_column kr)
                       = Returned i)
              (filter (λ kr, kr_primary kr = false) rows) indices ∧
      keys (kl_table kl)
      = grouped (zip (filter (λ kr, kr_primary kr = false) rows) indices).
Proof.
  induction rows as [|kr rows IH]; intros self kl Hk; simpl.
  { intros [= <-]. exists []. split; [constructor|done]. }
  destruct (key_step kr self) as [self1| |] eqn:Hstep; [|done..]. intros Hrun.
  destruct (key_step_returned _ _ _ Hstep) as (i & Hi & _ & Hc & Hrest).
  destruct (kr_primary kr) eqn:Hp.
  - destruct Hrest as (_ & Hk1 & _).
    destruct (IH self1 kl) as (indices & HF & Hkl); [congruence|done|].
    rewrite Hc in HF.
    exists indices. by rewrite filter_cons_False by (by rewrite Hp).
  - rewrite filter_cons_True by done.
    pose proof (key_step_first _ _ _ _ Hi Hp Hk Hstep) as Hk1.
    destruct (key_run_attached rows self1 [] (first_key kr i) kl Hk1 Hrun)
      as (indices & HF & Hkl).
    rewrite Hc in HF.
    exists (i :: indices). split; [by constructor|].
    simpl zip. by rewrite grouped_attached.
Qed.

Lemma pg_key_rows_all (rows : list PostgreSQL.PostgreSQLRow) :
  filter (λ kr, kr_primary kr = false) (pg_key_row <$> rows) = pg_key_row <$> rows.
Proof.
  induction rows as [|row rows IH]; [done|].
  rewrite fmap_cons, filter_cons_True by done. by rewrite IH.
Qed.

Lemma key_run_marks_nothing rows :
  ∀ self kl,
    primary_key_columns (kl_table self) ≠ [] →
    run_rows key_step rows self = Returned kl →
    unique_but_nullable_keys kl = unique_but_nullable_keys self.
Proof.
  induction rows as [|kr rows IH]; intros self kl Hpk; simpl.
  { by intros [= <-]. }
  destruct (key_step kr self) as [self1| |] eqn:Hstep; [|done..]. intros Hrun.
  destruct (key_step_returned _ _ _ Hstep) as (i & _ & _ & _ & Hrest).
  destruct (kr_primary kr).
  - destruct Hrest as (Hpk1 & _ & Hm). rewrite <- Hm. apply IH; [|done].
    rewrite Hpk1. by destruct (primary_key_columns (kl_table self)).
  - destruct Hrest as (Hpk1 & _ & Hm).
    destruct (primary_key_columns (kl_table self)) eqn:E; [done|].
    rewrite <- Hm. apply IH; [|done]. by rewrite Hpk1.
Qed.

End grouping.

(** X6: the keys of a table are the rows of the key query grouped as they
    come: the rows of the primary key apart, a run of neighbouring rows
    with one key name makes one key, which has the uniqueness flag of the
    first row of the run and, in the order of the rows, the indices
    [index_of_column] gave for their columns.  (Rows of one key that are
    not neighbours make two keys of that name.) *)
Theorem key_lister_groups_neighbouring_rows `{decls : Decls} :
  (∀ (rows : list MySQL.MySQLRow) (table : Table) kl,
     keys table = [] →
     run_rows MySQL.MySQLKeyLister_call rows (MySQL.MySQLKeyLister_new table)
     = Returned kl →
     let key_rows :=
       filter (λ kr, Catalog.kr_primary kr = false) (Catalog.mysql_key_row <$> rows) in
     ∃ indices,
       Forall2 (λ kr i, index_of_column (columns table) (Catalog.kr_column kr)
                        = Returned i) key_rows indices ∧
       keys (kl_table kl) = Listing.grouped (zip key_rows indices)) ∧
  (∀ (rows : list PostgreSQL.PostgreSQLRow) (table : Table) kl,
     keys table = [] →
     run_rows PostgreSQL.PostgreSQLKeyLister_call rows
       (PostgreSQL.PostgreSQLKeyLister_new table) = Returned kl →
     let key_rows := Catalog.pg_key_row <$> rows in
     ∃ indices,
       Forall2 (λ kr i, index_of_column (columns table) (Catalog.kr_column kr)
                        = Returned i) key_rows indices ∧
       keys (kl_table kl) = Listing.grouped (zip key_rows indices)).
Proof.
  split; intros rows table kl Hk Hrun; cbn zeta.
  - rewrite mysql_key_lister_run in Hrun.
    by apply key_run_grouped in Hrun.
  - rewrite pg_key_lister_run in Hrun.
    apply key_run_grouped in Hrun; [|done]. by rewrite pg_key_rows_all in Hrun.
Qed.

Lemma key_lister_groups_neighbouring_rows_witness :
  (∃ indices,
     Forall2 (λ kr i,
                @index_of_column Instances.decls
                  (columns (Catalog.mysql_listed (Samples.My.table_row "sessions")
                              Samples.My.sessions_columns))
                  (Catalog.kr_column kr) = Returned i)
       (filter (λ kr, Catalog.kr_primary kr = false)
          (Catalog.mysql_key_row <$> Catalog.mysql_rows Samples.My.sessions_keys))
       indices ∧
     [ {| key_name := "by_user"; unique := true; key_columns := [1; 2] |};
       {| key_name := "by_token"; unique := true; key_columns := [0] |} ]
     = Listing.grouped
         (zip (filter (λ kr, Catalog.kr_primary kr = false)
                 (Catalog.mysql_key_row <$> Catalog.mysql_rows Samples.My.sessions_keys))
              indices)).
Proof.
  apply (proj1 (@key_lister_groups_neighbouring_rows Instances.decls)
           (Catalog.mysql_rows Samples.My.sessions_keys)
           (Catalog.mysql_listed (Samples.My.table_row "sessions")
              Samples.My.sessions_columns)
           {| kl_table :=
                set_keys
                  (λ _, [ {| key_name := "by_user"; unique := true;
                             key_columns := [1; 2] |};
                          {| key_name := "by_token"; unique := true;
                             key_columns := [0] |} ])
                  (Catalog.mysql_listed (Samples.My.table_row "sessions")
                     Samples.My.sessions_columns);
              unique_but_nullable_keys := {[ "by_token" ]} ∪ ∅ |}).
  - reflexivity.
  - reflexivity.
Defined.

(** X7: once the table has primary-key columns, a key lister marks no key as
    unique but nullable any more: the set of those names stays as it is
    through all further rows. *)
Theorem no_key_marked_once_primary_key_known `{decls : Decls} :
  (∀ (rows : list MySQL.MySQLRow) (self kl : MySQL.MySQLKeyLister),
     primary_key_columns (kl_table self) ≠ [] →
     run_rows MySQL.MySQLKeyLister_call rows self = Returned kl →
     unique_but_nullable_keys kl = unique_but_nullable_keys self) ∧
  (∀ (rows : list PostgreSQL.PostgreSQLRow) (self kl : PostgreSQL.PostgreSQLKeyLister),
     primary_key_columns (kl_table self) ≠ [] →
     run_rows PostgreSQL.PostgreSQLKeyLister_call rows self = Returned kl →
     unique_but_nullable_keys kl = unique_but_nullable_keys self).
Proof.
  split; intros rows self kl Hpk Hrun.
  - rewrite mysql_key_lister_run in Hrun. by eapply key_run_marks_nothing.
  - rewrite pg_key_lister_run in Hrun. by eapply key_run_marks_nothing.
Qed.

Lemma no_key_marked_once_primary_key_known_witness :
  ∃ kl,
    run_rows (@MySQL.MySQLKeyLister_call Instances.decls)
      (Catalog.mysql_rows Samples.My.sessions_keys)
      {| kl_table :=
           set_primary_key_columns (λ _, [0])
             (Catalog.mysql_listed (Samples.My.table_row "sessions")
                Samples.My.sessions_columns);
         unique_but_nullable_keys := ∅ |} = Returned kl ∧
    unique_but_nullable_keys kl = ∅.
Proof.
  eexists. split; [reflexivity|].
  eapply (proj1 (@no_key_marked_once_primary_key_known Instances.decls)
            (Catalog.mysql_rows Samples.My.sessions_keys)
            {| kl_table :=
                 set_primary_key_columns (λ _, [0])
                   (Catalog.mysql_listed (Samples.My.table_row "sessions")
                      Samples.My.sessions_columns);
               unique_but_nullable_keys := ∅ |}).
  - simpl. discriminate.
  - reflexivity.
Defined.

(** ** Failures on the way *)

Section lookups.
Context `{decls : Decls}.
Import Catalog.

Lemma run_rows_app {R St} (f : R → St → outcome St) rows1 rows2 s :
  run_rows f (rows1 ++ rows2) s =
    match run_rows f rows1 s with
    | Returned s' => run_rows f rows2 s'
    | Thrown w => Thrown w
    | Undefined u => Undefined u
    end.
Proof.
  revert s. induction rows1 as [|row rows1 IH]; intros s; simpl; [done|].
  by destruct (f row s).
Qed.

Lemma key_run_lookup_thrown before kr after self w :
  Forall (λ kr, ∃ i, index_of_column (columns (kl_table self)) (kr_column kr)
                     = Returned i) before →
  index_of_column (columns (kl_table self)) (kr_column kr) = Thrown w →
  run_rows key_step (before ++ kr :: after) self = Thrown w.
Proof.
  intros Hb Hw. rewrite run_rows_app.
  destruct (key_run_returns before self Hb) as [self' E]. rewrite E.
  destruct (key_run_columns _ _ _ E) as [_ Hc].
  simpl. unfold key_step. by rewrite Hc, Hw.
Qed.

Lemma pg_primary_key_lister_thrown before row after w :
  ∀ table,
    Forall (λ r, ∃ i, index_of_column (columns table) (PostgreSQL.string_at r 0)
                      = Returned i) before →
    index_of_column (columns table) (PostgreSQL.string_at row 0) = Thrown w →
    run_rows PostgreSQL.PostgreSQLPrimaryKeyLister_call (before ++ row :: after) table
    = Thrown w.
Proof.
  induction before as [|r before IH]; intros table Hb Hw; simpl.
  { unfold PostgreSQL.PostgreSQLPrimaryKeyLister_call. by rewrite Hw. }
  apply Forall_cons in Hb as [[i Hi] Hb].
  unfold PostgreSQL.PostgreSQLPrimaryKeyLister_call at 1. rewrite Hi. simpl.
  by apply IH.
Qed.

Lemma mysql_execute_accepted c sql r :
  MySQL.server (MySQL.mysql c) sql = MySQL.Accepted r →
  ∃ my,
    MySQL.execute sql c = (Returned (), MySQL.set_mysql my c) ∧
    MySQL.statements my = MySQL.statements (MySQL.mysql c) ++ [sql] ∧
    MySQL.server my = MySQL.server (MySQL.mysql c) ∧
    MySQL.server_version my = MySQL.server_version (MySQL.mysql c) ∧
    MySQL.open_results my = MySQL.open_results (MySQL.mysql c).
Proof.
  intros E. unfold MySQL.execute, MySQL.mysql_real_query. rewrite E.
  destruct r; simpl; eauto 10.
Qed.

End lookups.

(** X9: a key on a column that the column query did not report ends the
    table lister with what [index_of_column] throws for it, and the
    schema gets no table: on MySQL for a row of the key query, on
    PostgreSQL for a row of the primary-key query. *)
Theorem unknown_key_column_is_fatal `{decls : Decls} :
  (∀ (c : MySQL.MySQLClient) row cols ks before kr after w,
     MySQL.unread (MySQL.mysql c) = [] →
     Catalog.mysql_answers c ("SHOW COLUMNS FROM " +:+ MySQL.string_at row 0) cols →
     Catalog.mysql_answers c ("SHOW KEYS FROM " +:+ MySQL.string_at row 0) ks →
     Catalog.mysql_key_row <$> Catalog.mysql_rows ks = before ++ kr :: after →
     Forall (λ kr, ∃ i, index_of_column (columns (Catalog.mysql_listed row cols))
                          (Catalog.kr_column kr) = Returned i) before →
     index_of_column (columns (Catalog.mysql_listed row cols)) (Catalog.kr_column kr)
     = Thrown w →
     (MySQL.MySQLTableLister_call row c).1 = Thrown w ∧
     MySQL.database (MySQL.MySQLTableLister_call row c).2 = MySQL.database c) ∧
  (∀ (c : PostgreSQL.PostgreSQLClient) row cols pk ks before r after w,
     Catalog.pg_answers c (PostgreSQL.columns_sql (PostgreSQL.string_at row 0)) cols →
     Catalog.pg_answers c (PostgreSQL.primary_key_sql (PostgreSQL.string_at row 0)) pk →
     Catalog.pg_answers c (PostgreSQL.keys_sql (PostgreSQL.string_at row 0)) ks →
     Catalog.pg_rows pk = before ++ r :: after →
     Forall (λ r, ∃ i, index_of_column (columns (Catalog.pg_listed row cols))
                         (PostgreSQL.string_at r 0) = Returned i) before →
     index_of_column (columns (Catalog.pg_listed row cols)) (PostgreSQL.string_at r 0)
     = Thrown w →
     (PostgreSQL.PostgreSQLTableLister_call row c).1 = Thrown w ∧
     PostgreSQL.database (PostgreSQL.PostgreSQLTableLister_call row c).2
     = PostgreSQL.database c).
Proof.
  split.
  - intros c row cols ks before kr after w Hu Hcols Hks Hrows Hb Hw.
    rewrite (mysql_table_lister_run c row cols ks Hu Hcols Hks), Hrows.
    by rewrite (key_run_lookup_thrown before kr after
                  (MySQL.MySQLKeyLister_new (Catalog.mysql_listed row cols)) w Hb Hw).
  - intros c row cols pk ks before r after w Hcols Hpk Hks Hrows Hb Hw.
    rewrite (pg_table_lister_run c row cols pk ks Hcols Hpk Hks), Hrows.
    by rewrite (pg_primary_key_lister_thrown before r after w
                  (Catalog.pg_listed row cols) Hb Hw).
Qed.

Lemma unknown_key_column_is_fatal_witness :
  ((@MySQL.MySQLTableLister_call Instances.decls
      (Samples.My.table_row "ghosts") Scenarios.mysql_client).1
   = Thrown "Unknown column owner" ∧
   MySQL.database (@MySQL.MySQLTableLister_call Instances.decls
                     (Samples.My.table_row "ghosts") Scenarios.mysql_client).2
   = MySQL.database Scenarios.mysql_client) ∧
  ((@PostgreSQL.PostgreSQLTableLister_call Instances.decls
      (Samples.Pg.table_row "ghosts") Scenarios.pg_client).1
   = Thrown "Unknown column owner" ∧
   PostgreSQL.database (@PostgreSQL.PostgreSQLTableLister_call Instances.decls
                          (Samples.Pg.table_row "ghosts") Scenarios.pg_client).2
   = PostgreSQL.database Scenarios.pg_client).
Proof.
  split.
  - refine (proj1 (@unknown_key_column_is_fatal Instances.decls)
              Scenarios.mysql_client (Samples.My.table_row "ghosts")
              Scenarios.ghosts_columns Scenarios.ghosts_keys
              [Catalog.mysql_key_row
                 {| MySQL.n_columns := 10;
                    MySQL._row := Samples.My.key_row "ghosts" "0" "PRIMARY" "1" "id" "" |}]
              (Catalog.mysql_key_row
                 {| MySQL.n_columns := 10;
                    MySQL._row :=
                      Samples.My.key_row "ghosts" "1" "by_owner" "1" "owner" "YES" |})
              [] "Unknown column owner" eq_refl _ _ _ _ _).
    + split; reflexivity.
    + split; reflexivity.
    + reflexivity.
    + constructor; [|constructor]. exists 0. reflexivity.
    + reflexivity.
  - refine (proj2 (@unknown_key_column_is_fatal Instances.decls)
              Scenarios.pg_client (Samples.Pg.table_row "ghosts")
              (Samples.Pg.tuples_ok 1 [Samples.text ["id"]])
              (Samples.Pg.tuples_ok 1 [Samples.text ["id"]; Samples.text ["owner"]])
              (Samples.Pg.tuples_ok 4 [])
              [{| PostgreSQL.row_res :=
                    PostgreSQL.PostgreSQLRes_new
                      (Some (Samples.Pg.tuples_ok 1
                               [Samples.text ["id"]; Samples.text ["owner"]]));
                  PostgreSQL._row_number := 0 |}]
              {| PostgreSQL.row_res :=
                   PostgreSQL.PostgreSQLRes_new
                     (Some (Samples.Pg.tuples_ok 1
                              [Samples.text ["id"]; Samples.text ["owner"]]));
                 PostgreSQL._row_number := 1 |}
              [] "Unknown column owner" _ _ _ _ _ _).
    + split; reflexivity.
    + split; reflexivity.
    + split; reflexivity.
    + reflexivity.
    + constructor; [|constructor]. exists 0. reflexivity.
    + reflexivity.
Defined.

(** X12: on MySQL a transaction is started with two statements, and the first
    failure ends it: when the server rejects the statement that sets the
    isolation level, [start_transaction] throws its error and START
    TRANSACTION is never sent; when it rejects START TRANSACTION, the
    error is that statement's, with the isolation level already set. *)
Theorem mysql_start_transaction_stops_at_first_failure
    (c : MySQL.MySQLClient) (readonly snapshot : bool) (diag : string) :
  let isolation :=
    if snapshot then "SET TRANSACTION ISOLATION LEVEL REPEATABLE READ"
    else "SET TRANSACTION ISOLATION LEVEL READ COMMITTED" in
  let start :=
    if readonly && (MySQL.MYSQL_5_6_5 <=? MySQL.server_version (MySQL.mysql c))%Z
    then "START TRANSACTION READ ONLY" else "START TRANSACTION" in
  let r := MySQL.start_transaction readonly snapshot c in
  (MySQL.server (MySQL.mysql c) isolation = MySQL.Rejected diag →
   r.1 = Thrown (diag +:+ newline +:+ isolation) ∧
   MySQL.statements (MySQL.mysql r.2)
   = MySQL.statements (MySQL.mysql c) ++ [isolation]) ∧
  (∀ reply,
     MySQL.server (MySQL.mysql c) isolation = MySQL.Accepted reply →
     MySQL.server (MySQL.mysql c) start = MySQL.Rejected diag →
     r.1 = Thrown (diag +:+ newline +:+ start) ∧
     MySQL.statements (MySQL.mysql r.2)
     = MySQL.statements (MySQL.mysql c) ++ [isolation; start]).
Proof.
  cbn zeta. unfold MySQL.start_transaction, bind. split.
  - intros E. by rewrite (mysql_execute_rejected _ _ _ E).
  - intros reply E E'.
    destruct (mysql_execute_accepted c _ reply E) as (my & -> & Hs & Hsrv & Hv & _).
    unfold gets, MySQL.mysql_get_server_version. cbn [MySQL.mysql MySQL.set_mysql].
    rewrite Hv.
    rewrite (mysql_execute_rejected (MySQL.set_mysql my c) _ diag)
      by (cbn [MySQL.mysql MySQL.set_mysql]; by rewrite Hsrv).
    cbn [fst snd MySQL.mysql MySQL.set_mysql MySQL.statements MySQL.sent].
    by rewrite Hs, <- app_assoc.
Qed.

Lemma mysql_start_transaction_stops_at_first_failure_witness :
  ((MySQL.start_transaction true true Scenarios.mysql_client).1
   = Thrown ("Access denied" +:+ newline
             +:+ "SET TRANSACTION ISOLATION LEVEL REPEATABLE READ") ∧
   MySQL.statements (MySQL.mysql (MySQL.start_transaction true true
                                    Scenarios.mysql_client).2)
   = [] ++ ["SET TRANSACTION ISOLATION LEVEL REPEATABLE READ"]) ∧
  ((MySQL.start_transaction true false Scenarios.mysql_client).1
   = Thrown ("You have an error in your SQL syntax" +:+ newline
             +:+ "START TRANSACTION READ ONLY") ∧
   MySQL.statements (MySQL.mysql (MySQL.start_transaction true false
                                    Scenarios.mysql_client).2)
   = [] ++ ["SET TRANSACTION ISOLATION LEVEL READ COMMITTED";
            "START TRANSACTION READ ONLY"]).
Proof.
  split.
  - apply (proj1 (mysql_start_transaction_stops_at_first_failure
                    Scenarios.mysql_client true true "Access denied")).
    reflexivity.
  - apply (proj2 (mysql_start_transaction_stops_at_first_failure
                    Scenarios.mysql_client true false
                    "You have an error in your SQL syntax") None).
    + reflexivity.
    + reflexivity.
Defined.

(** ** The order of tables *)

Section table_order.

Lemma ltb_negb_leb (s1 s2 : string) : String.ltb s1 s2 = negb (String.leb s2 s1).
Proof.
  unfold String.ltb, String.leb. rewrite (String.compare_antisym s1 s2).
  by destruct (String.compare s2 s1).
Qed.

Lemma ltb_leb (s1 s2 : string) : String.ltb s1 s2 = true → String.leb s1 s2 = true.
Proof. unfold String.ltb, String.leb. by destruct (String.compare s1 s2). Qed.

Lemma leb_refl (s : string) : String.leb s s = true.
Proof. apply Is_true_true. change (String.le s s). reflexivity. Qed.

Lemma leb_trans (s1 s2 s3 : string) :
  String.leb s1 s2 = true → String.leb s2 s3 = true → String.leb s1 s3 = true.
Proof.
  intros H1%Is_true_true H2%Is_true_true. apply Is_true_true.
  change (String.le s1 s3). by etrans.
Qed.

End table_order.

(** X16: [Table::operator<] is a strict weak ordering by name: no table
    stands before itself, of two tables at most one stands before the
    other, standing before is transitive, and two tables are unordered
    exactly when they have the same name. *)
Theorem table_order_is_strict_weak :
  (∀ t, Listing.Table_lt t t = false) ∧
  (∀ t1 t2, Listing.Table_lt t1 t2 = true → Listing.Table_lt t2 t1 = false) ∧
  (∀ t1 t2 t3,
     Listing.Table_lt t1 t2 = true → Listing.Table_lt t2 t3 = true →
     Listing.Table_lt t1 t3 = true) ∧
  (∀ t1 t2,
     Listing.Table_lt t1 t2 = false ∧ Listing.Table_lt t2 t1 = false
     ↔ name t1 = name t2).
Proof.
  unfold Listing.Table_lt. split_and!.
  - intros t. by rewrite ltb_negb_leb, leb_refl.
  - intros t1 t2 H. rewrite ltb_negb_leb. by rewrite (ltb_leb _ _ H).
  - intros t1 t2 t3 H12 H23. rewrite ltb_negb_leb.
    destruct (String.leb (name t3) (name t1)) eqn:E; [|done].
    rewrite ltb_negb_leb in H23.
    by rewrite (leb_trans _ _ _ E (ltb_leb _ _ H12)) in H23.
  - intros t1 t2. rewrite !ltb_negb_leb. split.
    + intros [H1%negb_false_iff H2%negb_false_iff]. by apply String.leb_antisym.
    + intros ->. by rewrite leb_refl.
Qed.

Lemma table_order_is_strict_weak_witness :
  Listing.Table_lt Samples.sessions_table Samples.orders_table = false ∧
  (Listing.Table_lt Samples.orders_table
     (set_keys (λ _, []) Samples.orders_table) = false ∧
   Listing.Table_lt (set_keys (λ _, []) Samples.orders_table)
     Samples.orders_table = false).
Proof.
  split.
  - apply (proj1 (proj2 table_order_is_strict_weak)). reflexivity.
  - apply (proj2 (proj2 (proj2 table_order_is_strict_weak))). reflexivity.
Defined.

(** ** Retrieval and construction *)

(** X14: [retrieve_rows], in both shapes and on both engines, hands the row
    packer the rows of the reply to the generated statement, in order,
    and ends as the packer ends; on MySQL, where the rows are streamed
    (on a connection with nothing unread before), nothing is left unread
    afterwards, also when the packer stopped early. *)
Theorem retrieve_rows_hands_rows_to_packer `{sql : Retrieval.SqlDecls} :
  (∀ P (row_packer : MySQL.MySQLRow → P → outcome P) table prev_key row_count
     last_key p (c : MySQL.MySQLClient) rs,
     MySQL.unread (MySQL.mysql c) = [] →
     (Catalog.mysql_answers c
        (Retrieval.retrieve_rows_sql_count table prev_key row_count) rs →
      let r := Retrieval.mysql_retrieve_rows_count table prev_key row_count
                 (λ row p, lift (row_packer row p)) p c in
      r.1 = run_rows row_packer (Catalog.mysql_rows rs) p ∧
      MySQL.unread (MySQL.mysql r.2) = []) ∧
     (Catalog.mysql_answers c
        (Retrieval.retrieve_rows_sql_range table prev_key last_key) rs →
      let r := Retrieval.mysql_retrieve_rows_range table prev_key last_key
                 (λ row p, lift (row_packer row p)) p c in
      r.1 = run_rows row_packer (Catalog.mysql_rows rs) p ∧
      MySQL.unread (MySQL.mysql r.2) = [])) ∧
  (∀ P (row_packer : PostgreSQL.PostgreSQLRow → P → outcome P) table prev_key
     row_count last_key p (c : PostgreSQL.PostgreSQLClient) res,
     (Catalog.pg_answers c
        (Retrieval.retrieve_rows_sql_count table prev_key row_count) res →
      (Retrieval.pg_retrieve_rows_count table prev_key row_count
         (λ row p, lift (row_packer row p)) p c).1
      = run_rows row_packer (Catalog.pg_rows res) p) ∧
     (Catalog.pg_answers c
        (Retrieval.retrieve_rows_sql_range table prev_key last_key) res →
      (Retrieval.pg_retrieve_rows_range table prev_key last_key
         (λ row p, lift (row_packer row p)) p c).1
      = run_rows row_packer (Catalog.pg_rows res) p)).
Proof.
  split.
  - intros P row_packer table prev_key row_count last_key p c rs Hu.
    split; intros [Hs He]; cbn zeta;
      unfold Retrieval.mysql_retrieve_rows_count, Retrieval.mysql_retrieve_rows_range;
      rewrite (mysql_query_lift row_packer _ p c rs Hu Hs), He; cbn [fst snd];
      (split; [by destruct (run_rows row_packer (Catalog.mysql_rows rs) p)|done]).
  - intros P row_packer table prev_key row_count last_key p c res.
    split; intros Ha;
      unfold Retrieval.pg_retrieve_rows_count, Retrieval.pg_retrieve_rows_range;
      by rewrite (pg_query_lift row_packer _ p c res Ha).
Qed.

Lemma retrieve_rows_hands_rows_to_packer_witness :
  ((@Retrieval.mysql_retrieve_rows_count Scenarios.sql_decls _
      Samples.orders_table [] 2
      (λ row p, lift (Samples.collect_until "9" row p)) []
      (Samples.My.client 50700)).1 = Thrown "stopped at 9" ∧
   MySQL.unread
     (MySQL.mysql
        (@Retrieval.mysql_retrieve_rows_count Scenarios.sql_decls _
           Samples.orders_table [] 2
           (λ row p, lift (Samples.collect_until "9" row p)) []
           (Samples.My.client 50700)).2) = []) ∧
  (@Retrieval.pg_retrieve_rows_count Scenarios.sql_decls _
     Samples.orders_table [] 2
     (λ row p, lift (Returned (p ++ [PostgreSQL.string_at row 0]))) []
     Samples.Pg.client).1 = Returned ["5"; "6"; "9"].
Proof.
  split.
  - apply (proj1 (proj1 (@retrieve_rows_hands_rows_to_packer Scenarios.sql_decls)
                    _ (Samples.collect_until "9") Samples.orders_table [] 2 []
                    [] (Samples.My.client 50700)
                    (Samples.My.result_set 1
                       [Samples.text ["5"]; Samples.text ["6"]; Samples.text ["9"]])
                    eq_refl)).
    split; reflexivity.
  - apply (proj1 (proj2 (@retrieve_rows_hands_rows_to_packer Scenarios.sql_decls)
                    _ (λ row p, Returned (p ++ [PostgreSQL.string_at row 0]))
                    Samples.orders_table [] 2 [] [] Samples.Pg.client
                    (Samples.Pg.tuples_ok 1
                       [Samples.text ["5"]; Samples.text ["6"]; Samples.text ["9"]]))).
    split; reflexivity.
Defined.

Section construction.
Context `{decls : Decls} `{network : Construction.Network}.
Import Construction.

Lemma mysql_start_transaction_returned readonly snapshot c c' :
  MySQL.start_transaction readonly snapshot c = (Returned (), c') →
  MySQL.statements (MySQL.mysql c')
  = MySQL.statements (MySQL.mysql c)
    ++ [ if snapshot then "SET TRANSACTION ISOLATION LEVEL REPEATABLE READ"
         else "SET TRANSACTION ISOLATION LEVEL READ COMMITTED";
         if readonly && (MySQL.MYSQL_5_6_5 <=? MySQL.server_version (MySQL.mysql c))%Z
         then "START TRANSACTION READ ONLY" else "START TRANSACTION" ] ∧
  MySQL.database c' = MySQL.database c ∧
  MySQL.open_results (MySQL.mysql c') = MySQL.open_results (MySQL.mysql c).
Proof.
  unfold MySQL.start_transaction, bind. intros H.
  destruct (MySQL.execute _ c) as [[[]|w|u] c1] eqn:E1; [|done..].
  unfold gets, MySQL.mysql_get_server_version in H.
  match type of E1 with
  | MySQL.execute ?sql c = _ =>
      pose proof (mysql_execute_open_results c sql) as Ho1; rewrite E1 in Ho1
  end.
  match type of H with
  | MySQL.execute ?sql c1 = _ =>
      pose proof (mysql_execute_open_results c1 sql) as Ho2; rewrite H in Ho2
  end.
  apply mysql_execute_returned in E1 as (Hs1 & _ & Hv1 & Hd1).
  apply mysql_execute_returned in H as (Hs2 & _ & _ & Hd2).
  cbn [snd] in *.
  by rewrite Hs2, Hs1, Hd2, Hd1, <- app_assoc, Ho2, Ho1, Hv1.
Qed.

Lemma pg_start_transaction_returned readonly snapshot c c' :
  PostgreSQL.start_transaction readonly snapshot c = (Returned (), c') →
  PostgreSQL.statements (PostgreSQL.conn c')
  = PostgreSQL.statements (PostgreSQL.conn c)
    ++ [ if snapshot
         then (if readonly
               then "START TRANSACTION READ ONLY ISOLATION LEVEL REPEATABLE READ"
               else "START TRANSACTION ISOLATION LEVEL REPEATABLE READ")
         else (if readonly
               then "START TRANSACTION READ ONLY ISOLATION LEVEL READ COMMITTED"
               else "START TRANSACTION ISOLATION LEVEL READ COMMITTED") ] ∧
  PostgreSQL.database c' = PostgreSQL.database c ∧
  PostgreSQL.open_results (PostgreSQL.conn c')
  = PostgreSQL.open_results (PostgreSQL.conn c).
Proof.
  unfold PostgreSQL.start_transaction. intros H.
  assert (∃ sql, PostgreSQL.execute sql c = (Returned (), c') ∧
                 sql = if snapshot
                       then (if readonly
                             then "START TRANSACTION READ ONLY ISOLATION LEVEL REPEATABLE READ"
                             else "START TRANSACTION ISOLATION LEVEL REPEATABLE READ")
                       else (if readonly
                             then "START TRANSACTION READ ONLY ISOLATION LEVEL READ COMMITTED"
                             else "START TRANSACTION ISOLATION LEVEL READ COMMITTED"))
    as (sql & E & <-).
  { destruct snapshot; eauto. }
  pose proof (pg_execute_open_results c sql) as Ho. rewrite E in Ho.
  cbn [snd] in Ho.
  apply pg_execute_returned in E as (Hs & _ & Hd). by rewrite Hs, Hd, Ho.
Qed.

End construction.

(** X13: a client is made over a connection that is up, with the transaction
    started before the schema is read: when the connection is not up,
    the constructor throws the message of the library; a constructed
    client has sent, first of all, the statements that start the
    transaction and then the query for the tables, its schema holds only
    tables with primary-key columns and keys in order, and it has left no
    result handle open. *)
Theorem client_construction `{decls : Decls} `{network : Construction.Network}
    (database_host database_port database_name
     database_username database_password : option string)
    (readonly snapshot : bool) :
  (∀ port socket my,
     MySQL.port_and_socket database_port = Returned (port, socket) →
     Construction.mysql_real_connect
       {| Construction.my_host := database_host;
          Construction.my_user := database_username;
          Construction.my_password := database_password;
          Construction.my_database := database_name;
          Construction.my_port := port; Construction.my_socket := socket |}
     = (my, false) →
     Construction.MySQLClient_new database_host database_port database_name
       database_username database_password readonly snapshot
     = Thrown (MySQL.mysql_error my)) ∧
  (∀ c,
     Construction.MySQLClient_new database_host database_port database_name
       database_username database_password readonly snapshot = Returned c →
     ∃ port socket my more,
       MySQL.port_and_socket database_port = Returned (port, socket) ∧
       Construction.mysql_real_connect
         {| Construction.my_host := database_host;
            Construction.my_user := database_username;
            Construction.my_password := database_password;
            Construction.my_database := database_name;
            Construction.my_port := port; Construction.my_socket := socket |}
       = (my, true) ∧
       MySQL.statements (MySQL.mysql c)
       = MySQL.statements my
         ++ [ if snapshot then "SET TRANSACTION ISOLATION LEVEL REPEATABLE READ"
              else "SET TRANSACTION ISOLATION LEVEL READ COMMITTED";
              if readonly && (MySQL.MYSQL_5_6_5 <=? MySQL.server_version my)%Z
              then "START TRANSACTION READ ONLY" else "START TRANSACTION";
              "SELECT table_name FROM information_schema.tables WHERE table_schema = schema() ORDER BY data_length DESC, table_name ASC" ]
         ++ more ∧
       Forall Listing.well_formed (tables (MySQL.database c)) ∧
       MySQL.open_results (MySQL.mysql c) = MySQL.open_results my) ∧
  (∀ conn,
     Construction.PQconnectdbParams
       [ ("host", database_host); ("port", database_port);
         ("dbname", database_name); ("user", database_username);
         ("password", database_password) ] = (conn, false) →
     Construction.PostgreSQLClient_new database_host database_port database_name
       database_username database_password readonly snapshot
     = Thrown (PostgreSQL.PQerrorMessage conn)) ∧
  (∀ c,
     Construction.PostgreSQLClient_new database_host database_port database_name
       database_username database_password readonly snapshot = Returned c →
     ∃ conn more,
       Construction.PQconnectdbParams
         [ ("host", database_host); ("port", database_port);
           ("dbname", database_name); ("user", database_username);
           ("password", database_password) ] = (conn, true) ∧
       PostgreSQL.statements (PostgreSQL.conn c)
       = PostgreSQL.statements conn
         ++ [ if snapshot
              then (if readonly
                    then "START TRANSACTION READ ONLY ISOLATION LEVEL REPEATABLE READ"
                    else "START TRANSACTION ISOLATION LEVEL REPEATABLE READ")
              else (if readonly
                    then "START TRANSACTION READ ONLY ISOLATION LEVEL READ COMMITTED"
                    else "START TRANSACTION ISOLATION LEVEL READ COMMITTED");
              "SELECT tablename " +:+
                "FROM pg_tables " +:+
               "WHERE schemaname = ANY (current_schemas(false)) " +:+
               "ORDER BY pg_relation_size(tablename::text) DESC, tablename ASC" ]
         ++ more ∧
       Forall Listing.well_formed (tables (PostgreSQL.database c)) ∧
       PostgreSQL.open_results (PostgreSQL.conn c) = PostgreSQL.open_results conn).
Proof.
  split_and!.
  - intros port socket my Hp Hc. unfold Construction.MySQLClient_new.
    rewrite Hp. simpl. by rewrite Hc.
  - intros c. unfold Construction.MySQLClient_new.
    destruct (MySQL.port_and_socket database_port) as [[port socket]| |]; [|done..].
    simpl.
    destruct (Construction.mysql_real_connect _) as [my [|]] eqn:Hc; [|done].
    unfold bind.
    destruct (MySQL.start_transaction readonly snapshot _) as [[[]|w|u] c1] eqn:Hst;
      [|done..].
    apply mysql_start_transaction_returned in Hst as (Hs1 & Hd1 & Ho1).
    pose proof (mysql_populate_frame c1) as ((ts & Hts & Hwf) & Ho2 & (more & Hs2)).
    destruct (MySQL.populate_database_schema c1) as [[[]|w|u] c2]; [|done..].
    intros [= <-]. cbn [fst snd MySQL.mysql MySQL.database tables] in *.
    exists port, socket, my, more. split; [done|]. split; [done|].
    rewrite Hs2, Hs1, Ho2, Ho1, Hts, Hd1, <- app_assoc. simpl. done.
  - intros conn Hc. unfold Construction.PostgreSQLClient_new. by rewrite Hc.
  - intros c. unfold Construction.PostgreSQLClient_new.
    destruct (Construction.PQconnectdbParams _) as [conn [|]] eqn:Hc; [|done].
    unfold bind.
    destruct (PostgreSQL.start_transaction readonly snapshot _) as [[[]|w|u] c1] eqn:Hst;
      [|done..].
    apply pg_start_transaction_returned in Hst as (Hs1 & Hd1 & Ho1).
    pose proof (pg_populate_frame c1) as ((ts & Hts & Hwf) & Ho2 & (more & Hs2)).
    destruct (PostgreSQL.populate_database_schema c1) as [[[]|w|u] c2]; [|done..].
    intros [= <-]. cbn [fst snd PostgreSQL.conn PostgreSQL.database tables] in *.
    exists conn, more. split; [done|].
    rewrite Hs2, Hs1, Ho2, Ho1, Hts, Hd1, <- app_assoc. simpl. done.
Qed.

Lemma client_construction_witness :
  @Construction.MySQLClient_new Instances.decls Scenarios.network
    (Some "elsewhere") (Some "3306") (Some "shop") (Some "ks") None true true
  = Thrown "Unknown MySQL server host" ∧
  (∃ c,
     @Construction.MySQLClient_new Instances.decls Scenarios.network
       (Some "db") (Some "3306") (Some "shop") (Some "ks") None true true
     = Returned c ∧
     ∃ port socket my more,
       MySQL.port_and_socket (Some "3306") = Returned (port, socket) ∧
       @Construction.mysql_real_connect Scenarios.network
         {| Construction.my_host := Some "db"; Construction.my_user := Some "ks";
            Construction.my_password := None; Construction.my_database := Some "shop";
            Construction.my_port := port; Construction.my_socket := socket |}
       = (my, true) ∧
       MySQL.statements (MySQL.mysql c)
       = MySQL.statements my
         ++ [ "SET TRANSACTION ISOLATION LEVEL REPEATABLE READ";
              if true && (MySQL.MYSQL_5_6_5 <=? MySQL.server_version my)%Z
              then "START TRANSACTION READ ONLY" else "START TRANSACTION";
              "SELECT table_name FROM information_schema.tables WHERE table_schema = schema() ORDER BY data_length DESC, table_name ASC" ]
         ++ more ∧
       Forall Listing.well_formed (tables (MySQL.database c)) ∧
       MySQL.open_results (MySQL.mysql c) = MySQL.open_results my) ∧
  ∃ c,
    @Construction.PostgreSQLClient_new Instances.decls Scenarios.network
      (Some "db") (Some "5432") (Some "shop") (Some "ks") None true true
    = Returned c ∧
    ∃ conn more,
      @Construction.PQconnectdbParams Scenarios.network
        [ ("host", Some "db"); ("port", Some "5432"); ("dbname", Some "shop");
          ("user", Some "ks"); ("password", None) ] = (conn, true) ∧
      PostgreSQL.statements (PostgreSQL.conn c)
      = PostgreSQL.statements conn
        ++ [ "START TRANSACTION READ ONLY ISOLATION LEVEL REPEATABLE READ";
             "SELECT tablename " +:+
               "FROM pg_tables " +:+
              "WHERE schemaname = ANY (current_schemas(false)) " +:+
              "ORDER BY pg_relation_size(tablename::text) DESC, tablename ASC" ]
        ++ more ∧
      Forall Listing.well_formed (tables (PostgreSQL.database c)) ∧
      PostgreSQL.open_results (PostgreSQL.conn c) = PostgreSQL.open_results conn.
Proof.
  split; [|split].
  - apply (proj1 (@client_construction Instances.decls Scenarios.network
                    (Some "elsewhere") (Some "3306") (Some "shop") (Some "ks") None
                    true true) 3306%Z None Scenarios.unreachable).
    + reflexivity.
    + reflexivity.
  - eexists. split; [vm_compute; reflexivity|].
    apply (proj1 (proj2 (@client_construction Instances.decls Scenarios.network
                    (Some "db") (Some "3306") (Some "shop") (Some "ks") None
                    true true))).
    vm_compute. reflexivity.
  - eexists. split; [vm_compute; reflexivity|].
    apply (proj2 (proj2 (proj2 (@client_construction Instances.decls Scenarios.network
                    (Some "db") (Some "5432") (Some "shop") (Some "ks") None
                    true true)))).
    vm_compute. reflexivity.
Defined.

(** ** What a table lister sends and in which order it lists columns *)

(** X10: a table lister call asks for the columns first; when it returns it
    has sent the column query and the key query on MySQL, and the column
    query, the primary-key query and the key query on PostgreSQL, in
    this order and nothing else. *)
Theorem table_lister_statements `{decls : Decls} :
  (∀ (row : MySQL.MySQLRow) (c : MySQL.MySQLClient),
     let r := MySQL.MySQLTableLister_call row c in
     let columns_sql := "SHOW COLUMNS FROM " +:+ MySQL.string_at row 0 in
     let keys_sql := "SHOW KEYS FROM " +:+ MySQL.string_at row 0 in
     (∃ more, MySQL.statements (MySQL.mysql r.2)
              = MySQL.statements (MySQL.mysql c) ++ columns_sql :: more) ∧
     (r.1 = Returned () →
      MySQL.statements (MySQL.mysql r.2)
      = MySQL.statements (MySQL.mysql c) ++ [columns_sql; keys_sql])) ∧
  (∀ (row : PostgreSQL.PostgreSQLRow) (c : PostgreSQL.PostgreSQLClient),
     let r := PostgreSQL.PostgreSQLTableLister_call row c in
     let table_name := PostgreSQL.string_at row 0 in
     (∃ more, PostgreSQL.statements (PostgreSQL.conn r.2)
              = PostgreSQL.statements (PostgreSQL.conn c)
                ++ PostgreSQL.columns_sql table_name :: more) ∧
     (r.1 = Returned () →
      PostgreSQL.statements (PostgreSQL.conn r.2)
      = PostgreSQL.statements (PostgreSQL.conn c)
        ++ [PostgreSQL.columns_sql table_name;
            PostgreSQL.primary_key_sql table_name;
            PostgreSQL.keys_sql table_name])).
Proof.
  split; intros row c; cbn zeta.
  - pose proof (mysql_table_lister_ends row c) as (_ & Hs & _). cbn zeta in Hs.
    destruct Hs as [[-> Hn]| ->]; split; eauto; done.
  - pose proof (pg_table_lister_ends row c) as (_ & (more & -> & Hr) & _).
    split; [by eauto|]. intros E. by rewrite (Hr E).
Qed.

Lemma table_lister_statements_witness :
  MySQL.statements
    (MySQL.mysql (@MySQL.MySQLTableLister_call Instances.decls
                    (Samples.My.table_row "orders") (Samples.My.client 50700)).2)
  = [] ++ ["SHOW COLUMNS FROM " +:+ "orders"; "SHOW KEYS FROM " +:+ "orders"] ∧
  PostgreSQL.statements
    (PostgreSQL.conn (@PostgreSQL.PostgreSQLTableLister_call Instances.decls
                        (Samples.Pg.table_row "orders") Samples.Pg.client).2)
  = [] ++ [PostgreSQL.columns_sql "orders"; PostgreSQL.primary_key_sql "orders";
           PostgreSQL.keys_sql "orders"].
Proof.
  split.
  - apply (proj2 (proj1 (@table_lister_statements Instances.decls)
                    (Samples.My.table_row "orders") (Samples.My.client 50700))).
    vm_compute. reflexivity.
  - apply (proj2 (proj2 (@table_lister_statements Instances.decls)
                    (Samples.Pg.table_row "orders") Samples.Pg.client)).
    vm_compute. reflexivity.
Defined.

(** X11: the columns of a listed table are the names in the rows of the
    column query, one column for each row and in the order of the rows. *)
Theorem table_columns_in_reported_order `{decls : Decls} :
  (∀ (c c' : MySQL.MySQLClient) row cols ks,
     MySQL.unread (MySQL.mysql c) = [] →
     Catalog.mysql_answers c ("SHOW COLUMNS FROM " +:+ MySQL.string_at row 0) cols →
     Catalog.mysql_answers c ("SHOW KEYS FROM " +:+ MySQL.string_at row 0) ks →
     MySQL.MySQLTableLister_call row c = (Returned (), c') →
     ∃ table,
       tables (MySQL.database c') = tables (MySQL.database c) ++ [table] ∧
       column_name <$> columns table
       = (λ r, MySQL.string_at r 0) <$> Catalog.mysql_rows cols) ∧
  (∀ (c c' : PostgreSQL.PostgreSQLClient) row cols pk ks,
     Catalog.pg_answers c (PostgreSQL.columns_sql (PostgreSQL.string_at row 0)) cols →
     Catalog.pg_answers c (PostgreSQL.primary_key_sql (PostgreSQL.string_at row 0)) pk →
     Catalog.pg_answers c (PostgreSQL.keys_sql (PostgreSQL.string_at row 0)) ks →
     PostgreSQL.PostgreSQLTableLister_call row c = (Returned (), c') →
     ∃ table,
       tables (PostgreSQL.database c') = tables (PostgreSQL.database c) ++ [table] ∧
       column_name <$> columns table
       = (λ r, PostgreSQL.string_at r 0) <$> Catalog.pg_rows cols).
Proof.
  split.
  - intros c c' row cols ks Hu Hcols Hks.
    rewrite (mysql_table_lister_run c row cols ks Hu Hcols Hks).
    destruct (run_rows _ _ _) as [kl| |] eqn:Hrun; [|done..].
    destruct (primary_key_columns (Catalog.settled_table kl)); [done|].
    intros [= <-]. exists (Catalog.settled_table kl). split; [done|].
    destruct (key_run_columns _ _ _ Hrun) as [_ Hc].
    change (columns (Catalog.settled_table kl)) with (columns (kl_table kl)).
    rewrite Hc. simpl. by rewrite <- list_fmap_compose.
  - intros c c' row cols pk ks Hcols Hpk Hks.
    rewrite (pg_table_lister_run c row cols pk ks Hcols Hpk Hks).
    destruct (run_rows PostgreSQL.PostgreSQLPrimaryKeyLister_call _ _)
      as [table| |] eqn:Hpkrun; [|done..].
    destruct (run_rows Catalog.key_step _ _) as [kl| |] eqn:Hrun; [|done..].
    destruct (primary_key_columns (Catalog.settled_table kl)); [done|].
    intros [= <-]. exists (Catalog.settled_table kl). split; [done|].
    destruct (key_run_columns _ _ _ Hrun) as [_ Hc].
    apply pg_primary_key_lister_run in Hpkrun as (_ & Hc' & _).
    change (columns (Catalog.settled_table kl)) with (columns (kl_table kl)).
    rewrite Hc. simpl. rewrite Hc'. simpl. by rewrite <- list_fmap_compose.
Qed.

Lemma table_columns_in_reported_order_witness :
  (∃ table,
     tables (MySQL.database
               (@MySQL.MySQLTableLister_call Instances.decls
                  (Samples.My.table_row "sessions") (Samples.My.client 50700)).2)
     = [] ++ [table] ∧
     column_name <$> columns table
     = (λ r, MySQL.string_at r 0) <$> Catalog.mysql_rows Samples.My.sessions_columns) ∧
  (∃ table,
     tables (PostgreSQL.database
               (@PostgreSQL.PostgreSQLTableLister_call Instances.decls
                  (Samples.Pg.table_row "sessions") Samples.Pg.client).2)
     = [] ++ [table] ∧
     column_name <$> columns table
     = (λ r, PostgreSQL.string_at r 0) <$> Catalog.pg_rows Samples.Pg.sessions_columns).
Proof.
  split.
  - refine (proj1 (@table_columns_in_reported_order Instances.decls)
              (Samples.My.client 50700) _ (Samples.My.table_row "sessions")
              Samples.My.sessions_columns Samples.My.sessions_keys eq_refl _ _ _).
    + split; reflexivity.
    + split; reflexivity.
    + vm_compute. reflexivity.
  - refine (proj2 (@table_columns_in_reported_order Instances.decls)
              Samples.Pg.client _ (Samples.Pg.table_row "sessions")
              Samples.Pg.sessions_columns Samples.Pg.sessions_primary_key
              Samples.Pg.sessions_keys _ _ _ _).
    + split; reflexivity.
    + split; reflexivity.
    + split; reflexivity.
    + vm_compute. reflexivity.
Defined.

(** ** The port and the socket handed to [mysql_real_connect] *)

(** X15: the constructor of the MySQL client never hands
    [mysql_real_connect] both a port and a socket.  When it hands over a
    socket, the port is 0 and the socket is the parameter as given, which
    does not start with a digit; when it hands over none, the parameter
    is absent or empty and the port is 0, or the parameter starts with a
    digit and the port is what [atoi] returned for it.  For a parameter
    that starts with a digit and whose leading digits make a number that
    [int] holds, the port lies between 0 and the largest [int]. *)
Theorem port_and_socket_exclusive (database_port : option string) :
  (∀ port socket,
     MySQL.port_and_socket database_port = Returned (port, socket) →
     match socket with
     | Some s =>
         port = 0%Z ∧ database_port = Some s ∧
         ∃ c rest, s = String c rest ∧ is_digit c = false
     | None =>
         match database_port with
         | Some (String c rest) =>
             is_digit c = true ∧ atoi (String c rest) = Returned port
         | _ => port = 0%Z
         end
     end) ∧
  (∀ c rest,
     database_port = Some (String c rest) → is_digit c = true →
     (digits_value 0 (String c rest) ≤ INT_MAX)%Z →
     ∃ port,
       MySQL.port_and_socket database_port = Returned (port, None) ∧
       (0 ≤ port ≤ INT_MAX)%Z).
Proof.
  split.
  - intros port socket. unfold MySQL.port_and_socket.
    destruct database_port as [[|c rest]|]; [by intros [= <- <-]| |by intros [= <- <-]].
    destruct (is_digit c) eqn:Hd.
    + destruct (atoi (String c rest)) as [v| |] eqn:Ha; [|done..].
      by intros [= <- <-].
    + intros [= <- <-]. split; [done|]. split; [done|]. by exists c, rest.
  - intros c rest -> Hd Hmax. unfold MySQL.port_and_socket.
    rewrite Hd, (atoi_leading_digit c rest Hd Hmax).
    exists (digits_value 0 (String c rest)). split; [done|]. split; [|done].
    apply (digits_value_ge 0 (String c rest)). lia.
Qed.

Lemma port_and_socket_exclusive_witness :
  (0%Z = 0%Z ∧ Some "/var/run/mysqld.sock" = Some "/var/run/mysqld.sock" ∧
   ∃ c rest, "/var/run/mysqld.sock" = String c rest ∧ is_digit c = false) ∧
  ∃ port,
    MySQL.port_and_socket (Some "3306") = Returned (port, None) ∧
    (0 ≤ port ≤ INT_MAX)%Z.
Proof.
  split.
  - apply (proj1 (port_and_socket_exclusive (Some "/var/run/mysqld.sock"))
             0%Z (Some "/var/run/mysqld.sock")).
    reflexivity.
  - apply (proj2 (port_and_socket_exclusive (Some "3306")) "3"%char "306").
    + reflexivity.
    + reflexivity.
    + vm_compute. discriminate.
Defined.

(** ** One call, one statement *)

Section c_strings.

Lemma pg_execute_frame (c : PostgreSQL.PostgreSQLClient) sql :
  PostgreSQL.statements (PostgreSQL.conn (PostgreSQL.execute sql c).2)
  = PostgreSQL.statements (PostgreSQL.conn c) ++ [sql] ∧
  PostgreSQL.database (PostgreSQL.execute sql c).2 = PostgreSQL.database c.
Proof.
  unfold PostgreSQL.execute, PostgreSQL.PQexec, PostgreSQL.leave,
    PostgreSQL.PostgreSQLRes_delete. simpl.
  destruct (PostgreSQL.result (PostgreSQL.server (PostgreSQL.conn c) sql));
    by case_bool_decide.
Qed.

Lemma mysql_execute_frame (c : MySQL.MySQLClient) sql :
  MySQL.statements (MySQL.mysql (MySQL.execute sql c).2)
  = MySQL.statements (MySQL.mysql c) ++ [sql] ∧
  MySQL.database (MySQL.execute sql c).2 = MySQL.database c.
Proof.
  unfold MySQL.execute, MySQL.mysql_real_query.
  by destruct (MySQL.server (MySQL.mysql c) sql) as [?|[?|]].
Qed.

End c_strings.

(** X17: [execute], and [query] with a callback that leaves the client
    alone, never change the schema and send exactly the statement they
    are given, on both engines, for every reply of the server and on
    every way out.  MySQL is handed the statement with its length;
    PostgreSQL is handed it as a C string, so there this is the statement
    as long as it holds no zero byte.  The commands made of one [execute]
    ([commit_transaction] and the two referential-integrity switches)
    send their one statement, but for [enable_referential_integrity] on
    PostgreSQL, which sends nothing at all. *)
Theorem one_call_one_statement :
  (∀ (c : MySQL.MySQLClient) sql,
     MySQL.statements (MySQL.mysql (MySQL.execute sql c).2)
     = MySQL.statements (MySQL.mysql c) ++ [sql] ∧
     MySQL.database (MySQL.execute sql c).2 = MySQL.database c) ∧
  (∀ St (f : MySQL.MySQLRow → St → outcome St) sql buffer s (c : MySQL.MySQLClient),
     MySQL.statements
       (MySQL.mysql (MySQL.query sql (λ row s, lift (f row s)) buffer s c).2)
     = MySQL.statements (MySQL.mysql c) ++ [sql] ∧
     MySQL.database (MySQL.query sql (λ row s, lift (f row s)) buffer s c).2
     = MySQL.database c) ∧
  (∀ c : MySQL.MySQLClient,
     MySQL.statements (MySQL.mysql (MySQL.commit_transaction c).2)
     = MySQL.statements (MySQL.mysql c) ++ ["COMMIT"] ∧
     MySQL.statements (MySQL.mysql (MySQL.disable_referential_integrity c).2)
     = MySQL.statements (MySQL.mysql c) ++ ["SET foreign_key_checks = 0"] ∧
     MySQL.statements (MySQL.mysql (MySQL.enable_referential_integrity c).2)
     = MySQL.statements (MySQL.mysql c) ++ ["SET foreign_key_checks = 1"]) ∧
  (∀ (c : PostgreSQL.PostgreSQLClient) sql,
     PostgreSQL.database (PostgreSQL.execute sql c).2 = PostgreSQL.database c ∧
     (Wire.c_str sql = sql →
      PostgreSQL.statements (PostgreSQL.conn (PostgreSQL.execute sql c).2)
      = PostgreSQL.statements (PostgreSQL.conn c) ++ [sql])) ∧
  (∀ St (f : PostgreSQL.PostgreSQLRow → St → outcome St) sql s
     (c : PostgreSQL.PostgreSQLClient),
     PostgreSQL.database (PostgreSQL.query sql (λ row s, lift (f row s)) s c).2
     = PostgreSQL.database c ∧
     (Wire.c_str sql = sql →
      PostgreSQL.statements
        (PostgreSQL.conn (PostgreSQL.query sql (λ row s, lift (f row s)) s c).2)
      = PostgreSQL.statements (PostgreSQL.conn c) ++ [sql])) ∧
  (∀ c : PostgreSQL.PostgreSQLClient,
     Wire.c_str "COMMIT" = "COMMIT" ∧
     PostgreSQL.statements (PostgreSQL.conn (PostgreSQL.commit_transaction c).2)
     = PostgreSQL.statements (PostgreSQL.conn c) ++ ["COMMIT"] ∧
     Wire.c_str "SET CONSTRAINTS ALL DEFERRED" = "SET CONSTRAINTS ALL DEFERRED" ∧
     PostgreSQL.statements
       (PostgreSQL.conn (PostgreSQL.disable_referential_integrity c).2)
     = PostgreSQL.statements (PostgreSQL.conn c) ++ ["SET CONSTRAINTS ALL DEFERRED"] ∧
     PostgreSQL.enable_referential_integrity c = (Returned (), c)).
Proof.
  split; [exact mysql_execute_frame|]. split.
  { intros St f sql buffer s c.
    by destruct (mysql_query_lift_frame f sql buffer s c) as (? & ? & _). }
  split.
  { intros c. split_and!; apply mysql_execute_frame. }
  split.
  { intros c sql. by destruct (pg_execute_frame c sql). }
  split.
  { intros St f sql s c.
    by destruct (pg_query_lift_frame f sql s c) as (? & ? & _). }
  intros c. split_and!; [done|apply pg_execute_frame|done|apply pg_execute_frame|done].
Qed.

Lemma one_call_one_statement_witness :
  PostgreSQL.statements
    (PostgreSQL.conn (PostgreSQL.execute "SELECT nothing" Samples.Pg.client).2)
  = [] ++ ["SELECT nothing"] ∧
  PostgreSQL.statements
    (PostgreSQL.conn (PostgreSQL.query "SELECT id FROM orders"
                        (λ row s, lift (Returned (s ++ [PostgreSQL.string_at row 0])))
                        [] Samples.Pg.client).2)
  = [] ++ ["SELECT id FROM orders"].
Proof.
  split.
  - apply (proj2 (proj1 (proj2 (proj2 (proj2 one_call_one_statement)))
                    Samples.Pg.client "SELECT nothing")).
    reflexivity.
  - apply (proj2 (proj1 (proj2 (proj2 (proj2 (proj2 one_call_one_statement))))
                    _ (λ row s, Returned (s ++ [PostgreSQL.string_at row 0]))
                    "SELECT id FROM orders" [] Samples.Pg.client)).
    reflexivity.
Defined.
